(** * A3-SearchEngine: index builder, index reader and query engine

    A shallow embedding of [index_builder.py], [index_reader.py],
    [search_engine.py], [parser.py] and the interactive loop of
    [search.py], and the properties of the on-disk inverted index and of
    boolean-AND tf-idf search that follow from the code.

    Conventions of the embedding:
    - Python [int] is [Z]; Python [str] is [string]; the text of a file is
      the list of its characters.
    - Python [float] is modelled by the real numbers [R]: the arithmetic is
      exact, so rounding, overflow and NaN are outside the model.
      [math.log] keeps its domain error.
    - [dict] is a [gmap] where only lookups matter and an association list
      where the insertion order is observed; a [set] of ints is a [gset Z].
    - A Python exception is [None] in the [option] monad.
    - The HTML parser, the tokenizer, the stemmer and the [json] codec of
      postings blocks are collaborators, gathered in one interface.
      [DocumentParser.parse] is also embedded from [parser.py], over what
      [BeautifulSoup] makes of a document, and [with_parser] puts it in
      the place of the collaborator. *)

From Stdlib Require Import Reals Lra ZArith String Ascii List Permutation Sorted.
From stdpp Require Import gmap strings list fin_maps fin_sets sorting.

#[local] Set Warnings "-register-all,-clear-no-such-hyp".

(** ** Python primitives *)

Module Py.

(** [for x in l: s = body(s, x)], where the body may raise. *)
Fixpoint for_each {S A : Type} (body : S → A → option S) (s : S) (l : list A)
  : option S :=
  match l with
  | [] => Some s
  | x :: l' => s' ← body s x; for_each body s' l'
  end.

(** Comparison of two floats with [<]. *)
Definition Rltb (x y : R) : bool := if Rlt_dec x y then true else false.

(** [max(a, b)] on floats: [b] is taken only when [b > a]. *)
Definition max (a b : R) : R := if Rltb a b then b else a.

(** [math.log(x)]: a [ValueError] outside the domain. *)
Definition math_log (x : R) : option R :=
  if Rltb 0 x then Some (ln x) else None.

(** [list.sort(key=key)]: stable, and the keys are compared with [<]
    only.  An element is inserted in front of the sorted rest, after the
    elements whose key is strictly smaller. *)
Section Sort.
Context {A K : Type} (lt : K → K → bool) (key : A → K).

Fixpoint insort (x : A) (l : list A) : list A :=
  match l with
  | [] => [x]
  | y :: l' => if lt (key y) (key x) then y :: insort x l' else x :: y :: l'
  end.

Definition list_sort (l : list A) : list A := foldr insort [] l.

(** [list.sort(key=key, reverse=True)]: the list is reversed, sorted
    and reversed again, which keeps equal keys in their first order. *)
Definition list_sort_reverse (l : list A) : list A :=
  rev (list_sort (rev l)).
End Sort.

(** [l[:k]]: a negative [k] counts from the end of the list. *)
Definition slice_to {A : Type} (l : list A) (k : Z) : list A :=
  if (0 <=? k)%Z then take (Z.to_nat k) l
  else take (Z.to_nat (Z.of_nat (length l) + k)) l.

(** Characters that end a line. *)
Definition LF : ascii := "010"%char.
Definition CR : ascii := "013"%char.

Definition is_newline (c : ascii) : bool :=
  if decide (c = LF) then true else if decide (c = CR) then true else false.

(** [f.readline()] on a text file opened with the default newline mode:
    the characters up to the first line ending (LF, CR or CR LF), the
    ending itself read as LF. *)
Fixpoint readline (s : list ascii) : list ascii :=
  match s with
  | [] => []
  | c :: s' => if is_newline c then [LF] else c :: readline s'
  end.

(** [s.rstrip('\n\r')]. *)
Fixpoint rstrip (s : list ascii) : list ascii :=
  match s with
  | [] => []
  | c :: s' =>
      match rstrip s' with
      | [] => if is_newline c then [] else [c]
      | r => c :: r
      end
  end.

(** [f.seek(offset)] then the rest of the file; a negative offset is a
    [ValueError], an offset past the end reads nothing. *)
Definition seek (file : list ascii) (offset : Z) : option (list ascii) :=
  if (offset <? 0)%Z then None else Some (drop (Z.to_nat offset) file).

(** [str.lower()] on ASCII. *)
Definition lower_char (c : ascii) : ascii :=
  let n := nat_of_ascii c in
  if (65 <=? n)%nat && (n <=? 90)%nat then ascii_of_nat (n + 32) else c.

Definition lower (s : list ascii) : list ascii := map lower_char s.

(** [s.rfind('.')], on the characters of [s]. *)
Fixpoint rfind_dot (s : list ascii) : option nat :=
  match s with
  | [] => None
  | c :: s' =>
      match rfind_dot s' with
      | Some i => Some (S i)
      | None => if decide (c = "."%char) then Some 0%nat else None
      end
  end.

(** [PurePath.suffix] of a file name: from the last dot, unless that dot
    is the first or the last character. *)
Definition suffix (name : string) : list ascii :=
  let s := list_ascii_of_string name in
  match rfind_dot s with
  | Some i =>
      if (0 <? i)%nat && (i <? length s - 1)%nat then drop i s else []
  | None => []
  end.

End Py.

(** ** Data model *)

(** [Posting] of [index_builder.py] and [index_reader.py]. *)
Record Posting := {
  doc_id : Z;
  weighted_tf : R;
  raw_tf : Z;
  avg_position : R;
}.

(** [TokenStats] of [parser.py]. *)
Record TokenStats := {
  ts_weighted_tf : R;
  ts_raw_tf : Z;
  positions : list Z;
}.

(** [LexiconEntry] of [index_reader.py]; also the record that
    [_write_index] writes on a line of [lexicon.jsonl]. *)
Record LexiconEntry := {
  term : string;
  doc_freq : Z;
  offset : Z;
  length_ : Z;
}.

(** [SearchResult] of [search_engine.py]. *)
Record SearchResult := {
  res_doc_id : Z;
  url : string;
  score : R;
}.

(** The payload of a corpus file after [json.load]: an object whose
    fields ["url"] and ["content"] may be missing. *)
Record Payload := {
  payload_url : option string;
  payload_content : option string;
}.

(** An entry of the corpus directory tree.  The children of a directory
    are listed in the order in which [iterdir()] yields them, which the
    operating system chooses.  The text of a regular file is kept as the
    result of [_load_document]: [None] when the file cannot be read or is
    not JSON. *)
Inductive Node :=
| RegularFile (name : string) (document : option Payload)
| Directory (name : string) (children : list Node).

(** What [stats.json] holds; the two size fields depend on the JSON text
    of every artifact and are left out. *)
Record Stats := {
  num_documents : Z;
  num_unique_terms : Z;
}.

(** The index directory: the five artifacts.  [lexicon.jsonl] is kept as
    its sequence of records, [postings.jsonl] as its text;
    [doc_lookup.json] and [doc_lengths.json] as the mappings they
    encode. *)
Record IndexDir := {
  lexicon_jsonl : list LexiconEntry;
  postings_jsonl : list ascii;
  doc_lookup_json : gmap Z string;
  doc_lengths_json : gmap Z R;
  stats_json : Stats;
}.

(** The collaborators of the core. *)
Class Collaborators := {
  (** [DocumentParser.parse]: the items of the returned dict, in order. *)
  parse : string → list (string * TokenStats);
  (** [DocumentParser._tokenize]. *)
  _tokenize : string → list string;
  (** [PorterStemmer.stem]. *)
  stem : string → string;
  (** [json.dumps] of the list of posting dicts. *)
  json_dumps : list Posting → list ascii;
  (** [json.loads] of a postings line, and the postings rebuilt from it;
      [None] when the text is not JSON or a field is missing. *)
  json_loads : list ascii → option (list Posting);
}.

(** ** [index_builder.py] *)

Module IndexBuilder.

(** The fields of an [IndexBuilder] that [build] mutates. *)
Record t := {
  doc_lookup : gmap Z string;
  doc_lengths : gmap Z R;
  doc_seen_urls : gmap string Z;
  _postings : gmap string (list Posting);
}.

(** The builder after [__init__]. *)
Definition init : t :=
  {| doc_lookup := ∅; doc_lengths := ∅; doc_seen_urls := ∅; _postings := ∅ |}.

(** [_average]: the running total is a float, the count an int. *)
Definition _average (values : list Z) : R :=
  let '(total, count) :=
    foldl (λ '(total, count) value, ((total + IZR value)%R, (count + 1)%Z))
          (0%R, 0%Z) values in
  (total / IZR (Z.max count 1))%R.

(** [Path.name], [Path.is_dir()], [Path.is_file()] and [Path.iterdir()]
    on an entry of the corpus tree. *)
Definition node_name (n : Node) : string :=
  match n with RegularFile name _ | Directory name _ => name end.

Definition is_dir (n : Node) : bool :=
  match n with Directory _ _ => true | RegularFile _ _ => false end.

Definition is_file (n : Node) : bool :=
  match n with RegularFile _ _ => true | Directory _ _ => false end.

Definition iterdir (n : Node) : list Node :=
  match n with Directory _ children => children | RegularFile _ _ => [] end.

(** [f.is_file() and f.suffix.lower() == ".json"]. *)
Definition is_json_file (f : Node) : bool :=
  is_file f &&
  bool_decide (Py.lower (Py.suffix (node_name f)) = list_ascii_of_string ".json").

(** [_iter_corpus_files], when every directory can be listed: the
    sub-directories of the corpus root sorted by name, and in each of
    them the JSON files in the order of [iterdir()]. *)
Definition _iter_corpus_files (corpus_root : Node) : list Node :=
  let domain_folders := filter (λ item, is_dir item = true) (iterdir corpus_root) in
  let selected_folders := Py.list_sort String.ltb node_name domain_folders in
  flat_map (λ folder, filter (λ filename, is_json_file filename = true) (iterdir folder))
           selected_folders.

(** [_load_document]. *)
Definition _load_document (path : Node) : option Payload :=
  match path with RegularFile _ document => document | Directory _ _ => None end.

Section Build.
Context `{Collaborators}.

(** The body of the loop over [token_stats.items()] in [build]: the
    state is the postings accumulator and the running length. *)
Definition add_term (d : Z) (acc : gmap string (list Posting) * R)
           (item : string * TokenStats) : option (gmap string (list Posting) * R) :=
  let '(postings, length) := acc in
  let '(term, stats) := item in
  let posting := {| doc_id := d;
                    weighted_tf := ts_weighted_tf stats;
                    raw_tf := ts_raw_tf stats;
                    avg_position := _average (positions stats) |} in
  let postings := <[term := default [] (postings !! term) ++ [posting]]> postings in
  l ← Py.math_log (1 + ts_weighted_tf stats);
  let term_tf := (1 + l)%R in
  Some (postings, (length + term_tf * term_tf)%R).

(** The local variables of [build] together with the builder. *)
Record loop := {
  self : t;
  next_doc_id : Z;
  files_processed : Z;
  files_skipped : Z;
}.

(** The body of the loop over the corpus files in [build]. *)
Definition build_step (st : loop) (file_path : Node) : option loop :=
  let b := self st in
  let processed := (files_processed st + 1)%Z in
  match _load_document file_path with
  | None =>
      Some {| self := b; next_doc_id := next_doc_id st;
              files_processed := processed;
              files_skipped := (files_skipped st + 1)%Z |}
  | Some payload =>
      url ← payload_url payload;
      let html := default ""%string (payload_content payload) in
      if decide (is_Some (doc_seen_urls b !! url)) then
        Some {| self := b; next_doc_id := next_doc_id st;
                files_processed := processed;
                files_skipped := (files_skipped st + 1)%Z |}
      else
        let d := next_doc_id st in
        let token_stats := parse html in
        '(postings, length) ← Py.for_each (add_term d) (_postings b, 0%R) token_stats;
        Some {| self := {| doc_lookup := <[d := url]> (doc_lookup b);
                           doc_lengths := <[d := Py.max length 1e-9]> (doc_lengths b);
                           doc_seen_urls := <[url := d]> (doc_seen_urls b);
                           _postings := postings |};
                next_doc_id := (d + 1)%Z;
                files_processed := processed;
                files_skipped := files_skipped st |}
  end.

(** The local variables of [build] before its loop. *)
Definition start : loop :=
  {| self := init; next_doc_id := 0; files_processed := 0; files_skipped := 0 |}.

(** The loop of [build] over a sequence of corpus files. *)
Definition build_loop (files : list Node) : option loop :=
  Py.for_each build_step start files.

(** The body of the loop of [_write_index] over the sorted terms: the
    state is the two files written so far. *)
Definition write_term (b : t) (files : list LexiconEntry * list ascii)
           (term : string) : list LexiconEntry * list ascii :=
  let '(lexicon_file, postings_file) := files in
  let postings := Py.list_sort Z.ltb doc_id (default [] (_postings b !! term)) in
  let doc_freq := Z.of_nat (length postings) in
  let postings_json := json_dumps postings in
  let offset := Z.of_nat (length postings_file) in
  let postings_file := postings_file ++ postings_json ++ [Py.LF] in
  let length := (Z.of_nat (length postings_file) - offset)%Z in
  let record := {| term := term; doc_freq := doc_freq;
                   offset := offset; length_ := length |} in
  (lexicon_file ++ [record], postings_file).

(** [sorted(self._postings.keys())]. *)
Definition sorted_terms (b : t) : list string :=
  Py.list_sort String.ltb (λ term : string, term) (map_to_list (_postings b)).*1.

(** [_write_index]: [lexicon.jsonl] and [postings.jsonl]. *)
Definition _write_index (b : t) : list LexiconEntry * list ascii :=
  foldl (write_term b) ([], []) (sorted_terms b).

(** [_write_metadata]: the counts of [stats.json]. *)
Definition _write_metadata (b : t) (lexicon_file : list LexiconEntry) : Stats :=
  {| num_documents := Z.of_nat (size (doc_lookup b));
     num_unique_terms := Z.of_nat (length lexicon_file) |}.

(** The artifacts that [build] leaves in the output directory. *)
Definition write (b : t) : IndexDir :=
  let '(lexicon_file, postings_file) := _write_index b in
  {| lexicon_jsonl := lexicon_file;
     postings_jsonl := postings_file;
     doc_lookup_json := doc_lookup b;
     doc_lengths_json := doc_lengths b;
     stats_json := _write_metadata b lexicon_file |}.

(** [build]. *)
Definition build (corpus_root : Node) : option IndexDir :=
  st ← build_loop (_iter_corpus_files corpus_root);
  Some (write (self st)).

End Build.

End IndexBuilder.

(** ** [index_reader.py] *)

Module IndexReader.

Section Reader.
Context `{Collaborators}.

(** [_load_lexicon]: the records of [lexicon.jsonl] keyed by term, a
    later line replacing an earlier one with the same term. *)
Definition _load_lexicon (index_dir : IndexDir) : gmap string LexiconEntry :=
  foldl (λ lexicon entry, <[term entry := entry]> lexicon) ∅
        (lexicon_jsonl index_dir).

(** [get_num_documents]. *)
Definition get_num_documents (index_dir : IndexDir) : Z :=
  num_documents (stats_json index_dir).

(** [get_postings]: absent terms have no postings; otherwise the line
    that starts at the recorded offset is read and decoded. *)
Definition get_postings (index_dir : IndexDir) (term : string)
  : option (list Posting) :=
  match _load_lexicon index_dir !! term with
  | None => Some []
  | Some entry =>
      f ← Py.seek (postings_jsonl index_dir) (offset entry);
      let postings_json := Py.rstrip (Py.readline f) in
      json_loads postings_json
  end.

(** [get_doc_freq]. *)
Definition get_doc_freq (index_dir : IndexDir) (term : string) : Z :=
  match _load_lexicon index_dir !! term with
  | None => 0
  | Some entry => doc_freq entry
  end.

(** [get_url]. *)
Definition get_url (index_dir : IndexDir) (d : Z) : option string :=
  doc_lookup_json index_dir !! d.

(** [get_doc_length]. *)
Definition get_doc_length (index_dir : IndexDir) (d : Z) : R :=
  default 1%R (doc_lengths_json index_dir !! d).

(** [compute_idf]. *)
Definition compute_idf (index_dir : IndexDir) (term : string) : option R :=
  let doc_freq := get_doc_freq index_dir term in
  if (doc_freq =? 0)%Z then Some 0%R
  else
    let num_docs := get_num_documents index_dir in
    Py.math_log (IZR num_docs / IZR doc_freq).

End Reader.

End IndexReader.

(** ** [search_engine.py] *)

Module SearchEngine.

Import IndexReader.

(** An insertion-ordered [dict] with string keys: assigning to a key
    that is present replaces its value in place. *)
Fixpoint dict_set {V : Type} (k : string) (v : V) (d : list (string * V))
  : list (string * V) :=
  match d with
  | [] => [(k, v)]
  | (k', v') :: d' =>
      if decide (k' = k) then (k, v) :: d' else (k', v') :: dict_set k v d'
  end.

(** The set [{posting.doc_id for posting in postings}]. *)
Definition doc_ids (postings : list Posting) : gset Z :=
  list_to_set (map doc_id postings).

(** [_boolean_and]. *)
Definition _boolean_and (term_postings : list (string * list Posting)) : gset Z :=
  match term_postings with
  | [] => ∅
  | (first_term, postings) :: rest =>
      foldl (λ candidate_docs '(term, postings), candidate_docs ∩ doc_ids postings)
            (doc_ids postings) rest
  end.

(** [{posting.doc_id: posting for posting in postings}]: the last
    posting of a document is the one kept. *)
Definition posting_map (postings : list Posting) : gmap Z Posting :=
  foldl (λ m posting, <[doc_id posting := posting]> m) ∅ postings.

Section Engine.
Context `{Collaborators}.

(** [_parse_query]. *)
Definition _parse_query (query : string) : list string :=
  map stem (_tokenize query).

(** The loop of [search] that fetches the postings of each query term:
    [Some None] is the early [return []] on a term without
    postings. *)
Fixpoint fetch_postings (index_dir : IndexDir) (query_terms : list string)
         (term_postings : list (string * list Posting))
  : option (option (list (string * list Posting))) :=
  match query_terms with
  | [] => Some (Some term_postings)
  | term :: rest =>
      postings ← get_postings index_dir term;
      match postings with
      | [] => Some None
      | _ => fetch_postings index_dir rest (dict_set term postings term_postings)
      end
  end.

(** The loop of [_score_documents] that fills [term_idfs]. *)
Definition compute_idfs (index_dir : IndexDir) (query_terms : list string)
  : option (gmap string R) :=
  Py.for_each (λ term_idfs term,
                 idf ← compute_idf index_dir term;
                 Some (<[term := idf]> term_idfs))
              ∅ query_terms.

(** The body of the loop over the query terms that scores one
    document. *)
Definition score_term (index_dir : IndexDir)
           (term_posting_maps : gmap string (gmap Z Posting))
           (term_idfs : gmap string R) (d : Z) (score : R) (term : string)
  : option R :=
  posting_map ← term_posting_maps !! term;
  match posting_map !! d with
  | None => Some score
  | Some posting =>
      let doc_length := get_doc_length index_dir d in
      let normalized_tf :=
        if Py.Rltb 0 doc_length
        then (weighted_tf posting / sqrt doc_length)%R
        else weighted_tf posting in
      idf ← term_idfs !! term;
      Some (score + normalized_tf * idf)%R
  end.

(** The body of the loop over the candidate documents. *)
Definition score_document (index_dir : IndexDir)
           (term_posting_maps : gmap string (gmap Z Posting))
           (term_idfs : gmap string R) (query_terms : list string)
           (results : list SearchResult) (d : Z) : option (list SearchResult) :=
  score ← Py.for_each (score_term index_dir term_posting_maps term_idfs d)
                      0%R query_terms;
  match get_url index_dir d with
  | Some url =>
      if decide (url = ""%string) then Some results
      else Some (results ++ [{| res_doc_id := d; url := url; score := score |}])
  | None => Some results
  end.

(** [_score_documents].  Python does not specify the order in which a
    set is visited: the model visits the candidate set in the order of
    its [elements], and only the order of results with equal scores
    depends on it. *)
Definition _score_documents (index_dir : IndexDir) (candidate_docs : gset Z)
           (term_postings : list (string * list Posting))
           (query_terms : list string) : option (list SearchResult) :=
  let term_posting_maps : gmap string (gmap Z Posting) :=
    foldl (λ m '(term, postings), <[term := posting_map postings]> m)
          ∅ term_postings in
  term_idfs ← compute_idfs index_dir query_terms;
  Py.for_each (score_document index_dir term_posting_maps term_idfs query_terms)
              [] (elements candidate_docs).

(** [search]. *)
Definition search (index_dir : IndexDir) (query : string) (top_k : Z)
  : option (list SearchResult) :=
  let query_terms := _parse_query query in
  match query_terms with
  | [] => Some []
  | _ =>
      fetched ← fetch_postings index_dir query_terms [];
      match fetched with
      | None => Some []
      | Some term_postings =>
          let candidate_docs := _boolean_and term_postings in
          if decide (candidate_docs = ∅) then Some []
          else
            scored_results ←
              _score_documents index_dir candidate_docs term_postings query_terms;
            let scored_results := Py.list_sort_reverse Py.Rltb score scored_results in
            Some (Py.slice_to scored_results top_k)
      end
  end.

End Engine.

End SearchEngine.

(** ** Notions used to state the properties *)

(** The arithmetic mean of a sequence of ints. *)
Definition mean (values : list Z) : R :=
  (IZR (foldr Z.add 0%Z values) / IZR (Z.of_nat (length values)))%R.

(** [x] may come before [y] in a list sorted by [key]: the key of [y] is
    not smaller than the key of [x]. *)
Definition key_le {A K : Type} (lt : K → K → bool) (key : A → K) (x y : A) : Prop :=
  lt (key y) (key x) = false.

(** The sum of a list of floats. *)
Definition sum_list (l : list R) : R := foldr Rplus 0%R l.

(** The number of occurrences of [t] in a list of terms. *)
Definition occurrences (t : string) (l : list string) : nat :=
  length (filter (λ t', t' = t) l).

Section SearchNotions.
Context `{Collaborators}.

(** The postings of every term of the query can be read and decoded. *)
Definition readable (index_dir : IndexDir) (query_terms : list string) : Prop :=
  ∀ t, t ∈ query_terms → is_Some (IndexReader.get_postings index_dir t).

(** What the dict of fetched postings holds: for each of its terms, the
    postings that [get_postings] returns, and they are not empty. *)
Definition fetched (index_dir : IndexDir) (tp : list (string * list Posting)) : Prop :=
  ∀ t ps, (t, ps) ∈ tp → IndexReader.get_postings index_dir t = Some ps ∧ ps ≠ [].

(** [compute_idf] is defined on every term of the query. *)
Definition idf_defined (index_dir : IndexDir) (query_terms : list string) : Prop :=
  ∀ t, t ∈ query_terms → is_Some (IndexReader.compute_idf index_dir t).

(** [d] occurs in the postings of every term of the query. *)
Definition in_all_postings (index_dir : IndexDir) (query_terms : list string)
           (d : Z) : Prop :=
  ∀ t, t ∈ query_terms →
       ∃ ps, IndexReader.get_postings index_dir t = Some ps ∧ d ∈ map doc_id ps.

(** The document has a URL in [doc_lookup], and it is not empty. *)
Definition has_url (index_dir : IndexDir) (d : Z) : Prop :=
  ∃ u, IndexReader.get_url index_dir d = Some u ∧ u ≠ ""%string.

(** The tf-idf contribution of one occurrence of a query term to the
    score of a document: the normalized weighted term frequency times
    the idf, and nothing when the term has no posting for the
    document. *)
Definition contribution (index_dir : IndexDir) (t : string) (d : Z) : R :=
  match IndexReader.get_postings index_dir t, IndexReader.compute_idf index_dir t with
  | Some postings, Some idf =>
      match SearchEngine.posting_map postings !! d with
      | Some posting =>
          let doc_length := IndexReader.get_doc_length index_dir d in
          ((if Py.Rltb 0 doc_length
            then weighted_tf posting / sqrt doc_length
            else weighted_tf posting) * idf)%R
      | None => 0%R
      end
  | _, _ => 0%R
  end.
End SearchNotions.

Section Ranking.
Context `{Collaborators}.

Global Instance has_url_dec (index_dir : IndexDir) (d : Z) :
  Decision (has_url index_dir d).
Proof.
  unfold has_url. destruct (IndexReader.get_url index_dir d) as [u|].
  - destruct (decide (u = ""%string)) as [->|Hne].
    + right. by intros (u & [= <-] & Hu).
    + left. by exists u.
  - right. by intros (u & [=] & _).
Defined.

(** The result that the scoring loop builds for a candidate document
    with a URL: its score is the sum, over the terms of the query in
    order and with their repetitions, of their contributions. *)
Definition result_of (index_dir : IndexDir) (query_terms : list string) (d : Z)
  : SearchResult :=
  {| res_doc_id := d;
     url := default ""%string (IndexReader.get_url index_dir d);
     score := sum_list (map (λ t, contribution index_dir t d) query_terms) |}.

(** The ranking of a set of candidate documents: those with a URL,
    scored, sorted by decreasing score and cut by the slice [[:top_k]]. *)
Definition ranking (index_dir : IndexDir) (query_terms : list string)
           (candidate_docs : gset Z) (top_k : Z) : list SearchResult :=
  Py.slice_to
    (Py.list_sort_reverse Py.Rltb score
       (map (result_of index_dir query_terms)
            (filter (has_url index_dir) (elements candidate_docs))))
    top_k.
End Ranking.

(** ** A plain-text instance of the collaborators, and a small index *)

Module Plain.

(** Words separated by spaces. *)
Fixpoint words (cur : list ascii) (s : string) : list string :=
  match s with
  | EmptyString =>
      match cur with [] => [] | _ => [string_of_list_ascii (rev cur)] end
  | String c s' =>
      if decide (c = " "%char) then
        match cur with
        | [] => words [] s'
        | _ => string_of_list_ascii (rev cur) :: words [] s'
        end
      else words (c :: cur) s'
  end.

(** The body of the loop of [process_text] in [parser.py]:
    [stats.setdefault(stem, TokenStats())], then the three updates. *)
Fixpoint record_token (stem : string) (boost : R) (position : Z)
         (stats : list (string * TokenStats)) : list (string * TokenStats) :=
  match stats with
  | [] => [(stem, {| ts_weighted_tf := 0 + boost; ts_raw_tf := 0 + 1;
                     positions := [position] |})]
  | (k, entry) :: rest =>
      if decide (k = stem) then
        (k, {| ts_weighted_tf := ts_weighted_tf entry + boost;
               ts_raw_tf := ts_raw_tf entry + 1;
               positions := positions entry ++ [position] |}) :: rest
      else (k, entry) :: record_token stem boost position rest
  end.

(** [process_text(text, boost)] on the words of a text, without
    stemming. *)
Definition process_text (text : string) (boost : R)
           (st : list (string * TokenStats) * Z) : list (string * TokenStats) * Z :=
  foldl (λ '(stats, position) token,
           let position := (position + 1)%Z in
           (record_token token boost position stats, position))
        st (words [] text).

(** [parse] on a document that is one visible text node: every word
    counts with [BASE_WEIGHT]. *)
Definition parse_text (html : string) : list (string * TokenStats) :=
  (process_text html 1%R ([], 0%Z)).1.

(** A compact text for a postings block: an opening bracket, two
    characters for the [doc_id] and the [raw_tf] of each posting, a
    closing bracket.  The weight is read back as the raw count and the
    average position as 1. *)
Definition digit (n : Z) : ascii := ascii_of_nat (48 + Z.to_nat n).
Definition undigit (c : ascii) : Z := Z.of_nat (nat_of_ascii c - 48).

Definition dumps (postings : list Posting) : list ascii :=
  "["%char :: flat_map (λ p, [digit (doc_id p); digit (raw_tf p)]) postings
    ++ ["]"%char].

Fixpoint loads_body (s : list ascii) : option (list Posting) :=
  match s with
  | [c] => if decide (c = "]"%char) then Some [] else None
  | a :: b :: s' =>
      postings ← loads_body s';
      Some ({| doc_id := undigit a; weighted_tf := IZR (undigit b);
               raw_tf := undigit b; avg_position := 1 |} :: postings)
  | [] => None
  end.

Definition loads (s : list ascii) : option (list Posting) :=
  match s with
  | c :: body => if decide (c = "["%char) then loads_body body else None
  | [] => None
  end.

Definition collaborators : Collaborators :=
  {| parse := parse_text;
     _tokenize := words [];
     stem := λ token, token;
     json_dumps := dumps;
     json_loads := loads |}.

(** An index of three documents: "cat" occurs in all of them, "dog" in
    the first two; the third document has an empty URL. *)
Definition example_index : IndexDir :=
  {| lexicon_jsonl :=
       [ {| term := "cat"; doc_freq := 3; offset := 0; length_ := 9 |};
         {| term := "dog"; doc_freq := 2; offset := 9; length_ := 7 |} ];
     postings_jsonl :=
       list_ascii_of_string "[011221]" ++ [Py.LF]
         ++ list_ascii_of_string "[0211]" ++ [Py.LF];
     doc_lookup_json :=
       <[0%Z := "http://a"%string]> (<[1%Z := "http://b"%string]>
         (<[2%Z := ""%string]> ∅));
     doc_lengths_json := <[0%Z := 1%R]> (<[1%Z := 1%R]> (<[2%Z := 1%R]> ∅));
     stats_json := {| num_documents := 3; num_unique_terms := 2 |} |}.

(** Queries made of the term "dog" only. *)
Definition dog_query (query : string) : Prop :=
  @SearchEngine._parse_query collaborators query ≠ [] ∧
  ∀ t, t ∈ @SearchEngine._parse_query collaborators query → t = "dog"%string.

Definition cat_postings : list Posting :=
  [ {| doc_id := 0; weighted_tf := 1; raw_tf := 1; avg_position := 1 |};
    {| doc_id := 1; weighted_tf := 2; raw_tf := 2; avg_position := 1 |};
    {| doc_id := 2; weighted_tf := 1; raw_tf := 1; avg_position := 1 |} ].

Definition dog_postings : list Posting :=
  [ {| doc_id := 0; weighted_tf := 2; raw_tf := 2; avg_position := 1 |};
    {| doc_id := 1; weighted_tf := 1; raw_tf := 1; avg_position := 1 |} ].

End Plain.

(** ** The steps of [build] in closed form *)

(** The posting that [build] appends for a term of document [d]. *)
Definition posting_of (d : Z) (stats : TokenStats) : Posting :=
  {| doc_id := d;
     weighted_tf := ts_weighted_tf stats;
     raw_tf := ts_raw_tf stats;
     avg_position := IndexBuilder._average (positions stats) |}.

(** The squared log-dampened weight of a term: [(1 + ln(1 + weighted_tf))²]. *)
Definition squared_weight (stats : TokenStats) : R :=
  (1 + ln (1 + ts_weighted_tf stats))².

(** The length of a document: the sum of the squared weights of its
    terms, floored at [1e-9]. *)
Definition doc_length_of (token_stats : list (string * TokenStats)) : R :=
  Py.max (sum_list (map (λ item, squared_weight item.2) token_stats)) 1e-9.

(** [math.log] is defined on the weight of every term. *)
Definition log_defined (token_stats : list (string * TokenStats)) : Prop :=
  ∀ item, item ∈ token_stats → (0 < 1 + ts_weighted_tf item.2)%R.

(** The postings accumulator after the terms of document [d]. *)
Definition add_postings (d : Z) (token_stats : list (string * TokenStats))
           (postings : gmap string (list Posting)) : gmap string (list Posting) :=
  foldl (λ postings '(term, stats),
           <[term := default [] (postings !! term) ++ [posting_of d stats]]> postings)
        postings token_stats.

(** The state of the loop of [build] after a file that is skipped. *)
Definition skip_file (st : IndexBuilder.loop) : IndexBuilder.loop :=
  {| IndexBuilder.self := IndexBuilder.self st;
     IndexBuilder.next_doc_id := IndexBuilder.next_doc_id st;
     IndexBuilder.files_processed := IndexBuilder.files_processed st + 1;
     IndexBuilder.files_skipped := IndexBuilder.files_skipped st + 1 |}.

(** The state of the loop of [build] after a document that is indexed. *)
Definition index_document (st : IndexBuilder.loop) (url : string)
           (token_stats : list (string * TokenStats)) : IndexBuilder.loop :=
  let b := IndexBuilder.self st in
  let d := IndexBuilder.next_doc_id st in
  {| IndexBuilder.self :=
       {| IndexBuilder.doc_lookup := <[d := url]> (IndexBuilder.doc_lookup b);
          IndexBuilder.doc_lengths :=
            <[d := doc_length_of token_stats]> (IndexBuilder.doc_lengths b);
          IndexBuilder.doc_seen_urls := <[url := d]> (IndexBuilder.doc_seen_urls b);
          IndexBuilder._postings := add_postings d token_stats (IndexBuilder._postings b) |};
     IndexBuilder.next_doc_id := d + 1;
     IndexBuilder.files_processed := IndexBuilder.files_processed st + 1;
     IndexBuilder.files_skipped := IndexBuilder.files_skipped st |}.

(** The HTML of a payload: [payload.get("content", "")]. *)
Definition html_of (payload : Payload) : string :=
  default ""%string (payload_content payload).

(** [payload] is the first document with its URL in the sequence of
    files. *)
Definition first_with_url (files : list Node) (payload : Payload) : Prop :=
  ∃ before file after,
    files = before ++ file :: after ∧
    IndexBuilder._load_document file = Some payload ∧
    ∀ file' payload', file' ∈ before →
                      IndexBuilder._load_document file' = Some payload' →
                      payload_url payload' ≠ payload_url payload.

(** The URLs of the files that [_load_document] can load, in order. *)
Definition loaded_urls (files : list Node) : list string :=
  omap (λ file, IndexBuilder._load_document file ≫= payload_url) files.

(** What holds of the loop of [build] after a sequence of files. *)
Record build_invariant `{Collaborators} (files : list Node) (st : IndexBuilder.loop)
  : Prop := {
  (** the next [doc_id] is the number of documents indexed so far, *)
  inv_next :
    IndexBuilder.next_doc_id st
    = Z.of_nat (size (IndexBuilder.doc_lookup (IndexBuilder.self st)));
  (** the [doc_id]s in use are the integers below it, *)
  inv_dense : ∀ d,
    is_Some (IndexBuilder.doc_lookup (IndexBuilder.self st) !! d)
    ↔ (0 ≤ d < IndexBuilder.next_doc_id st)%Z;
  (** [doc_seen_urls] is the inverse of [doc_lookup], *)
  inv_seen : ∀ u d,
    IndexBuilder.doc_seen_urls (IndexBuilder.self st) !! u = Some d
    ↔ IndexBuilder.doc_lookup (IndexBuilder.self st) !! d = Some u;
  (** every loaded payload has a URL, and the seen URLs are theirs, *)
  inv_has_url : ∀ file payload,
    file ∈ files → IndexBuilder._load_document file = Some payload →
    is_Some (payload_url payload);
  inv_seen_dom :
    dom (IndexBuilder.doc_seen_urls (IndexBuilder.self st))
    = list_to_set (loaded_urls files);
  inv_seen_size :
    size (IndexBuilder.doc_seen_urls (IndexBuilder.self st))
    = size (IndexBuilder.doc_lookup (IndexBuilder.self st));
  (** a document of [doc_lookup] is the first payload with its URL; its
      length and its postings are computed from that payload, *)
  inv_docs : ∀ d u,
    IndexBuilder.doc_lookup (IndexBuilder.self st) !! d = Some u →
    ∃ payload,
      first_with_url files payload ∧ payload_url payload = Some u ∧
      log_defined (parse (html_of payload)) ∧
      IndexBuilder.doc_lengths (IndexBuilder.self st) !! d
        = Some (doc_length_of (parse (html_of payload))) ∧
      ∀ t stats, (t, stats) ∈ parse (html_of payload) →
                 ∃ ps, IndexBuilder._postings (IndexBuilder.self st) !! t = Some ps
                       ∧ posting_of d stats ∈ ps;
  inv_lengths : ∀ d,
    is_Some (IndexBuilder.doc_lengths (IndexBuilder.self st) !! d) →
    is_Some (IndexBuilder.doc_lookup (IndexBuilder.self st) !! d);
  (** and every posting belongs to a term of an indexed document. *)
  inv_postings : ∀ t ps p,
    IndexBuilder._postings (IndexBuilder.self st) !! t = Some ps → p ∈ ps →
    ∃ u payload stats,
      IndexBuilder.doc_lookup (IndexBuilder.self st) !! doc_id p = Some u ∧
      first_with_url files payload ∧ payload_url payload = Some u ∧
      (t, stats) ∈ parse (html_of payload) ∧ p = posting_of (doc_id p) stats;
}.

(** ** What [_write_index] writes for a term *)

Section Blocks.
Context `{Collaborators}.

(** The postings of a term, sorted by [doc_id] as [_write_index] sorts
    them. *)
Definition sorted_postings (b : IndexBuilder.t) (t : string) : list Posting :=
  Py.list_sort Z.ltb doc_id (default [] (IndexBuilder._postings b !! t)).

(** The line of [postings.jsonl] for a term. *)
Definition block_of (b : IndexBuilder.t) (t : string) : list ascii :=
  json_dumps (sorted_postings b t) ++ [Py.LF].

(** A lexicon record describes the block of its term in the text of
    [postings.jsonl]. *)
Definition entry_ok (b : IndexBuilder.t) (postings_file : list ascii)
           (e : LexiconEntry) : Prop :=
  (0 ≤ offset e)%Z ∧
  doc_freq e = Z.of_nat (length (sorted_postings b (term e))) ∧
  length_ e = Z.of_nat (length (block_of b (term e))) ∧
  ∃ rest, drop (Z.to_nat (offset e)) postings_file = block_of b (term e) ++ rest.
End Blocks.

(** ** A small corpus *)

Module Corpus.

Definition page_a : Payload :=
  {| payload_url := Some "http://a"%string;
     payload_content := Some "cat dog dog"%string |}.

(** A second document with the URL of [page_a]. *)
Definition page_a_again : Payload :=
  {| payload_url := Some "http://a"%string;
     payload_content := Some "zebra"%string |}.

Definition page_b : Payload :=
  {| payload_url := Some "http://b"%string;
     payload_content := Some "cat dog"%string |}.

Definition file_1 : Node := RegularFile "1.json" (Some page_a).
Definition file_2 : Node := RegularFile "2.JSON" (Some page_a_again).
Definition file_3 : Node := RegularFile "3.json" None.
Definition file_x : Node := RegularFile "x.json" (Some page_b).

(** Two domain folders, listed out of order, with a file that is not
    JSON by its name and one that cannot be loaded. *)
Definition corpus_root : Node :=
  Directory "DEV"
    [ Directory "b_site" [file_x];
      RegularFile "README" None;
      Directory "a_site"
        [file_1; file_2; RegularFile "notes.txt" (Some page_b); file_3] ].

Definition files : list Node := [file_1; file_2; file_3; file_x].

(** The loop of [build] after the four files: [file_1] is indexed,
    [file_2] repeats its URL, [file_3] cannot be loaded, [file_x] is
    indexed. *)
Definition final : IndexBuilder.loop :=
  index_document
    (skip_file
       (skip_file
          (index_document IndexBuilder.start "http://a" (Plain.parse_text "cat dog dog"))))
    "http://b" (Plain.parse_text "cat dog").

(** The statistics of the words of the two pages. *)
Definition cat_first : TokenStats :=
  {| ts_weighted_tf := 0 + 1; ts_raw_tf := 1; positions := [1%Z] |}.

Definition dog_twice : TokenStats :=
  {| ts_weighted_tf := 0 + 1 + 1; ts_raw_tf := 2; positions := [2%Z; 3%Z] |}.

Definition dog_second : TokenStats :=
  {| ts_weighted_tf := 0 + 1; ts_raw_tf := 1; positions := [2%Z] |}.

(** The same folder listed by the operating system in two orders. *)
Definition listing_1 : Node :=
  Directory "DEV" [Directory "a_site" [file_1; file_x]].

Definition listing_2 : Node :=
  Directory "DEV" [Directory "a_site" [file_x; file_1]].

End Corpus.

(** ** [parser.py] *)

Module DocumentParser.

(** What [BeautifulSoup] makes of a document, as far as [parse] looks at
    it: the text nodes in document order, each with the tag name of its
    parent ([None] for a node without parent), and for a tag name the
    texts [node.get_text(" ", strip=True)] of the nodes that
    [find_all] returns. *)
Record Soup := {
  strings : list (option string * string);
  find_all : string → list string;
}.

(** [IMPORTANT_WEIGHTS], in the order of the dict literal. *)
Definition IMPORTANT_WEIGHTS : list (string * R) :=
  [ ("title"%string, 4%R); ("h1"%string, 3%R); ("h2"%string, 2.5%R);
    ("h3"%string, 2%R); ("strong"%string, 1.75%R); ("b"%string, 1.75%R) ].

Definition BASE_WEIGHT : R := 1.

(** [parent_name in {"script", "style", "noscript"}]. *)
Definition hidden (parent_name : option string) : bool :=
  match parent_name with
  | Some name => bool_decide (name ∈ ["script"; "style"; "noscript"]%string)
  | None => false
  end.

Section Parser.
Context `{Collaborators}.

(** The closure [process_text(text, boost)]: its state is the dict
    [stats] and the counter [position] of [parse]. *)
Definition process_text (text : string) (boost : R)
           (st : list (string * TokenStats) * Z) : list (string * TokenStats) * Z :=
  foldl (λ '(stats, position) token,
           let stemmed := stem token in
           let position := (position + 1)%Z in
           (Plain.record_token stemmed boost position stats, position))
        st (_tokenize text).

(** The two loops of [parse]: the visible text nodes with the base
    weight, then the nodes of each important tag with its weight. *)
Definition parse_loops (soup : Soup) : list (string * TokenStats) * Z :=
  let st :=
    foldl (λ st '(parent_name, element),
             if hidden parent_name then st
             else process_text element BASE_WEIGHT st)
          ([], 0%Z) (strings soup) in
  foldl (λ st '(tag, weight),
           foldl (λ st text, process_text text weight st) st (find_all soup tag))
        st IMPORTANT_WEIGHTS.

(** [parse]: the items of the dict [stats]. *)
Definition parse (soup : Soup) : list (string * TokenStats) :=
  (parse_loops soup).1.

(** The number of tokens that [parse] has counted. *)
Definition token_count (soup : Soup) : Z := (parse_loops soup).2.

End Parser.

End DocumentParser.

(** The collaborators whose [parse] is [DocumentParser.parse] on the soup
    that [BeautifulSoup] makes of the HTML. *)
Definition with_parser (C : Collaborators)
           (BeautifulSoup : string → DocumentParser.Soup) : Collaborators :=
  {| parse := λ html, @DocumentParser.parse C (BeautifulSoup html);
     _tokenize := @_tokenize C;
     stem := @stem C;
     json_dumps := @json_dumps C;
     json_loads := @json_loads C |}.

(** What holds of the dict [stats] and of the counter [position] while
    [parse] runs. *)
Record parser_invariant (st : list (string * TokenStats) * Z) : Prop := {
  (** the keys of the dict are distinct, *)
  pi_keys : NoDup st.1.*1;
  pi_position : (0 ≤ st.2)%Z;
  (** an entry counts its positions, which are increasing and not above
      the counter; its weight is between one and four times the count, *)
  pi_entry : ∀ t s, (t, s) ∈ st.1 →
    ts_raw_tf s = Z.of_nat (length (positions s)) ∧
    positions s ≠ [] ∧
    StronglySorted Z.lt (positions s) ∧
    Forall (λ p, 1 ≤ p ≤ st.2)%Z (positions s) ∧
    (IZR (ts_raw_tf s) <= ts_weighted_tf s <= 4 * IZR (ts_raw_tf s))%R;
  (** every position up to the counter belongs to one entry. *)
  pi_cover : ∀ p, (1 ≤ p ≤ st.2)%Z → ∃ t s, (t, s) ∈ st.1 ∧ p ∈ positions s;
  pi_unique : ∀ t1 s1 t2 s2 p,
    (t1, s1) ∈ st.1 → (t2, s2) ∈ st.1 →
    p ∈ positions s1 → p ∈ positions s2 → t1 = t2;
}.

(** Two soups for the examples. *)
Module Page.

(** The soup of
    [<title>cat</title><p>cat dog</p><script>evil</script>]. *)
Definition soup : DocumentParser.Soup :=
  {| DocumentParser.strings :=
       [ (Some "title"%string, "cat"%string);
         (Some "p"%string, "cat dog"%string);
         (Some "script"%string, "evil"%string) ];
     DocumentParser.find_all :=
       λ tag, if decide (tag = "title"%string) then ["cat"%string] else [] |}.

(** What [parse] records for "cat" in it: the text of the title, the
    first word of the paragraph, and the title again with its weight. *)
Definition cat_stats : TokenStats :=
  {| ts_weighted_tf := 0 + 1 + 1 + 4; ts_raw_tf := 3;
     positions := [1%Z; 2%Z; 4%Z] |}.

(** The soup of a text without tags: one text node. *)
Definition text_soup (html : string) : DocumentParser.Soup :=
  {| DocumentParser.strings := [(Some "p"%string, html)];
     DocumentParser.find_all := λ _, [] |}.

(** The plain-text tokenizer and stemmer with the parser of
    [parser.py] on such soups. *)
Definition collaborators : Collaborators :=
  with_parser Plain.collaborators text_soup.

End Page.

(** ** Notions for the parser, the builder and the written index *)

(** The sum of the raw counts of a dict of token statistics. *)
Definition total_raw_tf (stats : list (string * TokenStats)) : Z :=
  foldr Z.add 0%Z (map (λ item, ts_raw_tf item.2) stats).

(** The postings of every term are in ascending order of [doc_id], with
    [doc_id]s below [next], and no list is empty. *)
Definition postings_ascending (b : IndexBuilder.t) (next : Z) : Prop :=
  ∀ t ps, IndexBuilder._postings b !! t = Some ps →
    ps ≠ [] ∧
    StronglySorted (λ p q, doc_id p ≤ doc_id q)%Z ps ∧
    Forall (λ p, 0 ≤ doc_id p < next)%Z ps.

(** The same with strictly increasing [doc_id]s: a document has at most
    one posting for a term. *)
Definition postings_increasing (b : IndexBuilder.t) (next : Z) : Prop :=
  ∀ t ps, IndexBuilder._postings b !! t = Some ps →
    StronglySorted (λ p q, doc_id p < doc_id q)%Z ps ∧
    Forall (λ p, 0 ≤ doc_id p < next)%Z ps.

(** The keys of the dict that [parse] returns are distinct. *)
Definition parse_keys_distinct `{Collaborators} : Prop :=
  ∀ html, NoDup (parse html).*1.

(** The postings that a document adds for a term: one for each item of
    [token_stats] whose key is the term. *)
Definition new_postings (d : Z) (token_stats : list (string * TokenStats))
           (t : string) : list Posting :=
  map (λ item, posting_of d item.2) (filter (λ item, item.1 = t) token_stats).

(** The blocks that the records of a lexicon describe lie one after the
    other from the position [start]: the offset of a record is where the
    block of the record before it ends, and no block is empty. *)
Fixpoint tiled (start : Z) (lexicon : list LexiconEntry) : Prop :=
  match lexicon with
  | [] => True
  | e :: rest =>
      offset e = start ∧ (0 < length_ e)%Z ∧ tiled (start + length_ e) rest
  end.

(** The sum of the lengths that a lexicon records. *)
Definition blocks_length (lexicon : list LexiconEntry) : Z :=
  foldr Z.add 0%Z (map length_ lexicon).

Section EndToEndNotions.
Context `{Collaborators}.

(** The JSON text of the block of a term is one line that [json.loads]
    decodes back. *)
Definition block_readable (b : IndexBuilder.t) (t : string) : Prop :=
  (∀ c, c ∈ json_dumps (sorted_postings b t) → Py.is_newline c = false) ∧
  json_loads (json_dumps (sorted_postings b t)) = Some (sorted_postings b t).

(** The document of a payload has every term of the query. *)
Definition contains_all (payload : Payload) (query_terms : list string) : Prop :=
  ∀ t, t ∈ query_terms → t ∈ (parse (html_of payload)).*1.

End EndToEndNotions.

(** Variants of the example corpus: a folder with a file whose payload
    has no URL, and the example corpus with its root listed in the
    reverse order. *)
Module Variants.

(** A payload without the key ["url"]. *)
Definition page_without_url : Payload :=
  {| payload_url := None; payload_content := Some "cat"%string |}.

Definition file_bad : Node := RegularFile "9.json" (Some page_without_url).

Definition bad_root : Node :=
  Directory "DEV" [Directory "a_site" [Corpus.file_1; file_bad]].

Definition relisted_root : Node :=
  Directory "DEV" (rev (IndexBuilder.iterdir Corpus.corpus_root)).

(** An index directory with nothing in it. *)
Definition empty_index : IndexDir :=
  {| lexicon_jsonl := []; postings_jsonl := []; doc_lookup_json := ∅;
     doc_lengths_json := ∅;
     stats_json := {| num_documents := 0; num_unique_terms := 0 |} |}.

End Variants.

(** ** [index_reader.py], with the caches of the reader *)

Module CachedReader.

(** The fields of an [IndexReader] that its methods assign: the four
    caches, [None] until the first load. *)
Record t := {
  _lexicon_cache : option (gmap string LexiconEntry);
  _doc_lookup : option (gmap Z string);
  _doc_lengths : option (gmap Z R);
  _num_documents : option Z;
}.

(** The reader after [__init__]. *)
Definition init : t :=
  {| _lexicon_cache := None; _doc_lookup := None; _doc_lengths := None;
     _num_documents := None |}.

Section Reader.
Context `{Collaborators}.

(** Every method takes the index directory as it is on disk at the time
    of the call, and returns its result with the reader after the call. *)

Definition _load_lexicon (disk : IndexDir) (self : t)
  : gmap string LexiconEntry * t :=
  match _lexicon_cache self with
  | Some lexicon => (lexicon, self)
  | None =>
      let lexicon := IndexReader._load_lexicon disk in
      (lexicon, {| _lexicon_cache := Some lexicon;
                   _doc_lookup := _doc_lookup self;
                   _doc_lengths := _doc_lengths self;
                   _num_documents := _num_documents self |})
  end.

Definition _load_doc_lookup (disk : IndexDir) (self : t) : gmap Z string * t :=
  match _doc_lookup self with
  | Some doc_lookup => (doc_lookup, self)
  | None =>
      (doc_lookup_json disk,
       {| _lexicon_cache := _lexicon_cache self;
          _doc_lookup := Some (doc_lookup_json disk);
          _doc_lengths := _doc_lengths self;
          _num_documents := _num_documents self |})
  end.

Definition _load_doc_lengths (disk : IndexDir) (self : t) : gmap Z R * t :=
  match _doc_lengths self with
  | Some doc_lengths => (doc_lengths, self)
  | None =>
      (doc_lengths_json disk,
       {| _lexicon_cache := _lexicon_cache self;
          _doc_lookup := _doc_lookup self;
          _doc_lengths := Some (doc_lengths_json disk);
          _num_documents := _num_documents self |})
  end.

Definition get_num_documents (disk : IndexDir) (self : t) : Z * t :=
  match _num_documents self with
  | Some n => (n, self)
  | None =>
      (num_documents (stats_json disk),
       {| _lexicon_cache := _lexicon_cache self;
          _doc_lookup := _doc_lookup self;
          _doc_lengths := _doc_lengths self;
          _num_documents := Some (num_documents (stats_json disk)) |})
  end.

(** [get_postings]: the postings file is opened at every call. *)
Definition get_postings (disk : IndexDir) (self : t) (term : string)
  : option (list Posting) * t :=
  let '(lexicon, self) := _load_lexicon disk self in
  match lexicon !! term with
  | None => (Some [], self)
  | Some entry =>
      (f ← Py.seek (postings_jsonl disk) (offset entry);
       json_loads (Py.rstrip (Py.readline f)),
       self)
  end.

Definition get_doc_freq (disk : IndexDir) (self : t) (term : string) : Z * t :=
  let '(lexicon, self) := _load_lexicon disk self in
  match lexicon !! term with
  | None => (0%Z, self)
  | Some entry => (doc_freq entry, self)
  end.

Definition get_url (disk : IndexDir) (self : t) (d : Z) : option string * t :=
  let '(doc_lookup, self) := _load_doc_lookup disk self in
  (doc_lookup !! d, self).

Definition get_doc_length (disk : IndexDir) (self : t) (d : Z) : R * t :=
  let '(doc_lengths, self) := _load_doc_lengths disk self in
  (default 1%R (doc_lengths !! d), self).

Definition compute_idf (disk : IndexDir) (self : t) (term : string)
  : option R * t :=
  let '(doc_freq, self) := get_doc_freq disk self term in
  if (doc_freq =? 0)%Z then (Some 0%R, self)
  else
    let '(num_docs, self) := get_num_documents disk self in
    (Py.math_log (IZR num_docs / IZR doc_freq), self).

End Reader.

(** Every cache that is filled holds what the index directory holds. *)
Definition coherent (disk : IndexDir) (self : t) : Prop :=
  (∀ lexicon, _lexicon_cache self = Some lexicon →
              lexicon = IndexReader._load_lexicon disk) ∧
  (∀ doc_lookup, _doc_lookup self = Some doc_lookup →
                 doc_lookup = doc_lookup_json disk) ∧
  (∀ doc_lengths, _doc_lengths self = Some doc_lengths →
                  doc_lengths = doc_lengths_json disk) ∧
  (∀ n, _num_documents self = Some n → n = num_documents (stats_json disk)).

End CachedReader.

(** ** [search.py]: the interactive loop *)

Module SearchCli.

(** What [input()] gives: a line, or Ctrl-C; after the last input it
    raises [EOFError]. *)
Inductive Input :=
| Line (text : string)
| KeyboardInterrupt.

(** What the loop prints, without the texts. *)
Inductive Output :=
| Searching (query : string)
| NoResults
| Found (results : list SearchResult)
| Error
| Goodbye.

Section Loop.
Context `{Collaborators}.
(** [str.strip] and [str.lower]. *)
Context (strip lower : string → string).

(** [query.lower() in ("quit", "exit", "q")]. *)
Definition quits (query : string) : Prop :=
  lower query ∈ ["quit"; "exit"; "q"]%string.

(** What one pass of the loop prints for a query that is searched.  The
    engine reads the index directory at every call: the caches of its
    reader change nothing while the directory is unchanged. *)
Definition report (index_dir : IndexDir) (top_k : Z) (query : string)
  : list Output :=
  match SearchEngine.search index_dir query top_k with
  | Some [] => [Searching query; NoResults]
  | Some results => [Searching query; Found results]
  | None => [Searching query; Error]
  end.

(** [interactive_mode]: the [while True] loop, run for at most [fuel]
    passes; [None] when the loop is still running after them, the
    printed outputs when it has left through [break]. *)
Fixpoint interactive_mode (fuel : nat) (index_dir : IndexDir) (top_k : Z)
         (stdin : list Input) (printed : list Output) : option (list Output) :=
  match fuel with
  | O => None
  | S fuel =>
      match stdin with
      | [] =>
          (* [input()] raises [EOFError], which [except Exception] catches *)
          interactive_mode fuel index_dir top_k [] (printed ++ [Error])
      | KeyboardInterrupt :: _ => Some (printed ++ [Goodbye])
      | Line text :: stdin =>
          let query := strip text in
          if decide (query = ""%string) then
            interactive_mode fuel index_dir top_k stdin printed
          else if decide (quits query) then Some (printed ++ [Goodbye])
          else
            interactive_mode fuel index_dir top_k stdin
                             (printed ++ report index_dir top_k query)
      end
  end.

(** The line is read and the loop goes on: it is blank or a query, not
    a word that quits. *)
Definition goes_on (input : Input) : Prop :=
  match input with
  | Line text => strip text = ""%string ∨ ¬ quits (strip text)
  | KeyboardInterrupt => False
  end.

(** What the loop prints for a sequence of lines on which it goes on. *)
Definition reports (index_dir : IndexDir) (top_k : Z) (stdin : list Input)
  : list Output :=
  flat_map (λ input,
              match input with
              | Line text =>
                  if decide (strip text = ""%string) then []
                  else report index_dir top_k (strip text)
              | KeyboardInterrupt => []
              end) stdin.

(** The input ends the loop: Ctrl-C, or a word that quits. *)
Definition ends (input : Input) : Prop :=
  match input with
  | Line text => strip text ≠ ""%string ∧ quits (strip text)
  | KeyboardInterrupt => True
  end.

End Loop.

End SearchCli.


(** * Properties of the Python primitives *)

Section ForEach.
Context {S A : Type} (body : S → A → option S).

Lemma for_each_app (s : S) (l1 l2 : list A) :
  Py.for_each body s (l1 ++ l2) = s' ← Py.for_each body s l1; Py.for_each body s' l2.
Proof.
  revert s. induction l1 as [|x l1 IH]; intros s; simpl; [done|].
  destruct (body s x) as [s'|]; simpl; [apply IH | done].
Qed.

Lemma for_each_snoc (s : S) (l : list A) (x : A) :
  Py.for_each body s (l ++ [x]) = s' ← Py.for_each body s l; body s' x.
Proof.
  rewrite for_each_app. destruct (Py.for_each body s l) as [s'|]; simpl; [|done].
  by destruct (body s' x).
Qed.

End ForEach.

Lemma Rltb_true (x y : R) : (x < y)%R → Py.Rltb x y = true.
Proof. intros Hlt. unfold Py.Rltb. by destruct (Rlt_dec x y). Qed.

Lemma Rltb_false (x y : R) : (y <= x)%R → Py.Rltb x y = false.
Proof. intros Hle. unfold Py.Rltb. destruct (Rlt_dec x y); [lra|done]. Qed.

Lemma Rltb_spec (x y : R) : Py.Rltb x y = true ↔ (x < y)%R.
Proof. unfold Py.Rltb. destruct (Rlt_dec x y); split; (done || lra). Qed.

Lemma max_ge_r (a b : R) : (b <= Py.max a b)%R.
Proof. unfold Py.max, Py.Rltb. destruct (Rlt_dec a b); lra. Qed.

Lemma math_log_Some (x y : R) :
  Py.math_log x = Some y ↔ (0 < x)%R ∧ y = ln x.
Proof.
  unfold Py.math_log, Py.Rltb.
  destruct (Rlt_dec 0 x) as [Hx|Hx]; split.
  - by intros [= <-].
  - by intros [_ ->].
  - done.
  - by intros [? _].
Qed.

Section SortFacts.
Context {A K : Type} (lt : K → K → bool) (key : A → K).

Lemma insort_Permutation (x : A) (l : list A) : Py.insort lt key x l ≡ₚ x :: l.
Proof.
  induction l as [|y l IH]; simpl; [done|].
  destruct (lt (key y) (key x)); [|done].
  rewrite IH. apply Permutation_swap.
Qed.

Lemma list_sort_Permutation (l : list A) : Py.list_sort lt key l ≡ₚ l.
Proof.
  induction l as [|x l IH]; simpl; [done|].
  by rewrite insort_Permutation, IH.
Qed.

Lemma list_sort_reverse_Permutation (l : list A) :
  Py.list_sort_reverse lt key l ≡ₚ l.
Proof.
  unfold Py.list_sort_reverse.
  by rewrite <-Permutation_rev, list_sort_Permutation, <-Permutation_rev.
Qed.

(** [lt] is a strict weak order on the keys. *)
Hypothesis lt_asym : ∀ a b, lt a b = true → lt b a = false.
Hypothesis ge_trans : ∀ a b c, lt a b = false → lt b c = false → lt a c = false.

Lemma insort_StronglySorted (x : A) (l : list A) :
  StronglySorted (key_le lt key) l → StronglySorted (key_le lt key) (Py.insort lt key x l).
Proof.
  induction l as [|y l IH]; intros Hs; simpl.
  - by repeat constructor.
  - apply StronglySorted_inv in Hs as [Hl Hy].
    destruct (lt (key y) (key x)) eqn:Hyx.
    + constructor; [by apply IH|].
      rewrite Forall_forall. intros z Hz.
      rewrite insort_Permutation in Hz.
      apply elem_of_cons in Hz as [->|Hz].
      * by apply lt_asym.
      * rewrite Forall_forall in Hy. by apply Hy.
    + constructor; [by constructor|].
      constructor; [done|].
      rewrite Forall_forall in Hy |- *. intros z Hz.
      unfold key_le. eapply ge_trans; [apply (Hy z Hz)|done].
Qed.

Lemma list_sort_StronglySorted (l : list A) :
  StronglySorted (key_le lt key) (Py.list_sort lt key l).
Proof.
  induction l as [|x l IH]; simpl; [constructor|].
  by apply insort_StronglySorted.
Qed.
End SortFacts.

Lemma StronglySorted_rev {A : Type} (R : relation A) (l : list A) :
  StronglySorted R l → StronglySorted (flip R) (rev l).
Proof.
  induction 1 as [|x l Hl IH Hx]; simpl; [constructor|].
  apply StronglySorted_app_2; [|done|by repeat constructor].
  intros a b Ha Hb. apply list_elem_of_In, in_rev, list_elem_of_In in Ha.
  apply list_elem_of_singleton in Hb as ->.
  rewrite Forall_forall in Hx. by apply Hx.
Qed.

Lemma StronglySorted_take {A : Type} (R : relation A) (n : nat) (l : list A) :
  StronglySorted R l → StronglySorted R (take n l).
Proof.
  intros Hs. rewrite <-(take_drop n l) in Hs.
  by apply StronglySorted_app_1_l in Hs.
Qed.

Lemma StronglySorted_impl {A : Type} (R1 R2 : relation A) (l : list A) :
  (∀ a b, R1 a b → R2 a b) → StronglySorted R1 l → StronglySorted R2 l.
Proof.
  intros Himpl. induction 1 as [|a l _ IH Ha]; constructor; [done|].
  eapply Forall_impl; [exact Ha|]. intros b. apply Himpl.
Qed.

(** Sorting with [reverse=True] on float keys leaves the keys in
    non-increasing order. *)
Lemma list_sort_reverse_sorted {A : Type} (key : A → R) (l : list A) :
  StronglySorted (λ a b, (key b <= key a)%R) (Py.list_sort_reverse Py.Rltb key l).
Proof.
  unfold Py.list_sort_reverse.
  assert (Hs : StronglySorted (key_le Py.Rltb key) (Py.list_sort Py.Rltb key (rev l))).
  { apply list_sort_StronglySorted.
    - intros a b Hab. apply Rltb_spec in Hab. apply Rltb_false. lra.
    - intros a b c Hab Hbc. apply Rltb_false.
      unfold Py.Rltb in *. destruct (Rlt_dec a b), (Rlt_dec b c); try done. lra. }
  apply StronglySorted_rev in Hs.
  eapply StronglySorted_impl; [|exact Hs].
  intros a b Hab. unfold flip, key_le, Py.Rltb in Hab.
  destruct (Rlt_dec (key a) (key b)); [done|lra].
Qed.

Lemma slice_to_length {A : Type} (l : list A) (k : Z) :
  length (Py.slice_to l k)
  = if (0 <=? k)%Z then Nat.min (Z.to_nat k) (length l)
    else Z.to_nat (Z.of_nat (length l) + k).
Proof.
  unfold Py.slice_to. destruct (0 <=? k)%Z eqn:Hk; rewrite length_take; [done|].
  apply Z.leb_gt in Hk. lia.
Qed.

Lemma slice_to_take {A : Type} (l : list A) (k : Z) :
  ∃ n, Py.slice_to l k = take n l.
Proof. unfold Py.slice_to. destruct (0 <=? k)%Z; eauto. Qed.

Lemma elem_of_slice_to {A : Type} (l : list A) (k : Z) (x : A) :
  x ∈ Py.slice_to l k → x ∈ l.
Proof.
  destruct (slice_to_take l k) as [n ->]. intros Hx.
  rewrite <-(take_drop n l). apply elem_of_app. by left.
Qed.

(** ** Text files *)

Lemma readline_block (s rest : list ascii) :
  (∀ c, c ∈ s → Py.is_newline c = false) →
  Py.readline (s ++ Py.LF :: rest) = s ++ [Py.LF].
Proof.
  induction s as [|c s IH]; intros Hs; simpl.
  - done.
  - rewrite (Hs c) by left. f_equal. apply IH. intros c' Hc'. apply Hs. by right.
Qed.

Lemma rstrip_block (s : list ascii) :
  (∀ c, c ∈ s → Py.is_newline c = false) → Py.rstrip (s ++ [Py.LF]) = s.
Proof.
  induction s as [|c s IH]; intros Hs; simpl.
  - done.
  - rewrite IH by (intros c' Hc'; apply Hs; by right).
    destruct s as [|c' s]; [|done]. by rewrite (Hs c) by left.
Qed.

(** ** The order of strings *)

Section StringOrder.

Lemma ascii_compare_lt (a b : ascii) :
  Ascii.compare a b = Lt ↔ (N_of_ascii a < N_of_ascii b)%N.
Proof. unfold Ascii.compare. by rewrite N.compare_lt_iff. Qed.

Lemma string_compare_lt_trans (s1 s2 s3 : string) :
  String.compare s1 s2 = Lt → String.compare s2 s3 = Lt → String.compare s1 s3 = Lt.
Proof.
  revert s2 s3. induction s1 as [|a s1 IH]; intros [|b s2] [|c s3]; simpl; try done.
  destruct (Ascii.compare a b) eqn:Hab; [| |done].
  - apply Ascii.compare_eq_iff in Hab as ->.
    destruct (Ascii.compare b c); [apply IH|done..].
  - intros _. destruct (Ascii.compare b c) eqn:Hbc; [| |done]; intros _.
    + apply Ascii.compare_eq_iff in Hbc as <-. by rewrite Hab.
    + apply ascii_compare_lt in Hab. apply ascii_compare_lt in Hbc.
      assert (Ascii.compare a c = Lt) as ->; [|done].
      apply ascii_compare_lt. by eapply N.lt_trans.
Qed.

Lemma string_ltb_asym (s1 s2 : string) :
  String.ltb s1 s2 = true → String.ltb s2 s1 = false.
Proof.
  unfold String.ltb. rewrite (String.compare_antisym s2 s1).
  by destruct (String.compare s1 s2).
Qed.

Lemma string_ltb_ge_trans (s1 s2 s3 : string) :
  String.ltb s1 s2 = false → String.ltb s2 s3 = false → String.ltb s1 s3 = false.
Proof.
  unfold String.ltb. intros H12 H23.
  destruct (String.compare s1 s3) eqn:H13; [done| |done]. exfalso.
  destruct (String.compare s1 s2) eqn:H12'; [|done|].
  - apply String.compare_eq_iff in H12' as ->. by rewrite H13 in H23.
  - destruct (String.compare s2 s3) eqn:H23'; [|done|].
    + apply String.compare_eq_iff in H23' as ->. congruence.
    + rewrite String.compare_antisym in H12', H23'.
      assert (String.compare s3 s1 = Lt) as H31.
      { apply (string_compare_lt_trans s3 s2 s1).
        - by destruct (String.compare s3 s2).
        - by destruct (String.compare s2 s1). }
      rewrite String.compare_antisym, H31 in H13. done.
Qed.

Lemma string_ltb_eq (s1 s2 : string) :
  String.ltb s1 s2 = false → String.ltb s2 s1 = false → s1 = s2.
Proof.
  unfold String.ltb. rewrite (String.compare_antisym s2 s1).
  destruct (String.compare s1 s2) eqn:H12; [|done..].
  intros _ _. by apply String.compare_eq_iff.
Qed.

End StringOrder.

Lemma NoDup_fmap_eq {A B : Type} (f : A → B) (l : list A) (x y : A) :
  NoDup (map f l) → x ∈ l → y ∈ l → f x = f y → x = y.
Proof.
  induction l as [|z l IH]; intros Hnodup Hx Hy Heq; [inv Hx|].
  simpl in Hnodup. apply NoDup_cons in Hnodup as [Hz Hnodup].
  apply elem_of_cons in Hx as [->|Hx], Hy as [->|Hy]; [done| | |by apply IH].
  - exfalso. apply Hz. rewrite Heq. apply list_elem_of_fmap. by exists y.
  - exfalso. apply Hz. rewrite <-Heq. apply list_elem_of_fmap. by exists x.
Qed.

(** Sorting by distinct string keys forgets the order of the input. *)
Lemma list_sort_by_name {A : Type} (key : A → string) (l1 l2 : list A) :
  l1 ≡ₚ l2 → NoDup (map key l1) →
  Py.list_sort String.ltb key l1 = Py.list_sort String.ltb key l2.
Proof.
  intros Hperm Hnodup.
  apply (StronglySorted_unique_strong (key_le String.ltb key)).
  - intros x1 x2 Hx1 Hx2 H12 H21.
    rewrite list_sort_Permutation in Hx1. rewrite list_sort_Permutation, <-Hperm in Hx2.
    apply (NoDup_fmap_eq key l1); [done..|]. by apply string_ltb_eq.
  - apply list_sort_StronglySorted; [apply string_ltb_asym|apply string_ltb_ge_trans].
  - apply list_sort_StronglySorted; [apply string_ltb_asym|apply string_ltb_ge_trans].
  - by rewrite !list_sort_Permutation.
Qed.

(** * The index builder *)

Section Builder.
Context `{Collaborators}.
Import IndexBuilder.

(** ** [_average] *)

Lemma average_loop (values : list Z) (total : R) (count : Z) :
  foldl (λ '(total, count) value, ((total + IZR value)%R, (count + 1)%Z))
        (total, count) values
  = ((total + IZR (foldr Z.add 0%Z values))%R, (count + Z.of_nat (length values))%Z).
Proof.
  revert total count.
  induction values as [|v values IH]; intros total count; simpl.
  - f_equal; [lra | lia].
  - rewrite IH. f_equal; [rewrite plus_IZR; lra | lia].
Qed.

Lemma average_mean (values : list Z) :
  values ≠ [] → IndexBuilder._average values = mean values.
Proof.
  intros Hne. unfold IndexBuilder._average, mean.
  rewrite average_loop. rewrite Rplus_0_l.
  destruct values as [|v values]; [done|].
  do 2 f_equal. simpl length. lia.
Qed.

Lemma average_empty : IndexBuilder._average [] = 0%R.
Proof. unfold IndexBuilder._average. simpl. lra. Qed.

(** ** [_iter_corpus_files] *)

(** The part of the reproducible order that the code does establish: the
    order in which the operating system lists the domain folders of the
    corpus root does not matter, as the folders are sorted by name. *)
Lemma iter_corpus_files_root_order (name : string) (listing1 listing2 : list Node) :
  listing1 ≡ₚ listing2 →
  NoDup (map node_name (filter (λ item, is_dir item = true) listing1)) →
  _iter_corpus_files (Directory name listing1)
  = _iter_corpus_files (Directory name listing2).
Proof.
  intros Hperm Hnodup. unfold _iter_corpus_files. simpl.
  rewrite (list_sort_by_name node_name _ (filter (λ item, is_dir item = true) listing2));
    [done| |done].
  by rewrite Hperm.
Qed.

(** ** The steps of [build] *)

Lemma add_term_eq (d : Z) (postings : gmap string (list Posting)) (len : R)
      (t : string) (stats : TokenStats) :
  (0 < 1 + ts_weighted_tf stats)%R →
  add_term d (postings, len) (t, stats)
  = Some (<[t := default [] (postings !! t) ++ [posting_of d stats]]> postings,
          (len + squared_weight stats)%R).
Proof.
  intros Hpos. unfold add_term.
  rewrite (proj2 (math_log_Some _ _) (conj Hpos eq_refl)). simpl.
  by unfold squared_weight, Rsqr.
Qed.

Lemma add_term_Some (d : Z) (acc acc' : gmap string (list Posting) * R)
      (item : string * TokenStats) :
  add_term d acc item = Some acc' → (0 < 1 + ts_weighted_tf item.2)%R.
Proof.
  destruct acc as [postings len], item as [t stats]. unfold add_term. simpl.
  destruct (Py.math_log (1 + ts_weighted_tf stats)) as [l|] eqn:Hlog; [|done].
  intros _. by apply math_log_Some in Hlog as [? _].
Qed.

(** The loop over the terms of a document. *)
Lemma add_terms_eq (d : Z) (token_stats : list (string * TokenStats))
      (postings : gmap string (list Posting)) (len : R) :
  log_defined token_stats →
  Py.for_each (add_term d) (postings, len) token_stats
  = Some (add_postings d token_stats postings,
          (len + sum_list (map (λ item, squared_weight item.2) token_stats))%R).
Proof.
  revert postings len.
  induction token_stats as [|[t stats] items IH]; intros postings len Hdef.
  - simpl. do 2 f_equal. lra.
  - change (Py.for_each ?f (postings, len) ((t, stats) :: items))
      with (s' ← f (postings, len) (t, stats); Py.for_each f s' items).
    rewrite add_term_eq by (apply (Hdef (t, stats)); by left). simpl.
    rewrite IH by (intros item Hitem; apply Hdef; by right).
    do 2 f_equal. lra.
Qed.

Lemma add_terms_Some (d : Z) (token_stats : list (string * TokenStats))
      (acc acc' : gmap string (list Posting) * R) :
  Py.for_each (add_term d) acc token_stats = Some acc' → log_defined token_stats.
Proof.
  revert acc. induction token_stats as [|item items IH]; intros acc Hrun.
  - intros item Hitem. inv Hitem.
  - simpl in Hrun. destruct (add_term d acc item) as [acc1|] eqn:Hstep; [|done].
    simpl in Hrun. intros item' [->|Hitem]%elem_of_cons.
    + by eapply add_term_Some.
    + by eapply IH.
Qed.

Lemma build_step_unreadable (st : loop) (file_path : Node) :
  _load_document file_path = None → build_step st file_path = Some (skip_file st).
Proof. intros Hload. unfold build_step. by rewrite Hload. Qed.

Lemma build_step_duplicate (st : loop) (file_path : Node) (payload : Payload)
      (u : string) :
  _load_document file_path = Some payload →
  payload_url payload = Some u →
  is_Some (doc_seen_urls (self st) !! u) →
  build_step st file_path = Some (skip_file st).
Proof.
  intros Hload Hurl Hseen. unfold build_step. rewrite Hload, Hurl. simpl.
  by rewrite decide_True.
Qed.

Lemma build_step_new (st : loop) (file_path : Node) (payload : Payload) (u : string) :
  _load_document file_path = Some payload →
  payload_url payload = Some u →
  doc_seen_urls (self st) !! u = None →
  log_defined (parse (html_of payload)) →
  build_step st file_path
  = Some (index_document st u (parse (html_of payload))).
Proof.
  intros Hload Hurl Hseen Hdef. unfold build_step. rewrite Hload, Hurl. simpl.
  rewrite decide_False by (rewrite Hseen; by intros [? ?]).
  fold (html_of payload). rewrite add_terms_eq by done. simpl.
  unfold index_document, doc_length_of. by rewrite Rplus_0_l.
Qed.

(** The three ways in which a step of [build] succeeds. *)
Lemma build_step_inv (st st' : loop) (file_path : Node) :
  build_step st file_path = Some st' →
  (_load_document file_path = None ∧ st' = skip_file st) ∨
  (∃ payload u,
     _load_document file_path = Some payload ∧ payload_url payload = Some u ∧
     is_Some (doc_seen_urls (self st) !! u) ∧ st' = skip_file st) ∨
  (∃ payload u,
     _load_document file_path = Some payload ∧ payload_url payload = Some u ∧
     doc_seen_urls (self st) !! u = None ∧
     log_defined (parse (html_of payload)) ∧
     st' = index_document st u (parse (html_of payload))).
Proof.
  intros Hstep.
  destruct (_load_document file_path) as [payload|] eqn:Hload.
  - destruct (payload_url payload) as [u|] eqn:Hurl.
    + destruct (doc_seen_urls (self st) !! u) as [d|] eqn:Hseen.
      * right; left. exists payload, u.
        rewrite (build_step_duplicate st _ payload u) in Hstep
          by (done || by rewrite Hseen).
        by simplify_eq.
      * right; right. exists payload, u.
        assert (log_defined (parse (html_of payload))) as Hdef.
        { unfold build_step in Hstep. rewrite Hload, Hurl in Hstep. simpl in Hstep.
          rewrite decide_False in Hstep by (rewrite Hseen; by intros [? ?]).
          fold (html_of payload) in Hstep.
          destruct (Py.for_each (add_term (next_doc_id st)) (_postings (self st), 0%R)
                      (parse (html_of payload))) as [acc|] eqn:Hrun; [|done].
          by eapply add_terms_Some. }
        rewrite (build_step_new st _ payload u) in Hstep by done.
        by simplify_eq.
    + unfold build_step in Hstep. by rewrite Hload, Hurl in Hstep.
  - left. rewrite build_step_unreadable in Hstep by done. by simplify_eq.
Qed.

Lemma build_loop_snoc (files : list Node) (file_path : Node) :
  build_loop (files ++ [file_path])
  = st ← build_loop files; build_step st file_path.
Proof. apply for_each_snoc. Qed.

(** [build] runs the loop over the corpus files and writes the index. *)
Lemma build_Some (corpus_root : Node) (st : loop) :
  build_loop (_iter_corpus_files corpus_root) = Some st →
  build corpus_root = Some (write (self st)).
Proof. intros Hrun. unfold build. by rewrite Hrun. Qed.

End Builder.

(** ** The postings accumulator *)

Section AddPostings.
Implicit Types (postings : gmap string (list Posting)).
Implicit Types (token_stats : list (string * TokenStats)).

Lemma add_postings_snoc (d : Z) token_stats (t : string) (stats : TokenStats) postings :
  add_postings d (token_stats ++ [(t, stats)]) postings
  = <[t := default [] (add_postings d token_stats postings !! t)
             ++ [posting_of d stats]]> (add_postings d token_stats postings).
Proof. unfold add_postings. by rewrite foldl_app. Qed.

(** A posting of the accumulator was there before or belongs to a term of
    the document. *)
Lemma add_postings_inv (d : Z) token_stats postings (t : string)
      (ps : list Posting) (p : Posting) :
  add_postings d token_stats postings !! t = Some ps → p ∈ ps →
  (∃ ps0, postings !! t = Some ps0 ∧ p ∈ ps0) ∨
  (∃ stats, (t, stats) ∈ token_stats ∧ p = posting_of d stats).
Proof.
  revert ps. induction token_stats as [|[t0 stats0] items IH] using rev_ind;
    intros ps Hps Hp.
  - left. by exists ps.
  - rewrite add_postings_snoc in Hps.
    destruct (decide (t0 = t)) as [->|Hne].
    + rewrite lookup_insert_eq in Hps. simplify_eq.
      apply elem_of_app in Hp as [Hp|Hp%list_elem_of_singleton]; [|subst p].
      * destruct (add_postings d items postings !! t) as [ps1|] eqn:Hps1;
          [|by inv Hp].
        destruct (IH ps1 eq_refl Hp) as [?|(stats & Hin & ->)]; [by left|].
        right. exists stats. split; [|done]. apply elem_of_app. by left.
      * right. exists stats0. split; [|done]. apply elem_of_app. right. by left.
    + rewrite lookup_insert_ne in Hps by done.
      destruct (IH ps Hps Hp) as [?|(stats & Hin & ->)]; [by left|].
      right. exists stats. split; [|done]. apply elem_of_app. by left.
Qed.

(** The accumulator keeps its postings. *)
Lemma add_postings_mono (d : Z) token_stats postings (t : string)
      (ps0 : list Posting) :
  postings !! t = Some ps0 →
  ∃ ps, add_postings d token_stats postings !! t = Some ps ∧ ∀ p, p ∈ ps0 → p ∈ ps.
Proof.
  intros Hps0. induction token_stats as [|[t0 stats0] items IH] using rev_ind.
  - by exists ps0.
  - destruct IH as (ps & Hps & Hsub). rewrite add_postings_snoc.
    destruct (decide (t0 = t)) as [->|Hne].
    + rewrite lookup_insert_eq, Hps. simpl. eexists. split; [done|].
      intros p Hp. apply elem_of_app. left. by apply Hsub.
    + rewrite lookup_insert_ne by done. by exists ps.
Qed.

(** Every term of the document gets its posting. *)
Lemma add_postings_new (d : Z) token_stats postings (t : string) (stats : TokenStats) :
  (t, stats) ∈ token_stats →
  ∃ ps, add_postings d token_stats postings !! t = Some ps ∧ posting_of d stats ∈ ps.
Proof.
  induction token_stats as [|[t0 stats0] items IH] using rev_ind; intros Hin.
  - inv Hin.
  - rewrite add_postings_snoc.
    apply elem_of_app in Hin as [Hin|Hin%list_elem_of_singleton]; [|simplify_eq].
    + destruct (IH Hin) as (ps & Hps & Hp).
      destruct (decide (t0 = t)) as [->|Hne].
      * rewrite lookup_insert_eq, Hps. simpl. eexists. split; [done|].
        apply elem_of_app. by left.
      * rewrite lookup_insert_ne by done. by exists ps.
    + rewrite lookup_insert_eq. eexists. split; [done|].
      apply elem_of_app. right. by left.
Qed.
End AddPostings.

Lemma first_with_url_snoc (files : list Node) (file : Node) (payload : Payload) :
  first_with_url files payload → first_with_url (files ++ [file]) payload.
Proof.
  intros (before & f & after & -> & Hload & Hfirst).
  exists before, f, (after ++ [file]). split_and!; [|done..].
  by rewrite <-app_assoc.
Qed.

Lemma loaded_urls_snoc (files : list Node) (file : Node) :
  loaded_urls (files ++ [file])
  = loaded_urls files
    ++ match IndexBuilder._load_document file ≫= payload_url with
       | Some u => [u]
       | None => []
       end.
Proof.
  unfold loaded_urls. rewrite omap_app. simpl.
  by destruct (IndexBuilder._load_document file ≫= payload_url).
Qed.

(** ** The invariant of the loop of [build] *)

Section BuildInvariant.
Context `{Collaborators}.
Import IndexBuilder.

Lemma build_invariant_init : build_invariant [] start.
Proof.
  split; simpl.
  - done.
  - intros d. rewrite lookup_empty. split; [by intros [? ?]|lia].
  - intros u d. by rewrite !lookup_empty.
  - intros file payload Hin. inv Hin.
  - by rewrite dom_empty_L.
  - done.
  - intros d u. by rewrite lookup_empty.
  - intros d. by rewrite lookup_empty.
  - intros t ps p. by rewrite lookup_empty.
Qed.

(** A file that cannot be loaded, or whose URL was seen, changes
    nothing. *)
Lemma build_invariant_skip (files : list Node) (file : Node) (st : loop) :
  build_invariant files st →
  (∀ payload, _load_document file = Some payload →
              ∃ u, payload_url payload = Some u ∧
                   is_Some (doc_seen_urls (self st) !! u)) →
  build_invariant (files ++ [file]) (skip_file st).
Proof.
  intros Hinv Hfile. destruct Hinv. split; simpl; try done.
  - intros f payload [Hin|Hin%list_elem_of_singleton]%elem_of_app Hload.
    + by eapply inv_has_url0.
    + subst f. destruct (Hfile payload Hload) as (u & -> & _). by eexists.
  - rewrite loaded_urls_snoc.
    destruct (_load_document file) as [payload|] eqn:Hload; simpl.
    + destruct (Hfile payload eq_refl) as (u & -> & Hseen).
      rewrite list_to_set_app_L, <-inv_seen_dom0. simpl.
      apply elem_of_dom in Hseen. set_solver.
    + by rewrite app_nil_r.
  - intros d u Hd. destruct (inv_docs0 d u Hd) as (payload & Hfirst & Hrest).
    exists payload. split; [by apply first_with_url_snoc|done].
  - intros t ps p Hps Hp.
    destruct (inv_postings0 t ps p Hps Hp) as (u & payload & stats & Hd & Hfirst & Hrest).
    exists u, payload, stats. split_and!; [done|by apply first_with_url_snoc|apply Hrest..].
Qed.

(** A document with a new URL takes the next [doc_id]. *)
Lemma build_invariant_index (files : list Node) (file : Node) (st : loop)
      (payload : Payload) (u : string) :
  build_invariant files st →
  _load_document file = Some payload →
  payload_url payload = Some u →
  doc_seen_urls (self st) !! u = None →
  log_defined (parse (html_of payload)) →
  build_invariant (files ++ [file]) (index_document st u (parse (html_of payload))).
Proof.
  intros Hinv Hload Hurl Hseen Hdef. destruct Hinv.
  set (d := next_doc_id st) in *.
  assert (doc_lookup (self st) !! d = None) as Hfresh.
  { destruct (doc_lookup (self st) !! d) as [u'|] eqn:Hd; [|done].
    assert (0 ≤ d < d)%Z; [|lia]. apply inv_dense0. by eexists. }
  assert (first_with_url (files ++ [file]) payload) as Hfirst.
  { exists files, file, []. split_and!; [done..|].
    intros file' payload' Hin Hload' Heq.
    destruct (inv_has_url0 file' payload' Hin Hload') as [u' Hu'].
    assert (u' ∈ dom (doc_seen_urls (self st))) as Hdom.
    { rewrite inv_seen_dom0. apply elem_of_list_to_set.
      apply list_elem_of_omap. exists file'. split; [done|].
      by rewrite Hload'. }
    rewrite Hu', Hurl in Heq. simplify_eq.
    apply elem_of_dom in Hdom as [? ?]. congruence. }
  split; simpl; fold d.
  - rewrite map_size_insert_None by done. lia.
  - intros d'. destruct (decide (d = d')) as [<-|Hne].
    + rewrite lookup_insert_eq. split; [intros _; lia|by eexists].
    + rewrite lookup_insert_ne by done. rewrite inv_dense0. lia.
  - intros u' d'.
    destruct (decide (u = u')) as [<-|Hu], (decide (d = d')) as [<-|Hd];
      rewrite ?lookup_insert_eq, ?lookup_insert_ne by done.
    + done.
    + split; [by intros [= ?]|]. intros Hd'. apply inv_seen0 in Hd'. congruence.
    + split; [|by intros [= ?]]. intros Hu'. apply inv_seen0 in Hu'. congruence.
    + apply inv_seen0.
  - intros f payload' [Hin|Hin%list_elem_of_singleton]%elem_of_app Hload'.
    + by eapply inv_has_url0.
    + subst f. rewrite Hload in Hload'. simplify_eq. by eexists.
  - rewrite dom_insert_L, loaded_urls_snoc, Hload. simpl. rewrite Hurl.
    rewrite list_to_set_app_L, <-inv_seen_dom0. simpl. set_solver.
  - by rewrite !map_size_insert_None, inv_seen_size0.
  - intros d' u'. destruct (decide (d = d')) as [<-|Hne].
    + rewrite !lookup_insert_eq. intros [= <-].
      exists payload. split_and!; [done..|].
      intros t stats Hin. by apply add_postings_new.
    + rewrite !lookup_insert_ne by done. intros Hd'.
      destruct (inv_docs0 d' u' Hd') as (payload' & Hfirst' & Hurl' & Hdef' & Hlen & Hps).
      exists payload'. split_and!; [by apply first_with_url_snoc|done..|].
      intros t stats Hin. destruct (Hps t stats Hin) as (ps & Hps0 & Hp).
      destruct (add_postings_mono d (parse (html_of payload)) _ t ps Hps0)
        as (ps' & Hps' & Hsub).
      exists ps'. split; [done|by apply Hsub].
  - intros d'. destruct (decide (d = d')) as [<-|Hne].
    + rewrite !lookup_insert_eq. by eexists.
    + rewrite !lookup_insert_ne by done. apply inv_lengths0.
  - intros t ps p Hps Hp.
    destruct (add_postings_inv _ _ _ _ _ _ Hps Hp)
      as [(ps0 & Hps0 & Hp0)|(stats & Hin & ->)].
    + destruct (inv_postings0 t ps0 p Hps0 Hp0)
        as (u' & payload' & stats & Hd' & Hfirst' & Hrest).
      exists u', payload', stats.
      split_and!; [|by apply first_with_url_snoc|apply Hrest..].
      rewrite lookup_insert_ne; [done|]. intros Heq. congruence.
    + exists u, payload, stats. simpl.
      rewrite lookup_insert_eq. by split_and!.
Qed.

(** The invariant holds whenever the loop of [build] completes. *)
Lemma build_loop_invariant (files : list Node) (st : loop) :
  build_loop files = Some st → build_invariant files st.
Proof.
  revert st. induction files as [|file files IH] using rev_ind; intros st Hrun.
  - unfold build_loop in Hrun. simpl in Hrun. simplify_eq.
    apply build_invariant_init.
  - rewrite build_loop_snoc in Hrun.
    destruct (build_loop files) as [st0|]; [|done]. simpl in Hrun.
    specialize (IH st0 eq_refl).
    apply build_step_inv in Hrun
      as [[Hload ->]|[(payload & u & Hload & Hurl & Hseen & ->)
                     |(payload & u & Hload & Hurl & Hseen & Hdef & ->)]].
    + apply build_invariant_skip; [done|]. intros payload. by rewrite Hload.
    + apply build_invariant_skip; [done|]. intros payload'. rewrite Hload.
      intros [= <-]. by exists u.
    + by apply build_invariant_index.
Qed.


End BuildInvariant.

(** * Writing the index and reading it back *)

Section WriteIndex.
Context `{Collaborators}.
Import IndexBuilder IndexReader.

Lemma write_doc_lookup (b : t) : doc_lookup_json (write b) = doc_lookup b.
Proof. unfold write. by destruct (_write_index b). Qed.

Lemma write_doc_lengths (b : t) : doc_lengths_json (write b) = doc_lengths b.
Proof. unfold write. by destruct (_write_index b). Qed.

Lemma write_num_documents (b : t) :
  num_documents (stats_json (write b)) = Z.of_nat (size (doc_lookup b)).
Proof. unfold write. by destruct (_write_index b). Qed.

Lemma size_list_to_set_remove_dups (l : list string) :
  size (list_to_set l : gset string) = length (remove_dups l).
Proof.
  rewrite <-(size_list_to_set (C:=gset string) (remove_dups l))
    by apply NoDup_remove_dups.
  f_equal. apply set_eq. intros x.
  by rewrite !elem_of_list_to_set, elem_of_remove_dups.
Qed.

Lemma write_term_eq (b : t) (lexicon_file : list LexiconEntry)
      (postings_file : list ascii) (t0 : string) :
  write_term b (lexicon_file, postings_file) t0
  = (lexicon_file
       ++ [{| term := t0;
              doc_freq := Z.of_nat (length (sorted_postings b t0));
              offset := Z.of_nat (length postings_file);
              length_ := Z.of_nat (length (block_of b t0)) |}],
     postings_file ++ block_of b t0).
Proof.
  unfold write_term, block_of, sorted_postings. do 4 f_equal.
  rewrite !length_app. lia.
Qed.

Lemma entry_ok_app (b : t) (postings_file more : list ascii) (e : LexiconEntry) :
  entry_ok b postings_file e → entry_ok b (postings_file ++ more) e.
Proof.
  intros (Hoff & Hdf & Hlen & rest & Hdrop). split_and!; [done..|].
  exists (rest ++ more).
  assert (Z.to_nat (offset e) ≤ length postings_file)%nat as Hle.
  { destruct (decide (Z.to_nat (offset e) ≤ length postings_file)%nat); [done|].
    rewrite drop_ge in Hdrop by lia. unfold block_of in Hdrop.
    by destruct (json_dumps (sorted_postings b (term e))). }
  rewrite drop_app_le by done. by rewrite Hdrop, <-app_assoc.
Qed.

(** The two files after the loop of [_write_index] over a list of
    terms. *)
Lemma write_terms_spec (b : t) (terms : list string) :
  ∃ lexicon_file postings_file,
    foldl (write_term b) ([], []) terms = (lexicon_file, postings_file) ∧
    map term lexicon_file = terms ∧
    Forall (entry_ok b postings_file) lexicon_file.
Proof.
  induction terms as [|t0 terms IH] using rev_ind.
  - exists [], []. by split_and!.
  - destruct IH as (lex & post & Hrun & Hterms & Hok).
    rewrite foldl_app, Hrun.
    change (foldl ?f ?a [t0]) with (f a t0). rewrite write_term_eq.
    eexists _, _. split_and!; [done|..].
    + by rewrite map_app, Hterms.
    + apply Forall_app. split.
      * eapply Forall_impl; [exact Hok|]. intros e. apply entry_ok_app.
      * apply Forall_singleton. split_and!; simpl; [lia|done..|].
        exists []. rewrite Nat2Z.id, drop_app_length. by rewrite app_nil_r.
Qed.

Lemma elem_of_sorted_terms (b : t) (t0 : string) :
  t0 ∈ sorted_terms b ↔ is_Some (_postings b !! t0).
Proof.
  unfold sorted_terms. rewrite list_sort_Permutation.
  rewrite list_elem_of_fmap. split.
  - intros ([t' ps] & -> & Hin%elem_of_map_to_list). by eexists.
  - intros [ps Hps]. exists (t0, ps). split; [done|]. by apply elem_of_map_to_list.
Qed.

Lemma NoDup_sorted_terms (b : t) : NoDup (sorted_terms b).
Proof.
  unfold sorted_terms. rewrite list_sort_Permutation.
  apply NoDup_fst_map_to_list.
Qed.

(** Loading a lexicon whose terms are distinct finds every record under
    its term. *)
Lemma load_lexicon_lookup (lexicon_file : list LexiconEntry)
      (m : gmap string LexiconEntry) (t0 : string) :
  NoDup (map term lexicon_file) →
  foldl (λ lexicon entry, <[term entry := entry]> lexicon) m lexicon_file !! t0
  = match list_find (λ e, term e = t0) lexicon_file with
    | Some (_, e) => Some e
    | None => m !! t0
    end.
Proof.
  revert m. induction lexicon_file as [|e lex IH]; intros m Hnodup; simpl; [done|].
  apply NoDup_cons in Hnodup as [Hnotin Hnodup]. rewrite IH by done.
  destruct (decide (term e = t0)) as [<-|Hne].
  - destruct (list_find (λ e', term e' = term e) lex) as [[i e']|] eqn:Hfind.
    + apply list_find_Some in Hfind as (Hi & He' & _).
      exfalso. apply Hnotin. rewrite <-He'.
      apply list_elem_of_fmap. exists e'. split; [done|].
      by eapply list_elem_of_lookup_2.
    + simpl. by rewrite lookup_insert_eq.
  - destruct (list_find (λ e', term e' = t0) lex) as [[i e']|]; simpl; [done|].
    by rewrite lookup_insert_ne.
Qed.

(** The lexicon that the reader loads from a written index: one record
    for each term of the accumulator, and each record describes the
    block of its term. *)
Lemma written_lexicon (b : t) (t0 : string) :
  match _load_lexicon (write b) !! t0 with
  | Some e =>
      is_Some (_postings b !! t0) ∧ term e = t0 ∧
      entry_ok b (postings_jsonl (write b)) e
  | None => _postings b !! t0 = None
  end.
Proof.
  destruct (write_terms_spec b (sorted_terms b)) as (lex & post & Hrun & Hterms & Hok).
  unfold _load_lexicon, write, _write_index. rewrite Hrun. simpl.
  rewrite load_lexicon_lookup by (rewrite Hterms; apply NoDup_sorted_terms).
  destruct (list_find (λ e, term e = t0) lex) as [[i e]|] eqn:Hfind.
  - apply list_find_Some in Hfind as (Hi & He & _).
    assert (e ∈ lex) as Hin by (by eapply list_elem_of_lookup_2).
    split_and!; [|done|].
    + apply elem_of_sorted_terms. rewrite <-Hterms, <-He.
      apply list_elem_of_fmap. by exists e.
    + rewrite Forall_forall in Hok. by apply Hok.
  - rewrite lookup_empty.
    apply list_find_None in Hfind. rewrite Forall_forall in Hfind.
    destruct (_postings b !! t0) as [ps|] eqn:Hps; [|done].
    assert (t0 ∈ map term lex) as Hin.
    { rewrite Hterms. apply elem_of_sorted_terms. by eexists. }
    apply list_elem_of_fmap in Hin as (e & He & Hin). by destruct (Hfind e Hin).
Qed.

(** On the index written after a completed [build], a term with a
    positive document frequency has a posting, so the index has a
    document. *)
Lemma built_index_has_documents (files : list Node) (st : loop) (t0 : string) :
  build_loop files = Some st →
  (0 < get_doc_freq (write (self st)) t0)%Z →
  (0 < get_num_documents (write (self st)))%Z.
Proof.
  intros Hrun Hdf. unfold get_doc_freq in Hdf.
  pose proof (written_lexicon (self st) t0) as Hlex.
  destruct (_load_lexicon (write (self st)) !! t0) as [e|]; [|lia].
  destruct Hlex as ([ps Hps] & Hterm & _ & Hfreq & _).
  rewrite Hfreq, Hterm in Hdf. unfold sorted_postings in Hdf.
  rewrite Hps in Hdf. simpl in Hdf.
  rewrite (Permutation_length (list_sort_Permutation _ _ _)) in Hdf.
  destruct ps as [|p ps]; [simpl in Hdf; lia|].
  pose proof (build_loop_invariant files st Hrun) as Hinv.
  destruct (inv_postings files st Hinv t0 (p :: ps) p Hps) as (u & _ & _ & Hd & _);
    [by left|].
  unfold get_num_documents. rewrite write_num_documents.
  assert (size (doc_lookup (self st)) ≠ 0%nat); [|lia].
  intros Hsize%map_size_empty_iff. by rewrite Hsize, lookup_empty in Hd.
Qed.

End WriteIndex.

(** * The reader and the query engine *)

Section Query.
Context `{Collaborators}.
Import IndexReader SearchEngine.
Implicit Types (index_dir : IndexDir) (d : Z) (t : string).
Implicit Types (tp : list (string * list Posting)).

(** ** [compute_idf] *)

Lemma compute_idf_seen (index_dir : IndexDir) (t : string) :
  (0 < get_doc_freq index_dir t)%Z →
  (0 < get_num_documents index_dir)%Z →
  compute_idf index_dir t
  = Some (ln (IZR (get_num_documents index_dir) / IZR (get_doc_freq index_dir t))).
Proof.
  intros Hdf HN. unfold compute_idf.
  rewrite (proj2 (Z.eqb_neq _ 0)) by lia.
  apply math_log_Some. split; [|done].
  apply Rdiv_lt_0_compat; by apply IZR_lt.
Qed.

Lemma compute_idf_unseen (index_dir : IndexDir) (t : string) :
  get_doc_freq index_dir t = 0%Z → compute_idf index_dir t = Some 0%R.
Proof. intros Hdf. unfold compute_idf. by rewrite Hdf. Qed.

(** ** Fetching the postings and intersecting them *)

Lemma elem_of_doc_ids (ps : list Posting) d : d ∈ doc_ids ps ↔ d ∈ map doc_id ps.
Proof. unfold doc_ids. by rewrite elem_of_list_to_set. Qed.

Lemma elem_of_dict_set {V : Type} (k : string) (v : V) (dict : list (string * V))
      (k' : string) (v' : V) :
  (k', v') ∈ dict_set k v dict → (k', v') = (k, v) ∨ (k', v') ∈ dict.
Proof.
  induction dict as [|[k0 v0] dict IH]; simpl.
  - rewrite list_elem_of_singleton. auto.
  - destruct (decide (k0 = k)) as [->|Hne]; rewrite !elem_of_cons; naive_solver.
Qed.

Lemma dict_set_keys {V : Type} (k : string) (v : V) (dict : list (string * V))
      (k' : string) :
  k' ∈ (dict_set k v dict).*1 ↔ k' = k ∨ k' ∈ dict.*1.
Proof.
  induction dict as [|[k0 v0] dict IH]; simpl.
  - rewrite list_elem_of_singleton. set_solver.
  - destruct (decide (k0 = k)) as [->|Hne]; simpl; rewrite !elem_of_cons;
      [|rewrite IH]; naive_solver.
Qed.

Lemma fetch_postings_spec index_dir (query_terms : list string) tp :
  fetched index_dir tp →
  match fetch_postings index_dir query_terms tp with
  | Some (Some tp') =>
      fetched index_dir tp' ∧ (∀ t, t ∈ tp'.*1 ↔ t ∈ query_terms ∨ t ∈ tp.*1)
  | Some None => ∃ t, t ∈ query_terms ∧ get_postings index_dir t = Some []
  | None => ∃ t, t ∈ query_terms ∧ get_postings index_dir t = None
  end.
Proof.
  revert tp. induction query_terms as [|t0 terms IH]; intros tp Htp; simpl.
  - split; [done|]. set_solver.
  - destruct (get_postings index_dir t0) as [[|p ps]|] eqn:Hget; simpl.
    + exists t0. split; [by left|done].
    + specialize (IH (dict_set t0 (p :: ps) tp)).
      destruct (fetch_postings index_dir terms (dict_set t0 (p :: ps) tp))
        as [[tp'|]|].
      * destruct IH as [Hf Hkeys].
        { intros t ps' [[= -> ->]|Hin]%elem_of_dict_set; [done|by apply Htp]. }
        split; [done|]. intros t. rewrite Hkeys, dict_set_keys, elem_of_cons.
        naive_solver.
      * destruct IH as (t & Ht & Hnone).
        { intros t ps' [[= -> ->]|Hin]%elem_of_dict_set; [done|by apply Htp]. }
        exists t. split; [by right|done].
      * destruct IH as (t & Ht & Hnone).
        { intros t ps' [[= -> ->]|Hin]%elem_of_dict_set; [done|by apply Htp]. }
        exists t. split; [by right|done].
    + exists t0. split; [by left|done].
Qed.

Lemma boolean_and_loop (rest : list (string * list Posting)) (X : gset Z) d :
  d ∈ foldl (λ candidate_docs '(term, postings), candidate_docs ∩ doc_ids postings)
            X rest
  ↔ d ∈ X ∧ ∀ t ps, (t, ps) ∈ rest → d ∈ map doc_id ps.
Proof.
  revert X. induction rest as [|[t0 ps0] rest IH]; intros X; simpl.
  - split; [|naive_solver]. intros Hd. split; [done|]. intros t ps Hin. inv Hin.
  - rewrite IH, elem_of_intersection, elem_of_doc_ids. split.
    + intros [[HX H0] Hrest]. split; [done|].
      intros t ps [[= -> ->]|Hin]%elem_of_cons; [done|by eapply Hrest].
    + intros [HX Hall]. split; [split; [done|]|].
      * apply (Hall t0). by left.
      * intros t ps Hin. apply (Hall t). by right.
Qed.

Lemma elem_of_boolean_and tp d :
  d ∈ _boolean_and tp ↔ tp ≠ [] ∧ ∀ t ps, (t, ps) ∈ tp → d ∈ map doc_id ps.
Proof.
  destruct tp as [|[t0 ps0] rest]; simpl.
  - split; [set_solver|naive_solver].
  - rewrite boolean_and_loop, elem_of_doc_ids. split.
    + intros [H0 Hrest]. split; [done|].
      intros t ps [[= -> ->]|Hin]%elem_of_cons; [done|by eapply Hrest].
    + intros [_ Hall]. split.
      * apply (Hall t0). by left.
      * intros t ps Hin. apply (Hall t). by right.
Qed.

(** The candidates are the documents that occur in the postings of
    every query term. *)
Lemma candidates_spec index_dir (query_terms : list string) tp d :
  query_terms ≠ [] →
  fetched index_dir tp →
  (∀ t, t ∈ tp.*1 ↔ t ∈ query_terms) →
  d ∈ _boolean_and tp ↔ in_all_postings index_dir query_terms d.
Proof.
  intros Hne Hf Hkeys. rewrite elem_of_boolean_and. split.
  - intros [_ Hall] t Ht. apply Hkeys in Ht.
    apply list_elem_of_fmap in Ht as ([t' ps] & -> & Hin). simpl.
    exists ps. split; [by apply (Hf t')|by eapply Hall].
  - intros Hall. split.
    + destruct query_terms as [|t0 ?]; [done|].
      assert (t0 ∈ tp.*1) as Hin by (apply Hkeys; by left).
      intros ->. inv Hin.
    + intros t ps Hin. destruct (Hf t ps Hin) as [Hget _].
      destruct (Hall t) as (ps' & Hget' & Hd).
      { apply Hkeys. apply list_elem_of_fmap. by exists (t, ps). }
      by simplify_eq.
Qed.

(** ** Scoring *)

Lemma posting_maps_lookup tp (m : gmap string (gmap Z Posting)) t pm :
  foldl (λ m '(term, postings), <[term := posting_map postings]> m) m tp !! t
    = Some pm →
  (∃ ps, (t, ps) ∈ tp ∧ pm = posting_map ps) ∨ m !! t = Some pm.
Proof.
  revert m. induction tp as [|[t0 ps0] tp IH]; intros m; simpl; [by right|].
  intros [(ps & Hin & ->)|Hm]%IH.
  - left. exists ps. split; [by right|done].
  - destruct (decide (t0 = t)) as [->|Hne].
    + rewrite lookup_insert_eq in Hm. simplify_eq.
      left. exists ps0. split; [by left|done].
    + rewrite lookup_insert_ne in Hm by done. by right.
Qed.

Lemma posting_maps_keys tp (m : gmap string (gmap Z Posting)) t :
  t ∈ tp.*1 ∨ is_Some (m !! t) →
  is_Some
    (foldl (λ m '(term, postings), <[term := posting_map postings]> m) m tp !! t).
Proof.
  revert m. induction tp as [|[t0 ps0] tp IH]; intros m; simpl.
  - intros [Hin|Hm]; [inv Hin|done].
  - intros Hor. apply IH. rewrite elem_of_cons in Hor. simpl in Hor.
    destruct (decide (t0 = t)) as [->|Hne].
    + right. by rewrite lookup_insert_eq.
    + rewrite lookup_insert_ne by done. naive_solver.
Qed.

Lemma compute_idfs_loop index_dir (query_terms : list string) (m : gmap string R) :
  (∀ t v, m !! t = Some v → compute_idf index_dir t = Some v) →
  match Py.for_each (λ term_idfs term,
                       idf ← compute_idf index_dir term;
                       Some (<[term := idf]> term_idfs)) m query_terms with
  | Some m' =>
      (∀ t v, m' !! t = Some v → compute_idf index_dir t = Some v) ∧
      (∀ t, t ∈ query_terms ∨ is_Some (m !! t) → is_Some (m' !! t))
  | None => ∃ t, t ∈ query_terms ∧ compute_idf index_dir t = None
  end.
Proof.
  revert m. induction query_terms as [|t0 terms IH]; intros m Hm; simpl.
  - split; [done|]. intros t [Ht|Ht]; [inv Ht|done].
  - destruct (compute_idf index_dir t0) as [v0|] eqn:Hidf; simpl.
    + specialize (IH (<[t0 := v0]> m)).
      destruct (Py.for_each _ (<[t0 := v0]> m) terms) as [m'|].
      * destruct IH as [Hval Hkeys].
        { intros t v. destruct (decide (t0 = t)) as [->|Hne].
          - rewrite lookup_insert_eq. by intros [= <-].
          - rewrite lookup_insert_ne by done. apply Hm. }
        split; [done|]. intros t Ht. apply Hkeys.
        destruct (decide (t0 = t)) as [->|Hne].
        { right. by rewrite lookup_insert_eq. }
        rewrite lookup_insert_ne by done. rewrite elem_of_cons in Ht. naive_solver.
      * destruct IH as (t & Ht & Hnone).
        { intros t v. destruct (decide (t0 = t)) as [->|Hne].
          - rewrite lookup_insert_eq. by intros [= <-].
          - rewrite lookup_insert_ne by done. apply Hm. }
        exists t. split; [by right|done].
    + exists t0. split; [by left|done].
Qed.

Lemma score_term_eq index_dir (tpm : gmap string (gmap Z Posting))
      (idfs : gmap string R) d t (ps : list Posting) (v s : R) :
  get_postings index_dir t = Some ps →
  tpm !! t = Some (posting_map ps) →
  compute_idf index_dir t = Some v →
  idfs !! t = Some v →
  score_term index_dir tpm idfs d s t = Some (s + contribution index_dir t d)%R.
Proof.
  intros Hget Htpm Hidf Hv. unfold score_term, contribution.
  rewrite Htpm, Hget, Hidf. simpl.
  destruct (posting_map ps !! d) as [p|]; [rewrite Hv; simpl|]; f_equal; lra.
Qed.

(** The score loop adds one contribution for each term of the query, in
    order. *)
Lemma score_loop index_dir (tpm : gmap string (gmap Z Posting))
      (idfs : gmap string R) d (query_terms : list string) (s : R) :
  (∀ t, t ∈ query_terms →
        ∃ ps v, get_postings index_dir t = Some ps ∧
                tpm !! t = Some (posting_map ps) ∧
                compute_idf index_dir t = Some v ∧ idfs !! t = Some v) →
  Py.for_each (score_term index_dir tpm idfs d) s query_terms
  = Some (s + sum_list (map (λ t, contribution index_dir t d) query_terms))%R.
Proof.
  revert s. induction query_terms as [|t0 terms IH]; intros s Hall.
  - simpl. f_equal. lra.
  - destruct (Hall t0) as (ps & v & Hget & Htpm & Hidf & Hv); [by left|].
    change (Py.for_each ?f s (t0 :: terms)) with (s' ← f s t0; Py.for_each f s' terms).
    rewrite (score_term_eq _ _ _ _ _ ps v) by done. simpl.
    rewrite IH; [f_equal; lra|].
    intros t Ht. apply Hall. by right.
Qed.

Lemma score_document_eq index_dir (tpm : gmap string (gmap Z Posting))
      (idfs : gmap string R) (query_terms : list string)
      (results : list SearchResult) d :
  (∀ t, t ∈ query_terms →
        ∃ ps v, get_postings index_dir t = Some ps ∧
                tpm !! t = Some (posting_map ps) ∧
                compute_idf index_dir t = Some v ∧ idfs !! t = Some v) →
  score_document index_dir tpm idfs query_terms results d
  = Some (if decide (has_url index_dir d)
          then results ++ [result_of index_dir query_terms d] else results).
Proof.
  intros Hall. unfold score_document. rewrite score_loop by done. simpl.
  destruct (decide (has_url index_dir d)) as [(u & Hu & Hne)|Hno].
  - rewrite Hu. rewrite decide_False by done.
    unfold result_of. rewrite Hu. simpl. do 4 f_equal. lra.
  - destruct (get_url index_dir d) as [u|] eqn:Hu; [|done].
    destruct (decide (u = ""%string)) as [->|Hne]; [done|].
    exfalso. apply Hno. by exists u.
Qed.

Lemma score_documents_loop index_dir (tpm : gmap string (gmap Z Posting))
      (idfs : gmap string R) (query_terms : list string)
      (results : list SearchResult) (ds : list Z) :
  (∀ t, t ∈ query_terms →
        ∃ ps v, get_postings index_dir t = Some ps ∧
                tpm !! t = Some (posting_map ps) ∧
                compute_idf index_dir t = Some v ∧ idfs !! t = Some v) →
  Py.for_each (score_document index_dir tpm idfs query_terms) results ds
  = Some (results ++ map (result_of index_dir query_terms)
                         (filter (has_url index_dir) ds)).
Proof.
  intros Hall. revert results.
  induction ds as [|d ds IH]; intros results.
  - simpl. by rewrite app_nil_r.
  - change (Py.for_each ?f results (d :: ds))
      with (r ← f results d; Py.for_each f r ds).
    rewrite score_document_eq by done. simpl. rewrite IH, filter_cons.
    destruct (decide (has_url index_dir d)); [|done].
    by rewrite <-app_assoc.
Qed.

Lemma score_documents_spec index_dir (candidate_docs : gset Z) tp
      (query_terms : list string) :
  fetched index_dir tp →
  (∀ t, t ∈ tp.*1 ↔ t ∈ query_terms) →
  match _score_documents index_dir candidate_docs tp query_terms with
  | Some results =>
      idf_defined index_dir query_terms ∧
      results = map (result_of index_dir query_terms)
                    (filter (has_url index_dir) (elements candidate_docs))
  | None => ∃ t, t ∈ query_terms ∧ compute_idf index_dir t = None
  end.
Proof.
  intros Hf Hkeys. unfold _score_documents, compute_idfs.
  pose proof (compute_idfs_loop index_dir query_terms ∅) as Hidfs.
  destruct (Py.for_each _ ∅ query_terms) as [idfs|]; simpl; [|by apply Hidfs].
  destruct Hidfs as [Hval Hdom]; [by intros t v; rewrite lookup_empty|].
  assert (∀ t, t ∈ query_terms →
            ∃ ps v, get_postings index_dir t = Some ps ∧
                    foldl (λ m '(term, postings), <[term := posting_map postings]> m)
                          (∅ : gmap string (gmap Z Posting)) tp !! t
                      = Some (posting_map ps) ∧
                    compute_idf index_dir t = Some v ∧ idfs !! t = Some v) as Hall.
  { intros t Ht.
    destruct (Hdom t) as [v Hv]; [by left|].
    destruct (posting_maps_keys tp ∅ t) as [pm Hpm]; [left; by apply Hkeys|].
    pose proof Hpm as Hpm'.
    apply posting_maps_lookup in Hpm' as [(ps & Hin & ->)|Hempty];
      [|by rewrite lookup_empty in Hempty].
    exists ps, v. split_and!; [by apply (Hf t ps)|done|by apply Hval|done]. }
  rewrite score_documents_loop by done. simpl. split; [|done].
  intros t Ht. destruct (Hall t Ht) as (ps & v & _ & _ & -> & _). by eexists.
Qed.

(** ** The runs of [search] *)

Lemma ranking_empty index_dir (query_terms : list string) (top_k : Z) :
  ranking index_dir query_terms ∅ top_k = [].
Proof.
  unfold ranking. rewrite elements_empty. simpl.
  unfold Py.slice_to. destruct (0 <=? top_k)%Z; apply take_nil.
Qed.

(** The runs of [search]: an empty result for an empty query or for a
    term without postings, the ranking of the documents that occur in
    the postings of every term otherwise; an exception when postings
    cannot be read or an idf is undefined. *)
Lemma search_run index_dir (query : string) (top_k : Z) :
  let query_terms := _parse_query query in
  match search index_dir query top_k with
  | Some results =>
      (query_terms = [] ∧ results = []) ∨
      ((∃ t, t ∈ query_terms ∧ get_postings index_dir t = Some []) ∧ results = []) ∨
      (query_terms ≠ [] ∧
       (∀ t, t ∈ query_terms →
             ∃ ps, get_postings index_dir t = Some ps ∧ ps ≠ []) ∧
       ∃ candidate_docs : gset Z,
         (∀ d, d ∈ candidate_docs ↔ in_all_postings index_dir query_terms d) ∧
         (candidate_docs ≠ ∅ → idf_defined index_dir query_terms) ∧
         results = ranking index_dir query_terms candidate_docs top_k)
  | None =>
      (∃ t, t ∈ query_terms ∧ get_postings index_dir t = None) ∨
      (∃ t, t ∈ query_terms ∧ compute_idf index_dir t = None)
  end.
Proof.
  intros query_terms. unfold search. fold query_terms.
  destruct query_terms as [|t0 terms] eqn:Hterms; [by left|].
  rewrite <-Hterms. assert (query_terms ≠ []) as Hne by (by rewrite Hterms).
  clear Hterms t0 terms.
  pose proof (fetch_postings_spec index_dir query_terms []) as Hfetch.
  destruct (fetch_postings index_dir query_terms []) as [[tp|]|]; simpl.
  - destruct Hfetch as [Hf Hkeys]; [by intros t ps Hin; inv Hin|].
    assert (∀ t, t ∈ tp.*1 ↔ t ∈ query_terms) as Hkeys'.
    { intros t. rewrite Hkeys. simpl. split; [intros [?|Hin]; [done|inv Hin]|auto]. }
    assert (∀ t, t ∈ query_terms →
              ∃ ps, get_postings index_dir t = Some ps ∧ ps ≠ []) as Hall.
    { intros t Ht. apply Hkeys' in Ht.
      apply list_elem_of_fmap in Ht as ([t' ps] & -> & Hin).
      exists ps. by apply (Hf t'). }
    pose proof (candidates_spec index_dir query_terms tp) as Hcand.
    destruct (decide (_boolean_and tp = ∅)) as [Hempty|Hnonempty].
    + right; right. split_and!; [done..|].
      exists (_boolean_and tp). split_and!; [by intros d; apply Hcand|done|].
      by rewrite Hempty, ranking_empty.
    + pose proof (score_documents_spec index_dir (_boolean_and tp) tp query_terms
                    Hf Hkeys') as Hscore.
      destruct (_score_documents index_dir (_boolean_and tp) tp query_terms)
        as [results|]; simpl; [|by right].
      destruct Hscore as [Hidf ->].
      right; right. split_and!; [done..|].
      exists (_boolean_and tp). split_and!; [by intros d; apply Hcand|done|done].
  - right; left. split; [|done]. apply Hfetch. by intros t ps Hin; inv Hin.
  - left. apply Hfetch. by intros t ps Hin; inv Hin.
Qed.

(** [search] returns when the postings of the query terms can be read
    and their idf is defined. *)
Lemma search_returns index_dir (query : string) (top_k : Z) :
  readable index_dir (_parse_query query) →
  idf_defined index_dir (_parse_query query) →
  is_Some (search index_dir query top_k).
Proof.
  intros Hread Hidf. pose proof (search_run index_dir query top_k) as Hrun.
  destruct (search index_dir query top_k) as [results|]; [done|].
  destruct Hrun as [(t & Ht & Hnone)|(t & Ht & Hnone)].
  - destruct (Hread t Ht) as [ps Hps]. congruence.
  - destruct (Hidf t Ht) as [v Hv]. congruence.
Qed.

(** When every term of a non-empty query has postings, [search] returns
    the ranking of the documents that occur in all of them. *)
Lemma search_eval (index_dir : IndexDir) (query : string) (top_k : Z) (X : gset Z) :
  _parse_query query ≠ [] →
  (∀ t, t ∈ _parse_query query →
        ∃ ps, get_postings index_dir t = Some ps ∧ ps ≠ []) →
  idf_defined index_dir (_parse_query query) →
  (∀ d, d ∈ X ↔ in_all_postings index_dir (_parse_query query) d) →
  search index_dir query top_k
  = Some (ranking index_dir (_parse_query query) X top_k).
Proof.
  intros Hne Hall Hidf HX.
  destruct (search_returns index_dir query top_k) as [results Hres]; [|done|].
  { intros t Ht. destruct (Hall t Ht) as (ps & -> & _). by eexists. }
  pose proof (search_run index_dir query top_k) as Hrun. rewrite Hres in Hrun.
  destruct Hrun as [[Hnil _]|[[(t & Ht & Hempty) _]|(_ & _ & Y & HY & _ & ->)]].
  - done.
  - destruct (Hall t Ht) as (ps & Hps & Hps'). congruence.
  - rewrite Hres. do 2 f_equal. apply set_eq. intros d. by rewrite HX, HY.
Qed.

(** A query with a term that has no postings returns nothing. *)
Lemma search_no_postings (index_dir : IndexDir) (query : string) (top_k : Z)
      (t : string) :
  readable index_dir (_parse_query query) →
  t ∈ _parse_query query →
  get_postings index_dir t = Some [] →
  search index_dir query top_k = Some [].
Proof.
  intros Hread Ht Hempty. unfold search.
  destruct (_parse_query query) as [|t0 terms] eqn:Hterms; [done|].
  rewrite <-Hterms in *. clear Hterms.
  pose proof (fetch_postings_spec index_dir (_parse_query query) []) as Hfetch.
  destruct (fetch_postings index_dir (_parse_query query) []) as [[tp|]|];
    simpl; [|done|].
  - destruct Hfetch as [Hf Hkeys]; [by intros t' ps Hin; inv Hin|].
    assert (t ∈ tp.*1) as Hin by (apply Hkeys; by left).
    apply list_elem_of_fmap in Hin as ([t' ps] & -> & Hin).
    destruct (Hf t' ps Hin) as [Hps Hps']. simpl in *. congruence.
  - destruct Hfetch as (t' & Ht' & Hnone); [by intros t' ps Hin; inv Hin|].
    destruct (Hread t' Ht') as [ps Hps]. congruence.
Qed.

(** ** The ranking *)

Lemma elem_of_ranking index_dir (query_terms : list string)
      (candidate_docs : gset Z) (top_k : Z) (r : SearchResult) :
  r ∈ ranking index_dir query_terms candidate_docs top_k →
  res_doc_id r ∈ candidate_docs ∧ has_url index_dir (res_doc_id r) ∧
  r = result_of index_dir query_terms (res_doc_id r).
Proof.
  unfold ranking. intros Hr%elem_of_slice_to.
  rewrite list_sort_reverse_Permutation in Hr.
  apply list_elem_of_fmap in Hr as (d & -> & Hd).
  apply list_elem_of_filter in Hd as [Hurl Hd]. apply elem_of_elements in Hd.
  by simpl.
Qed.

Lemma ranking_complete index_dir (query_terms : list string)
      (candidate_docs : gset Z) (top_k : Z) d :
  (Z.of_nat (size candidate_docs) ≤ top_k)%Z →
  d ∈ candidate_docs → has_url index_dir d →
  result_of index_dir query_terms d
    ∈ ranking index_dir query_terms candidate_docs top_k.
Proof.
  intros Hk Hd Hurl. unfold ranking, Py.slice_to.
  rewrite (proj2 (Z.leb_le 0 top_k)) by lia.
  rewrite take_ge.
  - rewrite list_sort_reverse_Permutation. apply list_elem_of_fmap.
    exists d. split; [done|]. apply list_elem_of_filter. split; [done|].
    by apply elem_of_elements.
  - rewrite (Permutation_length (list_sort_reverse_Permutation _ _ _)).
    rewrite length_map.
    pose proof (length_filter (has_url index_dir) (elements candidate_docs)) as Hlen.
    unfold size, set_size in Hk. simpl in Hk. lia.
Qed.

Lemma ranking_length index_dir (query_terms : list string)
      (candidate_docs : gset Z) (top_k : Z) :
  (0 ≤ top_k)%Z →
  (Z.of_nat (length (ranking index_dir query_terms candidate_docs top_k)) ≤ top_k)%Z.
Proof.
  intros Hk. unfold ranking. rewrite slice_to_length.
  rewrite (proj2 (Z.leb_le 0 top_k)) by lia. lia.
Qed.

Lemma ranking_sorted index_dir (query_terms : list string)
      (candidate_docs : gset Z) (top_k : Z) :
  StronglySorted (λ a b, (score b <= score a)%R)
                 (ranking index_dir query_terms candidate_docs top_k).
Proof.
  unfold ranking.
  destruct (slice_to_take
              (Py.list_sort_reverse Py.Rltb score
                 (map (result_of index_dir query_terms)
                      (filter (has_url index_dir) (elements candidate_docs))))
              top_k) as [n ->].
  apply StronglySorted_take, list_sort_reverse_sorted.
Qed.

(** A list of distinct members of a set is no longer than the set is
    large. *)
Lemma NoDup_length_le_size (X : gset Z) (ds : list Z) :
  NoDup ds → (∀ d, d ∈ ds → d ∈ X) → (length ds ≤ size X)%nat.
Proof.
  intros Hnodup Hsub.
  rewrite <-(size_list_to_set (C:=gset Z) ds) by done.
  apply subseteq_size. intros d Hd%elem_of_list_to_set. by apply Hsub.
Qed.

(** The size of a set bounds every list of distinct members. *)
Lemma size_bound (X : gset Z) (k : Z) :
  (∀ ds : list Z, NoDup ds → Forall (λ d, d ∈ X) ds → (Z.of_nat (length ds) ≤ k)%Z) →
  (Z.of_nat (size X) ≤ k)%Z.
Proof.
  intros Hbound. apply (Hbound (elements X)); [apply NoDup_elements|].
  apply Forall_forall. intros d. by rewrite elem_of_elements.
Qed.

End Query.

(** ** Sums over the distinct terms of a query *)

Section Occurrences.
Context (f : string → R).

Lemma occurrences_cons (t x : string) (l : list string) :
  occurrences t (x :: l)
  = ((if decide (x = t) then 1 else 0) + occurrences t l)%nat.
Proof.
  unfold occurrences. rewrite filter_cons.
  by destruct (decide (x = t)).
Qed.

Lemma occurrences_not_elem (t : string) (l : list string) :
  t ∉ l → occurrences t l = 0%nat.
Proof.
  induction l as [|x l IH]; intros Ht; [done|].
  rewrite occurrences_cons. rewrite not_elem_of_cons in Ht.
  destruct Ht as [Hne Ht]. rewrite decide_False by done. by rewrite IH.
Qed.

Lemma sum_occurrences_cons (x : string) (l D : list string) :
  sum_list (map (λ t, INR (occurrences t (x :: l)) * f t) D)%R
  = (sum_list (map (λ t, INR (occurrences t l) * f t) D)
     + sum_list (map (λ t, if decide (x = t) then f t else 0) D))%R.
Proof.
  induction D as [|t D IH]; simpl; [lra|].
  rewrite IH, occurrences_cons, plus_INR.
  destruct (decide (x = t)); simpl; lra.
Qed.

Lemma sum_indicator (x : string) (D : list string) :
  NoDup D →
  sum_list (map (λ t, if decide (x = t) then f t else 0%R) D)
  = if decide (x ∈ D) then f x else 0%R.
Proof.
  induction 1 as [|t D Hnotin Hnodup IH]; simpl; [done|].
  rewrite IH. destruct (decide (x = t)) as [<-|Hne].
  - rewrite decide_False by done. rewrite decide_True by left. lra.
  - destruct (decide (x ∈ D)) as [Hin|Hnin].
    + rewrite decide_True by (by right). lra.
    + rewrite decide_False; [lra|]. rewrite elem_of_cons. naive_solver.
Qed.

(** A sum over a list of terms is the sum over its distinct terms,
    each counted as many times as it occurs. *)
Lemma sum_by_occurrences (l : list string) :
  sum_list (map f l)
  = sum_list (map (λ t, INR (occurrences t l) * f t)%R (remove_dups l)).
Proof.
  induction l as [|x l IH]; simpl; [done|].
  destruct (decide_rel elem_of x l) as [Hin|Hnin].
  - rewrite sum_occurrences_cons, <-IH, sum_indicator by apply NoDup_remove_dups.
    rewrite decide_True by (by apply elem_of_remove_dups). lra.
  - simpl. rewrite sum_occurrences_cons, <-IH, sum_indicator
      by apply NoDup_remove_dups.
    rewrite decide_False by (by rewrite elem_of_remove_dups).
    rewrite occurrences_cons, decide_True by done.
    rewrite occurrences_not_elem by done. simpl. lra.
Qed.
End Occurrences.

(** * The examples *)

Section Examples.
Import IndexBuilder IndexReader SearchEngine Plain Corpus.
Existing Instance Plain.collaborators.

(** ** The example index *)

Lemma example_cat : get_postings example_index "cat" = Some cat_postings.
Proof. reflexivity. Qed.

Lemma example_dog : get_postings example_index "dog" = Some dog_postings.
Proof. reflexivity. Qed.

Lemma example_zebra : get_postings example_index "zebra" = Some [].
Proof. reflexivity. Qed.

Lemma example_idf_cat : compute_idf example_index "cat" = Some (ln (3 / 3)).
Proof. by rewrite compute_idf_seen. Qed.

Lemma example_idf_dog : compute_idf example_index "dog" = Some (ln (3 / 2)).
Proof. by rewrite compute_idf_seen. Qed.

Lemma example_readable (query_terms : list string) :
  readable example_index query_terms.
Proof.
  intros t _.
  destruct (decide (t = "cat"%string)) as [->|Hcat]; [by rewrite example_cat|].
  destruct (decide (t = "dog"%string)) as [->|Hdog]; [by rewrite example_dog|].
  unfold get_postings.
  assert (_load_lexicon example_index !! t = None) as ->; [|by eexists].
  unfold _load_lexicon. simpl.
  by rewrite !lookup_insert_ne, lookup_empty.
Qed.

Lemma example_idf_defined (query_terms : list string) :
  idf_defined example_index query_terms.
Proof.
  intros t _.
  destruct (decide (t = "cat"%string)) as [->|Hcat]; [by rewrite example_idf_cat|].
  destruct (decide (t = "dog"%string)) as [->|Hdog]; [by rewrite example_idf_dog|].
  rewrite compute_idf_unseen; [by eexists|].
  unfold get_doc_freq, _load_lexicon. simpl.
  by rewrite !lookup_insert_ne, lookup_empty.
Qed.

Lemma ln_3_2_pos : (0 < ln (3 / 2))%R.
Proof. rewrite <-ln_1. apply ln_increasing; lra. Qed.

Lemma example_dog_docs (query : string) (d : Z) :
  dog_query query →
  d ∈ ({[0%Z; 1%Z]} : gset Z)
  ↔ in_all_postings example_index (_parse_query query) d.
Proof.
  intros [Hne Hdog]. unfold in_all_postings. split.
  - intros Hd t ->%Hdog. exists dog_postings. split; [done|].
    simpl. set_solver.
  - intros Hall. destruct (_parse_query query) as [|t terms]; [done|].
    destruct (Hall t) as (ps & Hps & Hd); [by left|].
    rewrite (Hdog t) in Hps by (by left).
    rewrite example_dog in Hps. simplify_eq. simpl in Hd. set_solver.
Qed.

Lemma example_dog_nonempty (query : string) (t : string) :
  dog_query query →
  t ∈ _parse_query query →
  ∃ ps, get_postings example_index t = Some ps ∧ ps ≠ [].
Proof.
  intros [_ Hdog] ->%Hdog. exists dog_postings.
  split; [apply example_dog|done].
Qed.

Lemma dog_query_dog : dog_query "dog".
Proof. split; [done|]. by intros t ->%list_elem_of_singleton. Qed.

Lemma dog_query_dog_dog : dog_query "dog dog".
Proof.
  split; [done|]. change (_parse_query "dog dog") with ["dog"; "dog"]%string.
  intros t Ht. set_solver.
Qed.

Lemma contribution_dog0 : contribution example_index "dog" 0 = (2 * ln (3 / 2))%R.
Proof.
  unfold contribution. rewrite example_dog, example_idf_dog.
  change (posting_map dog_postings !! 0%Z)
    with (Some {| doc_id := 0; weighted_tf := 2; raw_tf := 2; avg_position := 1 |}).
  change (get_doc_length example_index 0) with 1%R. simpl.
  rewrite Rltb_true by lra. rewrite sqrt_1. lra.
Qed.

Lemma contribution_dog1 : contribution example_index "dog" 1 = (1 * ln (3 / 2))%R.
Proof.
  unfold contribution. rewrite example_dog, example_idf_dog.
  change (posting_map dog_postings !! 1%Z)
    with (Some {| doc_id := 1; weighted_tf := 1; raw_tf := 1; avg_position := 1 |}).
  change (get_doc_length example_index 1) with 1%R. simpl.
  rewrite Rltb_true by lra. rewrite sqrt_1. lra.
Qed.

(** The two documents with "dog", ranked: document 0 scores higher. *)
Lemma example_dog_ranked :
  Py.list_sort_reverse Py.Rltb score
    (map (result_of example_index ["dog"%string])
         (filter (has_url example_index) (elements ({[0%Z; 1%Z]} : gset Z))))
  = [result_of example_index ["dog"%string] 0;
     result_of example_index ["dog"%string] 1].
Proof.
  change (elements _) with [1%Z; 0%Z].
  change (filter _ _) with [1%Z; 0%Z].
  unfold Py.list_sort_reverse. simpl.
  rewrite contribution_dog0, contribution_dog1.
  rewrite Rltb_true by (pose proof ln_3_2_pos; lra).
  reflexivity.
Qed.

Lemma example_search_dog (top_k : Z) :
  search example_index "dog" top_k
  = Some (Py.slice_to [result_of example_index ["dog"%string] 0;
                       result_of example_index ["dog"%string] 1] top_k).
Proof.
  rewrite (search_eval _ _ _ {[0%Z; 1%Z]}).
  - change (_parse_query "dog") with ["dog"%string]. unfold ranking.
    by rewrite example_dog_ranked.
  - done.
  - intros t. apply example_dog_nonempty, dog_query_dog.
  - apply example_idf_defined.
  - intros d. apply example_dog_docs, dog_query_dog.
Qed.

Lemma example_search_dog_dog :
  search example_index "dog dog" 5
  = Some (ranking example_index (_parse_query "dog dog") {[0%Z; 1%Z]} 5).
Proof.
  apply search_eval.
  - done.
  - intros t. apply example_dog_nonempty, dog_query_dog_dog.
  - apply example_idf_defined.
  - intros d. apply example_dog_docs, dog_query_dog_dog.
Qed.

Lemma example_cat_docs (d : Z) :
  d ∈ ({[0%Z; 1%Z; 2%Z]} : gset Z)
  ↔ in_all_postings example_index (_parse_query "cat") d.
Proof.
  change (_parse_query "cat") with ["cat"%string]. unfold in_all_postings. split.
  - intros Hd t ->%list_elem_of_singleton. exists cat_postings. split; [done|].
    simpl. set_solver.
  - intros Hall. destruct (Hall "cat"%string) as (ps & Hps & Hd); [by left|].
    rewrite example_cat in Hps. simplify_eq. simpl in Hd. set_solver.
Qed.

Lemma example_search_cat :
  search example_index "cat" 5
  = Some (ranking example_index (_parse_query "cat") {[0%Z; 1%Z; 2%Z]} 5).
Proof.
  apply search_eval.
  - done.
  - intros t ->%list_elem_of_singleton. exists cat_postings.
    split; [apply example_cat|done].
  - apply example_idf_defined.
  - apply example_cat_docs.
Qed.

(** ** The example corpus *)

Lemma corpus_files : _iter_corpus_files corpus_root = files.
Proof. reflexivity. Qed.

Lemma plain_log_defined_a : log_defined (parse_text "cat dog dog").
Proof.
  intros item Hitem.
  change (parse_text "cat dog dog")
    with [("cat"%string, {| ts_weighted_tf := 0 + 1; ts_raw_tf := 1; positions := [1%Z] |});
          ("dog"%string, {| ts_weighted_tf := 0 + 1 + 1; ts_raw_tf := 2;
                            positions := [2%Z; 3%Z] |})] in Hitem.
  repeat (apply elem_of_cons in Hitem as [->|Hitem]; [simpl; lra|]). inv Hitem.
Qed.

Lemma plain_log_defined_b : log_defined (parse_text "cat dog").
Proof.
  intros item Hitem.
  change (parse_text "cat dog")
    with [("cat"%string, {| ts_weighted_tf := 0 + 1; ts_raw_tf := 1; positions := [1%Z] |});
          ("dog"%string, {| ts_weighted_tf := 0 + 1; ts_raw_tf := 1;
                            positions := [2%Z] |})] in Hitem.
  repeat (apply elem_of_cons in Hitem as [->|Hitem]; [simpl; lra|]). inv Hitem.
Qed.

(** The run of the loop of [build] on the corpus. *)
Lemma corpus_build : build_loop files = Some final.
Proof.
  unfold build_loop, files.
  change (Py.for_each build_step start [file_1; file_2; file_3; file_x])
    with (s1 ← build_step start file_1;
          s2 ← build_step s1 file_2;
          s3 ← build_step s2 file_3;
          s4 ← build_step s3 file_x; Some s4).
  rewrite (build_step_new start file_1 page_a "http://a").
  2-4: done.
  2: apply plain_log_defined_a.
  cbn [mbind option_bind].
  rewrite (build_step_duplicate _ file_2 page_a_again "http://a").
  2-3: done.
  2: { simpl. rewrite lookup_insert_eq. by eexists. }
  cbn [mbind option_bind].
  rewrite build_step_unreadable by done.
  cbn [mbind option_bind].
  rewrite (build_step_new _ file_x page_b "http://b").
  2-3: done.
  2: { simpl. by rewrite lookup_insert_ne, lookup_empty. }
  2: apply plain_log_defined_b.
  reflexivity.
Qed.

(** The postings accumulated for "dog" and for "cat" in the example. *)
Lemma corpus_dog_postings :
  _postings (self final) !! "dog"%string
  = Some [posting_of 0 dog_twice; posting_of 1 dog_second].
Proof. reflexivity. Qed.

Lemma corpus_cat_postings :
  _postings (self final) !! "cat"%string
  = Some [posting_of 0 cat_first; posting_of 1 cat_first].
Proof. reflexivity. Qed.

End Examples.

(** * The parser *)

Section ParserFacts.
Context `{Collaborators}.
Import DocumentParser.

Lemma record_token_keys (t : string) (boost : R) (position : Z)
      (stats : list (string * TokenStats)) :
  (Plain.record_token t boost position stats).*1
  = if decide (t ∈ stats.*1) then stats.*1 else stats.*1 ++ [t].
Proof.
  induction stats as [|[k e] stats IH].
  - simpl. destruct (decide (t ∈ [])) as [Hin|]; [inv Hin|done].
  - cbn [Plain.record_token].
    destruct (decide (k = t)) as [->|Hne].
    + destruct (decide (t ∈ ((t, e) :: stats).*1)) as [|Hnin]; [done|].
      exfalso. apply Hnin. by left.
    + rewrite fmap_cons, IH.
      destruct (decide (t ∈ stats.*1)) as [Hin|Hnin];
        destruct (decide (t ∈ ((k, e) :: stats).*1)) as [Hin'|Hnin']; try done.
      * exfalso. apply Hnin'. by right.
      * apply elem_of_cons in Hin' as [?|?]; [simpl in *; congruence|done].
Qed.

(** The entries after [record_token]: the entry of the token is new or
    updated, the others are kept. *)
Lemma elem_of_record_token (t : string) (boost : R) (position : Z)
      (stats : list (string * TokenStats)) (k : string) (s : TokenStats) :
  NoDup stats.*1 →
  (k, s) ∈ Plain.record_token t boost position stats ↔
  (k ≠ t ∧ (k, s) ∈ stats) ∨
  (k = t ∧
   (((t ∉ stats.*1) ∧
     s = {| ts_weighted_tf := 0 + boost; ts_raw_tf := 0 + 1;
            positions := [position] |}) ∨
    (∃ e, (t, e) ∈ stats ∧
          s = {| ts_weighted_tf := ts_weighted_tf e + boost;
                 ts_raw_tf := ts_raw_tf e + 1;
                 positions := positions e ++ [position] |}))).
Proof.
  assert (∀ (l : list (string * TokenStats)) k e, (k, e) ∈ l → k ∈ l.*1) as Hkey.
  { intros l k' e Hin. apply list_elem_of_fmap. by exists (k', e). }
  induction stats as [|[k0 e0] stats IH]; intros Hnodup.
  - cbn [Plain.record_token]. rewrite list_elem_of_singleton.
    split; [|set_solver]. intros [= -> ->]. right. split; [done|]. left.
    split; [|done]. by intros Hin; inv Hin.
  - apply NoDup_cons in Hnodup as [Hnotin Hnodup].
    cbn [Plain.record_token]. rewrite fmap_cons. cbn [fst].
    destruct (decide (k0 = t)) as [->|Hne].
    + rewrite !elem_of_cons. split.
      * intros [Heq|Hin].
        -- inversion Heq; subst. right. split; [done|]. right. exists e0.
           split; [by left|done].
        -- left. split; [|by right]. intros ->. apply Hnotin. by eapply Hkey.
      * intros [[Hk [Heq|Hin]]|[-> [[Hnin ->]|(e & [Heq|Hin]%elem_of_cons & ->)]]].
        -- by inversion Heq.
        -- by right.
        -- exfalso. apply Hnin. by left.
        -- inversion Heq; subst. by left.
        -- exfalso. apply Hnotin. by eapply Hkey.
    + rewrite !elem_of_cons, IH by done. split.
      * intros [Heq|[[Hk Hin]|[-> [[Hnin ->]|(e & Hin & ->)]]]].
        -- inversion Heq; subst. left. split; [done|by left].
        -- left. split; [done|by right].
        -- right. split; [done|]. left. split; [|done].
           intros [?|?]; [congruence|done].
        -- right. split; [done|]. right. exists e. split; [by right|done].
      * intros [[Hk [Heq|Hin]]|[-> [[Hnin ->]|(e & [Heq|Hin]%elem_of_cons & ->)]]].
        -- by left.
        -- right. left. done.
        -- right. right. split; [done|]. left. split; [|done].
           intros Hin. apply Hnin. by right.
        -- inversion Heq; congruence.
        -- right. right. split; [done|]. right. by exists e.
Qed.

(** One token keeps the invariant of the parser, for a boost between 1
    and 4. *)
Lemma parser_invariant_token (t : string) (boost : R)
      (stats : list (string * TokenStats)) (position : Z) :
  (1 <= boost <= 4)%R →
  parser_invariant (stats, position) →
  parser_invariant (Plain.record_token t boost (position + 1) stats, (position + 1)%Z).
Proof.
  intros Hboost [Hkeys Hpos Hentry Hcover Hunique]. simpl in *.
  assert (∀ k e, (k, e) ∈ stats → k ∈ stats.*1) as Hkey.
  { intros k e Hin. apply list_elem_of_fmap. by exists (k, e). }
  assert (∀ k e, (k, e) ∈ stats → ¬ (position + 1)%Z ∈ positions e) as Hfresh.
  { intros k e Hin Hp. destruct (Hentry k e Hin) as (_ & _ & _ & Hbound & _).
    rewrite Forall_forall in Hbound. specialize (Hbound _ Hp). lia. }
  (* where a position of an entry of the new dict comes from *)
  assert (∀ k s p, (k, s) ∈ Plain.record_token t boost (position + 1) stats →
                   p ∈ positions s →
                   (p = (position + 1)%Z ∧ k = t) ∨
                   (∃ e, (k, e) ∈ stats ∧ p ∈ positions e)) as Horigin.
  { intros k s p Hin Hp. apply elem_of_record_token in Hin; [|done].
    destruct Hin as [[Hk Hin]|[-> [[Hnin ->]|(e & Hin & ->)]]].
    - right. by exists s.
    - left. simpl in Hp. apply list_elem_of_singleton in Hp. done.
    - simpl in Hp. apply elem_of_app in Hp as [Hp|Hp%list_elem_of_singleton].
      + right. by exists e.
      + by left. }
  split; simpl.
  - rewrite record_token_keys. destruct (decide (t ∈ stats.*1)); [done|].
    apply NoDup_app. split_and!; [done| |apply NoDup_singleton].
    intros k Hk ->%list_elem_of_singleton. done.
  - lia.
  - intros k s Hin. apply elem_of_record_token in Hin; [|done].
    destruct Hin as [[Hk Hin]|[-> [[Hnin ->]|(e & Hin & ->)]]].
    + destruct (Hentry k s Hin) as (Hraw & Hne & Hsorted & Hbound & Hweight).
      split_and!; try done; try lra.
      eapply Forall_impl; [exact Hbound|]. simpl. intros p Hp. lia.
    + simpl. change (IZR (0 + 1)) with 1%R.
      split_and!; try done; try lra; [repeat constructor|].
      apply Forall_singleton. lia.
    + destruct (Hentry t e Hin) as (Hraw & Hne & Hsorted & Hbound & Hweight).
      simpl. rewrite plus_IZR. split_and!; try lra.
      * rewrite length_app, Hraw. simpl. lia.
      * by destruct (positions e).
      * apply StronglySorted_app_2; [|done|repeat constructor].
        intros p q Hp ->%list_elem_of_singleton.
        rewrite Forall_forall in Hbound. specialize (Hbound _ Hp). lia.
      * apply Forall_app. split; [|apply Forall_singleton; lia].
        eapply Forall_impl; [exact Hbound|]. simpl. intros p Hp. lia.
  - intros p Hp. destruct (decide (p = (position + 1)%Z)) as [->|Hne].
    + destruct (decide (t ∈ stats.*1)) as [Hin|Hnin].
      * apply list_elem_of_fmap in Hin as ([k e] & -> & Hin). simpl.
        eexists k, _. split.
        -- apply elem_of_record_token; [done|]. right. split; [done|].
           right. by exists e.
        -- simpl. apply elem_of_app. right. by left.
      * eexists t, _. split.
        -- apply elem_of_record_token; [done|]. right. split; [done|]. by left.
        -- by left.
    + destruct (Hcover p) as (k & e & Hin & Hpe); [lia|].
      destruct (decide (k = t)) as [->|Hk].
      * eexists t, _. split.
        -- apply elem_of_record_token; [done|]. right. split; [done|].
           right. by exists e.
        -- simpl. apply elem_of_app. by left.
      * exists k, e. split; [|done].
        apply elem_of_record_token; [done|]. by left.
  - intros k1 s1 k2 s2 p Hin1 Hin2 Hp1 Hp2.
    destruct (Horigin k1 s1 p Hin1 Hp1) as [[Hp ->]|(e1 & He1 & Hpe1)],
             (Horigin k2 s2 p Hin2 Hp2) as [[Hp' ->]|(e2 & He2 & Hpe2)].
    + done.
    + subst p. by destruct (Hfresh k2 e2 He2).
    + subst p. by destruct (Hfresh k1 e1 He1).
    + by eapply Hunique.
Qed.

Lemma process_text_invariant (text : string) (boost : R)
      (st : list (string * TokenStats) * Z) :
  (1 <= boost <= 4)%R →
  parser_invariant st → parser_invariant (process_text text boost st).
Proof.
  intros Hboost. unfold process_text. revert st.
  induction (_tokenize text) as [|token tokens IH]; intros [stats position] Hinv;
    [done|].
  simpl. apply IH. by apply parser_invariant_token.
Qed.

(** The invariant holds of the dict that [parse] returns. *)
Lemma parse_invariant (soup : Soup) : parser_invariant (parse_loops soup).
Proof.
  unfold parse_loops.
  assert (∀ texts st, parser_invariant st →
            parser_invariant
              (foldl (λ st '(parent_name, element),
                        if hidden parent_name then st
                        else process_text element BASE_WEIGHT st) st texts))
    as Hvisible.
  { induction texts as [|[parent_name element] texts IH]; intros st Hinv; [done|].
    simpl. apply IH. destruct (hidden parent_name); [done|].
    apply process_text_invariant; [unfold BASE_WEIGHT; lra|done]. }
  assert (∀ weight texts st, (1 <= weight <= 4)%R → parser_invariant st →
            parser_invariant
              (foldl (λ st text, process_text text weight st) st texts))
    as Htag.
  { intros weight. induction texts as [|text texts IH]; intros st Hw Hinv; [done|].
    simpl. apply IH; [done|]. by apply process_text_invariant. }
  assert (∀ weights st,
            Forall (λ tw : string * R, (1 <= tw.2 <= 4)%R) weights →
            parser_invariant st →
            parser_invariant
              (foldl (λ st '(tag, weight),
                        foldl (λ st text, process_text text weight st) st
                              (find_all soup tag)) st weights))
    as Htags.
  { induction weights as [|[tag weight] weights IH]; intros st Hw Hinv; [done|].
    apply Forall_cons in Hw as [Hw Hws]. simpl. apply IH; [done|].
    by apply Htag. }
  apply Htags.
  - unfold IMPORTANT_WEIGHTS. repeat (apply Forall_cons; split; [simpl; lra|]).
    apply Forall_nil_2.
  - apply Hvisible. split; simpl.
    + apply NoDup_nil_2.
    + done.
    + intros t s Hin. inv Hin.
    + intros p Hp. lia.
    + intros t1 s1 t2 s2 p Hin. inv Hin.
Qed.

End ParserFacts.

(** [math.log] is defined on the weights that [DocumentParser.parse]
    computes. *)
Lemma parse_log_defined `{Collaborators} (soup : DocumentParser.Soup) :
  log_defined (DocumentParser.parse soup).
Proof.
  intros [t s] Hin. destruct (parse_invariant soup) as [_ _ Hentry _ _].
  destruct (Hentry t s Hin) as (Hraw & Hne & _ & _ & Hweight).
  assert (1 <= IZR (ts_raw_tf s))%R; [|simpl; lra].
  apply IZR_le. rewrite Hraw. destruct (positions s); [done|simpl; lia].
Qed.

(** The parser records a position with every occurrence: no entry of
    the dict has an empty sequence of positions. *)
Lemma parse_positions_nonempty `{Collaborators} (soup : DocumentParser.Soup)
      (t : string) (s : TokenStats) :
  (t, s) ∈ DocumentParser.parse soup → positions s ≠ [].
Proof.
  intros Hin. destruct (parse_invariant soup) as [_ _ Hentry _ _].
  by destruct (Hentry t s Hin) as (_ & Hne & _).
Qed.

(** The run of the loop of [build] on the example corpus with the
    parser of [parser.py]. *)
Lemma corpus_build_parsed :
  @IndexBuilder.build_loop Page.collaborators Corpus.files = Some Corpus.final.
Proof.
  unfold IndexBuilder.build_loop, Corpus.files.
  change (Py.for_each ?f IndexBuilder.start
            [Corpus.file_1; Corpus.file_2; Corpus.file_3; Corpus.file_x])
    with (s1 ← f IndexBuilder.start Corpus.file_1;
          s2 ← f s1 Corpus.file_2;
          s3 ← f s2 Corpus.file_3;
          s4 ← f s3 Corpus.file_x; Some s4).
  rewrite (@build_step_new Page.collaborators IndexBuilder.start Corpus.file_1
             Corpus.page_a "http://a").
  2-4: done.
  2: apply (@parse_log_defined Plain.collaborators).
  cbn [mbind option_bind].
  rewrite (@build_step_duplicate Page.collaborators _ Corpus.file_2
             Corpus.page_a_again "http://a").
  2-3: done.
  2: { simpl. rewrite lookup_insert_eq. by eexists. }
  cbn [mbind option_bind].
  rewrite (@build_step_unreadable Page.collaborators) by done.
  cbn [mbind option_bind].
  rewrite (@build_step_new Page.collaborators _ Corpus.file_x Corpus.page_b "http://b").
  2-3: done.
  2: { simpl. by rewrite lookup_insert_ne, lookup_empty. }
  2: apply (@parse_log_defined Plain.collaborators).
  reflexivity.
Qed.

(** * The claims *)

(** ** C1: boolean AND *)

Section C1.
Import IndexBuilder IndexReader SearchEngine Plain Corpus.

(** C1, as amended.  [search] returns whenever the postings of the query
    terms can be read and their idf is defined, and then: every
    document in the results occurs in the postings of every query term
    and has a non-empty URL; when every term has postings and at most
    [top_k] documents occur in all of them, every such document with a
    URL is in the results; and a query with a term without postings
    returns the empty list. *)
Theorem C1_results_within_intersection `{Collaborators}
        (index_dir : IndexDir) (query : string) (top_k : Z) :
  readable index_dir (_parse_query query) →
  idf_defined index_dir (_parse_query query) →
  ∃ results,
    search index_dir query top_k = Some results ∧
    (∀ d, d ∈ map res_doc_id results →
          in_all_postings index_dir (_parse_query query) d ∧ has_url index_dir d) ∧
    (_parse_query query ≠ [] →
     (∀ t, t ∈ _parse_query query → get_postings index_dir t ≠ Some []) →
     (∀ ds, NoDup ds → Forall (in_all_postings index_dir (_parse_query query)) ds →
            (Z.of_nat (length ds) ≤ top_k)%Z) →
     ∀ d, in_all_postings index_dir (_parse_query query) d → has_url index_dir d →
          d ∈ map res_doc_id results) ∧
    ((∃ t, t ∈ _parse_query query ∧ get_postings index_dir t = Some []) →
     results = []).
Proof.
  intros Hread Hidf.
  destruct (search_returns index_dir query top_k Hread Hidf) as [results Hres].
  exists results. split; [done|].
  pose proof (search_run index_dir query top_k) as Hrun. rewrite Hres in Hrun.
  split_and!.
  - intros d Hd.
    destruct Hrun as [[_ ->]|[[_ ->]|(_ & _ & X & HX & _ & ->)]]; [inv Hd..|].
    apply list_elem_of_fmap in Hd as (r & -> & Hr).
    apply elem_of_ranking in Hr as (Hcand & Hurl & _).
    split; [by apply HX|done].
  - intros Hne Hnonempty Hbound d Hd Hurl.
    destruct Hrun as [[Hnil _]|[[(t & Ht & Hempty) _]|(_ & _ & X & HX & _ & ->)]].
    + done.
    + by destruct (Hnonempty t Ht).
    + apply list_elem_of_fmap. exists (result_of index_dir (_parse_query query) d).
      split; [done|]. apply ranking_complete; [|by apply HX|done].
      apply size_bound. intros ds Hnodup Hds. apply Hbound; [done|].
      eapply Forall_impl; [exact Hds|]. intros d'. apply HX.
  - intros (t & Ht & Hempty).
    rewrite (search_no_postings index_dir query top_k t) in Hres by done.
    by simplify_eq.
Qed.

Existing Instance Plain.collaborators.

(** C1 at the example index.  The query "dog" with [top_k = 5]: the two
    documents of the intersection have a URL and [top_k] is large enough,
    so the documents of the results are those of the intersection.  The
    query "zebra": the term has no postings and nothing is returned. *)
Lemma C1_witness :
  (∃ results,
     search example_index "dog" 5 = Some results ∧
     ∀ d, d ∈ map res_doc_id results
          ↔ in_all_postings example_index (_parse_query "dog") d) ∧
  (∃ results, search example_index "zebra" 5 = Some results ∧ results = []).
Proof.
  split.
  - destruct (C1_results_within_intersection example_index "dog" 5
                (example_readable _) (example_idf_defined _))
      as (results & Hres & Hsub & Hsup & _).
    exists results. split; [exact Hres|].
    intros d. split; [intros Hd; apply (Hsub d Hd)|].
    intros Hd. apply Hsup.
    + discriminate.
    + intros t Ht Hempty.
      destruct (example_dog_nonempty "dog" t dog_query_dog Ht) as (ps & Hps & Hne).
      congruence.
    + intros ds Hnodup Hall.
      assert (length ds ≤ size ({[0%Z; 1%Z]} : gset Z))%nat as Hle.
      { apply NoDup_length_le_size; [exact Hnodup|].
        intros d' Hd'. apply (example_dog_docs "dog" d' dog_query_dog).
        rewrite Forall_forall in Hall. by apply Hall. }
      change (size ({[0%Z; 1%Z]} : gset Z)) with 2%nat in Hle. lia.
    + exact Hd.
    + apply (example_dog_docs "dog" d dog_query_dog) in Hd.
      apply elem_of_union in Hd as [Hd|Hd]; apply elem_of_singleton in Hd; subst d.
      * exists "http://a"%string. split; [reflexivity|discriminate].
      * exists "http://b"%string. split; [reflexivity|discriminate].
  - destruct (C1_results_within_intersection example_index "zebra" 5
                (example_readable _) (example_idf_defined _))
      as (results & Hres & _ & _ & Hempty).
    exists results. split; [exact Hres|].
    apply Hempty. exists "zebra"%string. split; [by left|apply example_zebra].
Defined.

(** C1 as stated fails: "dog" has postings for documents 0 and 1, both
    with a URL, and [search] with [top_k = 1] returns document 0 only, so
    the documents of the results are not the whole intersection. *)
Lemma C1_counterexample :
  search example_index "dog" 1
    = Some [result_of example_index ["dog"%string] 0] ∧
  (∀ t, t ∈ _parse_query "dog" →
        ∃ ps, get_postings example_index t = Some ps ∧ ps ≠ []) ∧
  ¬ (∀ d, d ∈ map res_doc_id [result_of example_index ["dog"%string] 0]
          ↔ in_all_postings example_index (_parse_query "dog") d).
Proof.
  split_and!.
  - by rewrite example_search_dog.
  - intros t. apply example_dog_nonempty, dog_query_dog.
  - intros Hiff. specialize (Hiff 1%Z).
    rewrite <-(example_dog_docs "dog") in Hiff by apply dog_query_dog.
    simpl in Hiff. set_solver.
Qed.

End C1.

(** ** C2: the round trip through the index files *)

Section C2.
Import IndexBuilder IndexReader SearchEngine Plain Corpus.

(** C2.  For a term with accumulated postings whose JSON text is one line
    that [json.loads] decodes back: the written lexicon has a record for
    the term; the slice of [postings.jsonl] at the recorded offset and
    length is that line; [get_postings] returns the accumulated postings
    sorted by ascending [doc_id]; and [doc_freq] is their number.  The
    terms of the lexicon are the terms of the accumulator. *)
Theorem C2_round_trip `{Collaborators} (b : t) (t0 : string) (ps : list Posting) :
  _postings b !! t0 = Some ps →
  (∀ c, c ∈ json_dumps (Py.list_sort Z.ltb doc_id ps) → Py.is_newline c = false) →
  json_loads (json_dumps (Py.list_sort Z.ltb doc_id ps))
  = Some (Py.list_sort Z.ltb doc_id ps) →
  (∃ e, _load_lexicon (write b) !! t0 = Some e ∧
        term e = t0 ∧
        take (Z.to_nat (length_ e))
             (drop (Z.to_nat (offset e)) (postings_jsonl (write b)))
        = json_dumps (Py.list_sort Z.ltb doc_id ps) ++ [Py.LF] ∧
        get_postings (write b) t0 = Some (Py.list_sort Z.ltb doc_id ps) ∧
        Py.list_sort Z.ltb doc_id ps ≡ₚ ps ∧
        StronglySorted (λ p q, (doc_id p ≤ doc_id q)%Z)
                       (Py.list_sort Z.ltb doc_id ps) ∧
        doc_freq e = Z.of_nat (length (Py.list_sort Z.ltb doc_id ps))) ∧
  (∀ t', is_Some (_load_lexicon (write b) !! t') ↔ is_Some (_postings b !! t')).
Proof.
  intros Hps Hline Hloads. split.
  - pose proof (written_lexicon b t0) as Hlex.
    destruct (_load_lexicon (write b) !! t0) as [e|] eqn:He; [|congruence].
    destruct Hlex as (_ & Hterm & Hoff & Hdf & Hlen & rest & Hdrop).
    unfold block_of, sorted_postings in *. rewrite Hterm, Hps in *. simpl in *.
    exists e. split_and!; [done..| | | | |done].
    + rewrite Hdrop, Hlen, Nat2Z.id. by rewrite take_app_length.
    + unfold get_postings. rewrite He. unfold Py.seek.
      rewrite (proj2 (Z.ltb_ge _ _)) by done. simpl.
      rewrite Hdrop, <-app_assoc. simpl.
      by rewrite readline_block, rstrip_block.
    + apply list_sort_Permutation.
    + eapply StronglySorted_impl;
        [|apply (list_sort_StronglySorted Z.ltb doc_id)].
      * intros p q Hpq. unfold key_le in Hpq. lia.
      * intros x y Hxy. lia.
      * intros x y z Hxy Hyz. lia.
  - intros t'. pose proof (written_lexicon b t') as Hlex.
    destruct (_load_lexicon (write b) !! t') as [e|].
    + destruct Hlex as [Hsome _]. split; [done|by eexists].
    + rewrite Hlex. split; by intros [? ?].
Qed.

Existing Instance Plain.collaborators.

(** C2 at the example corpus and the term "cat". *)
Lemma C2_witness :
  get_postings (write (self final)) "cat"
  = Some (Py.list_sort Z.ltb doc_id [posting_of 0 cat_first; posting_of 1 cat_first]).
Proof.
  destruct (C2_round_trip (self final) "cat" _ corpus_cat_postings)
    as [(e & _ & _ & _ & Hget & _) _]; [| |exact Hget].
  - intros c Hc.
    change (json_dumps _) with (list_ascii_of_string "[0111]") in Hc.
    simpl in Hc.
    repeat (apply elem_of_cons in Hc as [->|Hc]; [reflexivity|]). inv Hc.
  - change (json_dumps _) with (list_ascii_of_string "[0111]").
    change (json_loads _)
      with (Some [ {| doc_id := 0; weighted_tf := 1; raw_tf := 1; avg_position := 1 |};
                   {| doc_id := 1; weighted_tf := 1; raw_tf := 1; avg_position := 1 |} ]).
    change (Py.list_sort Z.ltb doc_id _)
      with [ {| doc_id := 0; weighted_tf := 0 + 1; raw_tf := 1;
                avg_position := _average [1%Z] |};
             {| doc_id := 1; weighted_tf := 0 + 1; raw_tf := 1;
                avg_position := _average [1%Z] |} ].
    assert (_average [1%Z] = 1%R) as ->.
    { rewrite average_mean by done.
      change (mean [1%Z]) with (1 / 1)%R. lra. }
    by rewrite Rplus_0_l.
Defined.

End C2.

(** ** C3: the top-K bound *)

Section C3.
Import IndexBuilder IndexReader SearchEngine Plain Corpus.

(** C3, as amended.  [search] returns whenever the postings of the query
    terms can be read and their idf is defined; whatever it returns is
    in non-increasing order of score, for every [top_k]; it has at most
    [top_k] results when [top_k] is not negative, and none when [top_k]
    is 0. *)
Theorem C3_top_k_bound `{Collaborators}
        (index_dir : IndexDir) (query : string) (top_k : Z) :
  (readable index_dir (_parse_query query) →
   idf_defined index_dir (_parse_query query) →
   is_Some (search index_dir query top_k)) ∧
  (∀ results,
     search index_dir query top_k = Some results →
     StronglySorted (λ a b, (score b <= score a)%R) results ∧
     ((0 ≤ top_k)%Z → (Z.of_nat (length results) ≤ top_k)%Z) ∧
     (top_k = 0%Z → results = [])).
Proof.
  split; [apply search_returns|].
  intros results Hres.
  pose proof (search_run index_dir query top_k) as Hrun. rewrite Hres in Hrun.
  assert (StronglySorted (λ a b, (score b <= score a)%R) results ∧
          ((0 ≤ top_k)%Z → (Z.of_nat (length results) ≤ top_k)%Z)) as [Hsorted Hlen].
  { destruct Hrun as [[_ ->]|[[_ ->]|(_ & _ & X & _ & _ & ->)]].
    - split; [constructor|simpl; lia].
    - split; [constructor|simpl; lia].
    - split; [apply ranking_sorted|apply ranking_length]. }
  split_and!; [done..|].
  intros ->. destruct results; [done|]. simpl in Hlen. lia.
Qed.

Existing Instance Plain.collaborators.

(** C3 at the example index and the query "dog": [search] returns; with
    [top_k = 5] the two results are in non-increasing order of score and
    no more than 5; with [top_k = 0] nothing is returned. *)
Lemma C3_witness :
  is_Some (search example_index "dog" 5) ∧
  StronglySorted (λ a b, (score b <= score a)%R)
    (Py.slice_to [result_of example_index ["dog"%string] 0;
                  result_of example_index ["dog"%string] 1] 5) ∧
  (Z.of_nat (length (Py.slice_to [result_of example_index ["dog"%string] 0;
                                  result_of example_index ["dog"%string] 1] 5)) ≤ 5)%Z ∧
  Py.slice_to [result_of example_index ["dog"%string] 0;
               result_of example_index ["dog"%string] 1] 0 = [].
Proof.
  destruct (C3_top_k_bound example_index "dog" 5) as [Hsome Hres].
  destruct (Hres _ (example_search_dog 5)) as (Hsorted & Hlen & _).
  destruct (C3_top_k_bound example_index "dog" 0) as [_ Hres0].
  destruct (Hres0 _ (example_search_dog 0)) as (_ & _ & Hzero).
  split_and!.
  - apply Hsome; [apply example_readable|apply example_idf_defined].
  - exact Hsorted.
  - apply Hlen. lia.
  - apply Hzero. reflexivity.
Defined.

(** C3 as stated fails for a negative [top_k]: with [top_k = -1] the
    slice drops the last of the two results for "dog" and one result is
    returned, more than [max(top_k, 0) = 0]. *)
Lemma C3_counterexample :
  search example_index "dog" (-1)
    = Some [result_of example_index ["dog"%string] 0] ∧
  ¬ (Z.of_nat (length [result_of example_index ["dog"%string] 0])
     ≤ Z.max (-1) 0)%Z.
Proof.
  split.
  - by rewrite example_search_dog.
  - simpl. lia.
Qed.

End C3.

(** ** C4: the idf *)

Section C4.
Import IndexBuilder IndexReader SearchEngine Plain Corpus.

(** C4.  [compute_idf] is the natural logarithm of the document count over
    the document frequency of the term when both are positive, and 0 for
    a term with document frequency 0.  On the index written after a
    completed [build], a positive document frequency is enough. *)
Theorem C4_compute_idf `{Collaborators} (index_dir : IndexDir) (t0 : string) :
  ((0 < get_doc_freq index_dir t0)%Z →
   (0 < get_num_documents index_dir)%Z →
   compute_idf index_dir t0
   = Some (ln (IZR (get_num_documents index_dir) / IZR (get_doc_freq index_dir t0)))) ∧
  (get_doc_freq index_dir t0 = 0%Z → compute_idf index_dir t0 = Some 0%R) ∧
  (∀ files st,
     build_loop files = Some st →
     index_dir = write (self st) →
     (0 < get_doc_freq index_dir t0)%Z →
     compute_idf index_dir t0
     = Some (ln (IZR (get_num_documents index_dir) / IZR (get_doc_freq index_dir t0)))).
Proof.
  split_and!; [apply compute_idf_seen|apply compute_idf_unseen|].
  intros files st Hrun -> Hdf. apply compute_idf_seen; [done|].
  by eapply built_index_has_documents.
Qed.

Existing Instance Plain.collaborators.

(** C4 at the example index: "dog" is in 2 of the 3 documents, "zebra" in
    none; and at the index written for the example corpus, where "cat" is
    in both documents. *)
Lemma C4_witness :
  compute_idf example_index "dog" = Some (ln (3 / 2)) ∧
  compute_idf example_index "zebra" = Some 0%R ∧
  compute_idf (write (self final)) "cat" = Some (ln (2 / 2)).
Proof.
  split_and!.
  - apply (proj1 (C4_compute_idf example_index "dog")); reflexivity.
  - apply (proj1 (proj2 (C4_compute_idf example_index "zebra"))); reflexivity.
  - apply (proj2 (proj2 (C4_compute_idf (write (self final)) "cat"))
             files final corpus_build); reflexivity.
Defined.

End C4.

(** ** C5: duplicate URLs *)

Section C5.
Import IndexBuilder IndexReader SearchEngine Plain Corpus.

(** C5.  A file whose URL was already loaded from an earlier file is
    skipped: the builder and the next [doc_id] are unchanged and the
    skip counter grows.  When [build] completes, every loaded URL is in
    [doc_lookup] under exactly one [doc_id], the document indexed for it
    is the first payload with that URL, and [num_documents] is the
    number of distinct URLs. *)
Theorem C5_duplicate_urls `{Collaborators} (files : list Node) (st : loop) :
  build_loop files = Some st →
  (∀ file payload u,
     _load_document file = Some payload → payload_url payload = Some u →
     u ∈ loaded_urls files →
     build_loop (files ++ [file])
     = Some {| self := self st; next_doc_id := next_doc_id st;
               files_processed := files_processed st + 1;
               files_skipped := files_skipped st + 1 |}) ∧
  (∀ u, u ∈ loaded_urls files → ∃ d, doc_lookup (self st) !! d = Some u) ∧
  (∀ d1 d2 u, doc_lookup (self st) !! d1 = Some u →
              doc_lookup (self st) !! d2 = Some u → d1 = d2) ∧
  (∀ d u, doc_lookup (self st) !! d = Some u →
          ∃ payload,
            first_with_url files payload ∧ payload_url payload = Some u ∧
            doc_lengths (self st) !! d = Some (doc_length_of (parse (html_of payload))) ∧
            ∀ t ps p, _postings (self st) !! t = Some ps → p ∈ ps → doc_id p = d →
                      ∃ stats, (t, stats) ∈ parse (html_of payload)
                               ∧ p = posting_of d stats) ∧
  num_documents (stats_json (write (self st)))
  = Z.of_nat (length (remove_dups (loaded_urls files))).
Proof.
  intros Hrun. pose proof (build_loop_invariant files st Hrun) as Hinv.
  destruct Hinv. split_and!.
  - intros file payload u Hload Hurl Hu.
    rewrite build_loop_snoc, Hrun. simpl.
    rewrite (build_step_duplicate st file payload u); [done..|].
    apply elem_of_dom. rewrite inv_seen_dom0. by apply elem_of_list_to_set.
  - intros u Hu.
    assert (u ∈ dom (doc_seen_urls (self st))) as [d Hd]%elem_of_dom.
    { rewrite inv_seen_dom0. by apply elem_of_list_to_set. }
    exists d. by apply inv_seen0.
  - intros d1 d2 u Hd1%inv_seen0 Hd2%inv_seen0. congruence.
  - intros d u Hd.
    destruct (inv_docs0 d u Hd) as (payload & Hfirst & Hurl & _ & Hlen & _).
    exists payload. split_and!; [done..|].
    intros t0 ps p Hps Hp Hdoc.
    destruct (inv_postings0 t0 ps p Hps Hp)
      as (u' & payload' & stats & Hd' & Hfirst' & Hurl' & Hin & Hp').
    rewrite Hdoc in Hd', Hp'. rewrite Hd in Hd'. simplify_eq.
    assert (payload' = payload) as ->; [|by exists stats].
    destruct Hfirst as (b1 & f1 & a1 & Hfiles & Hload1 & Hbefore1).
    destruct Hfirst' as (b2 & f2 & a2 & Hfiles' & Hload2 & Hbefore2).
    rewrite Hfiles in Hfiles'.
    assert (length b1 = length b2) as Hlen12.
    { destruct (Nat.lt_trichotomy (length b1) (length b2)) as [Hlt|[?|Hlt]]; [|done|].
      - exfalso. apply (Hbefore2 f1 payload); [|done|congruence].
        apply list_elem_of_lookup. exists (length b1).
        apply (f_equal (λ l, l !! length b1)) in Hfiles'.
        rewrite list_lookup_middle in Hfiles' by done.
        by rewrite lookup_app_l in Hfiles' by done.
      - exfalso. apply (Hbefore1 f2 payload'); [|done|congruence].
        apply list_elem_of_lookup. exists (length b2).
        apply (f_equal (λ l, l !! length b2)) in Hfiles'.
        rewrite (list_lookup_middle b2) in Hfiles' by done.
        by rewrite lookup_app_l in Hfiles' by done. }
    apply app_inj_1 in Hfiles' as [_ Hrest]; [|done]. simplify_eq. congruence.
  - rewrite write_num_documents, <-inv_seen_size0, <-size_list_to_set_remove_dups.
    by rewrite <-inv_seen_dom0, size_dom.
Qed.

Existing Instance Plain.collaborators.

(** C5 at the example corpus: four files, two of them with the URL of
    [page_a], and two documents in the index; one more file with that URL
    is skipped. *)
Lemma C5_witness :
  num_documents (stats_json (write (self final))) = 2%Z ∧
  build_loop (files ++ [file_2])
  = Some {| self := self final; next_doc_id := next_doc_id final;
            files_processed := files_processed final + 1;
            files_skipped := files_skipped final + 1 |} ∧
  ∃ d, doc_lookup (self final) !! d = Some "http://a"%string.
Proof.
  destruct (C5_duplicate_urls files final corpus_build)
    as (Hskip & Hin & _ & _ & Hcount).
  split_and!.
  - exact Hcount.
  - apply (Hskip file_2 page_a_again "http://a"%string); [reflexivity..|].
    left.
  - apply Hin. left.
Defined.

End C5.

(** ** C6: the document length *)

Section C6.
Import IndexBuilder IndexReader SearchEngine Plain Corpus.

(** C6.  When [build] completes, the length stored for every indexed
    document is the sum of [(1 + ln(1 + weighted_tf))²] over the terms of
    the document, floored at [1e-9]; every stored length is at least
    [1e-9], hence positive. *)
Theorem C6_doc_length `{Collaborators} (files : list Node) (st : loop) :
  build_loop files = Some st →
  (∀ d u, doc_lookup (self st) !! d = Some u →
          ∃ payload,
            first_with_url files payload ∧ payload_url payload = Some u ∧
            doc_lengths (self st) !! d
            = Some (Py.max
                      (sum_list (map (λ item, (1 + ln (1 + ts_weighted_tf item.2))²%R)
                                     (parse (html_of payload))))
                      1e-9)) ∧
  (∀ d len, doc_lengths (self st) !! d = Some len → (1e-9 <= len)%R ∧ (0 < len)%R).
Proof.
  intros Hrun. pose proof (build_loop_invariant files st Hrun) as Hinv.
  destruct Hinv. split.
  - intros d u Hd.
    destruct (inv_docs0 d u Hd) as (payload & Hfirst & Hurl & _ & Hlen & _).
    by exists payload.
  - intros d len Hlen.
    destruct (inv_lengths0 d) as [u Hd]; [by eexists|].
    destruct (inv_docs0 d u Hd) as (payload & _ & _ & _ & Hlen' & _).
    rewrite Hlen in Hlen'. simplify_eq.
    pose proof (max_ge_r
                  (sum_list (map (λ item, squared_weight item.2)
                                 (parse (html_of payload)))) 1e-9) as Hge.
    unfold doc_length_of. split; lra.
Qed.

Existing Instance Plain.collaborators.

(** C6 at the example corpus: the length stored for document 0. *)
Lemma C6_witness :
  (∃ payload,
     first_with_url files payload ∧
     payload_url payload = Some "http://a"%string ∧
     doc_lengths (self final) !! 0%Z
     = Some (Py.max
               (sum_list (map (λ item, (1 + ln (1 + ts_weighted_tf item.2))²%R)
                              (parse (html_of payload))))
               1e-9)) ∧
  (1e-9 <= doc_length_of (parse_text "cat dog dog"))%R ∧
  (0 < doc_length_of (parse_text "cat dog dog"))%R.
Proof.
  destruct (C6_doc_length files final corpus_build) as [Hdoc Hpos].
  split.
  - apply (Hdoc 0%Z). reflexivity.
  - apply (Hpos 0%Z). reflexivity.
Defined.

End C6.

(** ** C7: the order of the corpus files *)

Section C7.
Import IndexBuilder IndexReader SearchEngine Plain Corpus.
Existing Instance Plain.collaborators.

(** C7 fails on the code: one folder with the same two files, listed by
    the operating system in two orders.  The files are visited in the
    order of the listing, so the two builds give the documents their
    [doc_id]s in two different ways and write two different
    [doc_lookup]s. *)
Theorem C7_files_in_listing_order :
  iterdir listing_1 = [Directory "a_site" [file_1; file_x]] ∧
  iterdir listing_2 = [Directory "a_site" [file_x; file_1]] ∧
  [file_1; file_x] ≡ₚ [file_x; file_1] ∧
  _iter_corpus_files listing_1 = [file_1; file_x] ∧
  _iter_corpus_files listing_2 = [file_x; file_1] ∧
  ∃ index_1 index_2,
    build listing_1 = Some index_1 ∧
    build listing_2 = Some index_2 ∧
    doc_lookup_json index_1 !! 0%Z = Some "http://a"%string ∧
    doc_lookup_json index_2 !! 0%Z = Some "http://b"%string ∧
    index_1 ≠ index_2.
Proof.
  split_and!; [done|done|apply Permutation_swap|done|done|].
  set (st1 := index_document
                (index_document start "http://a" (parse_text "cat dog dog"))
                "http://b" (parse_text "cat dog")).
  set (st2 := index_document
                (index_document start "http://b" (parse_text "cat dog"))
                "http://a" (parse_text "cat dog dog")).
  assert (build_loop (_iter_corpus_files listing_1) = Some st1) as Hrun1.
  { change (_iter_corpus_files listing_1) with [file_1; file_x].
    unfold build_loop.
    change (Py.for_each build_step start [file_1; file_x])
      with (s1 ← build_step start file_1; s2 ← build_step s1 file_x; Some s2).
    rewrite (build_step_new start file_1 page_a "http://a").
    2-4: done.
    2: apply plain_log_defined_a.
    cbn [mbind option_bind].
    rewrite (build_step_new _ file_x page_b "http://b").
    2-3: done.
    2: { simpl. by rewrite lookup_insert_ne, lookup_empty. }
    2: apply plain_log_defined_b.
    reflexivity. }
  assert (build_loop (_iter_corpus_files listing_2) = Some st2) as Hrun2.
  { change (_iter_corpus_files listing_2) with [file_x; file_1].
    unfold build_loop.
    change (Py.for_each build_step start [file_x; file_1])
      with (s1 ← build_step start file_x; s2 ← build_step s1 file_1; Some s2).
    rewrite (build_step_new start file_x page_b "http://b").
    2-4: done.
    2: apply plain_log_defined_b.
    cbn [mbind option_bind].
    rewrite (build_step_new _ file_1 page_a "http://a").
    2-3: done.
    2: { simpl. by rewrite lookup_insert_ne, lookup_empty. }
    2: apply plain_log_defined_a.
    reflexivity. }
  exists (write (self st1)), (write (self st2)).
  split_and!; [by apply build_Some|by apply build_Some|by rewrite write_doc_lookup..|].
  intros Heq. apply (f_equal (λ index_dir, doc_lookup_json index_dir !! 0%Z)) in Heq.
  by rewrite !write_doc_lookup in Heq.
Qed.

End C7.

(** ** C8: the average position *)

Section C8.
Import IndexBuilder IndexReader SearchEngine Plain Corpus.

(** C8.  With the parser of [parser.py], every posting of the block
    written for a term belongs to that term in an indexed document, the
    parser has recorded at least one position for the term in that
    document, and the [avg_position] of the posting is the arithmetic
    mean of those positions.  The case of an empty sequence of positions
    does not arise for a posting that the builder writes ([_average] of
    an empty sequence is 0.0, but [build] never calls it on one), so the
    value that the claim gives for that case holds of every posting. *)
Theorem C8_avg_position (C : Collaborators)
        (BeautifulSoup : string → DocumentParser.Soup)
        (files : list Node) (st : loop) (t : string)
        (ps : list Posting) (p : Posting) :
  @build_loop (with_parser C BeautifulSoup) files = Some st →
  _postings (self st) !! t = Some ps →
  p ∈ Py.list_sort Z.ltb doc_id ps →
  ∃ payload stats,
    first_with_url files payload ∧
    doc_lookup (self st) !! doc_id p = payload_url payload ∧
    (t, stats) ∈ @DocumentParser.parse C (BeautifulSoup (html_of payload)) ∧
    positions stats ≠ [] ∧
    avg_position p = _average (positions stats) ∧
    avg_position p = mean (positions stats) ∧
    (positions stats = [] → avg_position p = 1%R).
Proof.
  intros Hrun Hps Hp. rewrite list_sort_Permutation in Hp.
  pose proof (@build_loop_invariant (with_parser C BeautifulSoup) files st Hrun)
    as Hinv.
  destruct (@inv_postings (with_parser C BeautifulSoup) files st Hinv t ps p Hps Hp)
    as (u & payload & stats & Hd & Hfirst & Hurl & Hin & Hp').
  change (@parse (with_parser C BeautifulSoup) (html_of payload))
    with (@DocumentParser.parse C (BeautifulSoup (html_of payload))) in Hin.
  pose proof (@parse_positions_nonempty C _ _ _ Hin) as Hne.
  exists payload, stats. split_and!; [done|congruence|done|done|..].
  - by rewrite Hp'.
  - rewrite Hp'. simpl. by apply average_mean.
  - done.
Qed.

(** C8 at the example corpus: the posting of "dog" in document 0, whose
    positions are 2 and 3. *)
Lemma C8_witness :
  ∃ payload stats,
    first_with_url files payload ∧
    doc_lookup (self final) !! 0%Z = payload_url payload ∧
    ("dog"%string, stats)
      ∈ @DocumentParser.parse Plain.collaborators (Page.text_soup (html_of payload)) ∧
    positions stats ≠ [] ∧
    avg_position (posting_of 0 dog_twice) = _average (positions stats) ∧
    avg_position (posting_of 0 dog_twice) = mean (positions stats) ∧
    (positions stats = [] → avg_position (posting_of 0 dog_twice) = 1%R).
Proof.
  apply (C8_avg_position Plain.collaborators Page.text_soup files final "dog" _
           (posting_of 0 dog_twice) corpus_build_parsed corpus_dog_postings).
  rewrite list_sort_Permutation. left.
Defined.

End C8.

(** ** C9: repeated query terms *)

Section C9.
Import IndexBuilder IndexReader SearchEngine Plain Corpus.

(** C9.  [search] scores every candidate document with the sum of the
    tf-idf contributions of the query terms taken with their
    repetitions: the contribution of a term that occurs [n] times in the
    query is counted [n] times.  This holds of the score of every
    result; and when every term of the query has postings and [top_k]
    is at least the number of candidates, [search] returns, for every
    document that occurs in the postings of all the terms and has a
    URL, a result with that score. *)
Theorem C9_repeated_terms `{Collaborators} (index_dir : IndexDir) (query : string)
        (top_k : Z) :
  (∀ results r,
     search index_dir query top_k = Some results → r ∈ results →
     score r
     = sum_list (map (λ t, contribution index_dir t (res_doc_id r))
                     (_parse_query query))
     ∧ score r
       = sum_list (map (λ t, INR (occurrences t (_parse_query query))
                             * contribution index_dir t (res_doc_id r))%R
                       (remove_dups (_parse_query query)))) ∧
  (_parse_query query ≠ [] →
   (∀ t, t ∈ _parse_query query →
         ∃ ps, get_postings index_dir t = Some ps ∧ ps ≠ []) →
   idf_defined index_dir (_parse_query query) →
   (∀ ds, NoDup ds → Forall (in_all_postings index_dir (_parse_query query)) ds →
          (Z.of_nat (length ds) ≤ top_k)%Z) →
   ∃ results,
     search index_dir query top_k = Some results ∧
     ∀ d, in_all_postings index_dir (_parse_query query) d →
          has_url index_dir d →
          ∃ r, r ∈ results ∧ res_doc_id r = d ∧
               score r
               = sum_list (map (λ t, contribution index_dir t d)
                               (_parse_query query)) ∧
               score r
               = sum_list (map (λ t, INR (occurrences t (_parse_query query))
                                     * contribution index_dir t d)%R
                               (remove_dups (_parse_query query)))).
Proof.
  split.
  - intros results r Hres Hr.
    pose proof (search_run index_dir query top_k) as Hrun. rewrite Hres in Hrun.
    destruct Hrun as [[_ ->]|[[_ ->]|(_ & _ & X & _ & _ & ->)]]; [inv Hr..|].
    apply elem_of_ranking in Hr as (_ & _ & Hr).
    rewrite <-sum_by_occurrences. split; by rewrite Hr at 1.
  - intros Hne Hall Hidf Hbound.
    destruct (search_returns index_dir query top_k) as [results Hres]; [|done|].
    { intros t Ht. destruct (Hall t Ht) as (ps & -> & _). by eexists. }
    exists results. split; [done|].
    pose proof (search_run index_dir query top_k) as Hrun. rewrite Hres in Hrun.
    destruct Hrun as [[Hnil _]|[[(t & Ht & Hempty) _]|(_ & _ & X & HX & _ & ->)]].
    + done.
    + destruct (Hall t Ht) as (ps & Hps & Hps'). congruence.
    + intros d Hd Hurl.
      exists (result_of index_dir (_parse_query query) d).
      split_and!; [|done|done|].
      * apply ranking_complete; [|by apply HX|done].
        apply size_bound. intros ds Hnodup Hds. apply Hbound; [done|].
        eapply Forall_impl; [exact Hds|]. intros d'. apply HX.
      * by rewrite <-sum_by_occurrences.
Qed.

Existing Instance Plain.collaborators.

(** C9 at the query "dog dog" on the example index: [search] returns a
    result for document 0, which has "dog" and a URL, and its score is
    twice the contribution of "dog". *)
Lemma C9_witness :
  ∃ results,
    search example_index "dog dog" 5 = Some results ∧
    ∃ r, r ∈ results ∧ res_doc_id r = 0%Z ∧
         score r = (INR 2 * contribution example_index "dog" 0 + 0)%R.
Proof.
  destruct (proj2 (C9_repeated_terms example_index "dog dog" 5))
    as (results & Hres & Hscored).
  - discriminate.
  - intros t. apply example_dog_nonempty, dog_query_dog_dog.
  - apply example_idf_defined.
  - intros ds Hnodup Hall.
    assert (length ds ≤ size ({[0%Z; 1%Z]} : gset Z))%nat as Hle.
    { apply NoDup_length_le_size; [exact Hnodup|].
      intros d' Hd'. apply (example_dog_docs "dog dog" d' dog_query_dog_dog).
      rewrite Forall_forall in Hall. by apply Hall. }
    change (size ({[0%Z; 1%Z]} : gset Z)) with 2%nat in Hle. lia.
  - exists results. split; [exact Hres|].
    destruct (Hscored 0%Z) as (r & Hr & Hd & _ & Hscore).
    + apply (example_dog_docs "dog dog" 0 dog_query_dog_dog). set_solver.
    + exists "http://a"%string. split; [reflexivity|discriminate].
    + exists r. split_and!; [exact Hr|exact Hd|exact Hscore].
Defined.

End C9.

(** ** C10: results without a URL *)

Section C10.
Import IndexBuilder IndexReader SearchEngine Plain Corpus.

(** C10.  A missing or empty URL never makes [search] fail; every result
    carries the non-empty URL that [doc_lookup] gives for its document,
    and a document without a URL, or with an empty one, is in no
    result. *)
Theorem C10_results_have_url `{Collaborators} (index_dir : IndexDir) (query : string)
        (top_k : Z) :
  (readable index_dir (_parse_query query) →
   idf_defined index_dir (_parse_query query) →
   is_Some (search index_dir query top_k)) ∧
  (∀ results,
     search index_dir query top_k = Some results →
     (∀ r, r ∈ results →
           url r ≠ ""%string ∧ get_url index_dir (res_doc_id r) = Some (url r)) ∧
     (∀ d, get_url index_dir d = None ∨ get_url index_dir d = Some ""%string →
           d ∉ map res_doc_id results)).
Proof.
  split; [apply search_returns|].
  intros results Hres.
  pose proof (search_run index_dir query top_k) as Hrun. rewrite Hres in Hrun.
  assert (∀ r, r ∈ results →
               url r ≠ ""%string ∧ get_url index_dir (res_doc_id r) = Some (url r))
    as Hurl.
  { intros r Hr.
    destruct Hrun as [[_ ->]|[[_ ->]|(_ & _ & X & _ & _ & ->)]]; [inv Hr..|].
    apply elem_of_ranking in Hr as (_ & (u & Hu & Hne) & Hr).
    rewrite Hr at 1 3. simpl. by rewrite Hu. }
  split; [done|].
  intros d Hd Hin. apply list_elem_of_fmap in Hin as (r & -> & Hr).
  destruct (Hurl r Hr) as [Hne Hu]. rewrite Hu in Hd.
  destruct Hd as [?|[= ?]]; done.
Qed.

Existing Instance Plain.collaborators.

(** C10 at the query "cat": [search] returns; document 2 is in the
    postings of "cat" and has an empty URL, and it is in no result. *)
Lemma C10_witness :
  is_Some (search example_index "cat" 5) ∧
  in_all_postings example_index (_parse_query "cat") 2 ∧
  2%Z ∉ map res_doc_id
        (ranking example_index (_parse_query "cat") {[0%Z; 1%Z; 2%Z]} 5).
Proof.
  destruct (C10_results_have_url example_index "cat" 5) as [Hsome Hres].
  split_and!.
  - apply Hsome; [apply example_readable|apply example_idf_defined].
  - apply example_cat_docs. set_solver.
  - destruct (Hres _ example_search_cat) as [_ Hno].
    apply Hno. right. reflexivity.
Defined.

End C10.

(** * Further properties of the parser, the builder, the reader and the search *)

(** ** Bounds of the mean *)

Lemma sum_between (values : list Z) (lo hi : Z) :
  Forall (λ v, lo ≤ v ≤ hi)%Z values →
  (lo * Z.of_nat (length values) ≤ foldr Z.add 0 values
   ≤ hi * Z.of_nat (length values))%Z.
Proof.
  induction 1 as [|v values Hv Hvalues IH]; simpl; [lia|].
  rewrite Nat2Z.inj_succ. lia.
Qed.

Lemma mean_between (values : list Z) (lo hi : Z) :
  values ≠ [] →
  Forall (λ v, lo ≤ v ≤ hi)%Z values →
  (IZR lo <= mean values <= IZR hi)%R.
Proof.
  intros Hne Hall. pose proof (sum_between values lo hi Hall) as [Hlo Hhi].
  unfold mean.
  assert (0 < IZR (Z.of_nat (length values)))%R as Hpos.
  { apply IZR_lt. destruct values; [done|simpl; lia]. }
  apply IZR_le in Hlo, Hhi. rewrite mult_IZR in Hlo, Hhi.
  split.
  - apply (Rmult_le_reg_r (IZR (Z.of_nat (length values)))); [done|].
    unfold Rdiv. rewrite Rmult_assoc, Rinv_l by lra. lra.
  - apply (Rmult_le_reg_r (IZR (Z.of_nat (length values)))); [done|].
    unfold Rdiv. rewrite Rmult_assoc, Rinv_l by lra. lra.
Qed.

(** ** The raw counts add up to the number of tokens *)

Lemma total_raw_tf_record_token (t : string) (boost : R) (position : Z)
      (stats : list (string * TokenStats)) :
  total_raw_tf (Plain.record_token t boost position stats)
  = (total_raw_tf stats + 1)%Z.
Proof.
  unfold total_raw_tf. induction stats as [|[k e] stats IH]; simpl; [lia|].
  destruct (decide (k = t)); simpl; lia.
Qed.

Section ParserCount.
Context `{Collaborators}.
Import DocumentParser.

Lemma process_text_count (text : string) (boost : R)
      (st : list (string * TokenStats) * Z) :
  total_raw_tf st.1 = st.2 →
  total_raw_tf (process_text text boost st).1 = (process_text text boost st).2.
Proof.
  unfold process_text. revert st.
  induction (_tokenize text) as [|token tokens IH]; intros [stats position] Hst;
    [done|].
  simpl. apply IH. simpl in *. rewrite total_raw_tf_record_token. lia.
Qed.

Lemma parse_count (soup : Soup) : total_raw_tf (parse soup) = token_count soup.
Proof.
  unfold parse, token_count, parse_loops.
  assert (∀ texts st, total_raw_tf st.1 = st.2 →
            let st' := foldl (λ st '(parent_name, element),
                                if hidden parent_name then st
                                else process_text element BASE_WEIGHT st) st texts in
            total_raw_tf st'.1 = st'.2) as Hvisible.
  { induction texts as [|[parent_name element] texts IH]; intros st Hst; [done|].
    simpl. apply IH. destruct (hidden parent_name); [done|].
    by apply process_text_count. }
  assert (∀ weight texts st, total_raw_tf st.1 = st.2 →
            let st' := foldl (λ st text, process_text text weight st) st texts in
            total_raw_tf st'.1 = st'.2) as Htag.
  { intros weight. induction texts as [|text texts IH]; intros st Hst; [done|].
    simpl. apply IH. by apply process_text_count. }
  assert (∀ weights st, total_raw_tf st.1 = st.2 →
            let st' := foldl (λ st '(tag, weight),
                                foldl (λ st text, process_text text weight st) st
                                      (find_all soup tag)) st weights in
            total_raw_tf st'.1 = st'.2) as Htags.
  { induction weights as [|[tag weight] weights IH]; intros st Hst; [done|].
    simpl. apply IH. by apply Htag. }
  apply Htags, Hvisible. done.
Qed.

End ParserCount.

(** ** Sorting a list that is in order *)

Lemma list_sort_sorted {A K : Type} (lt : K → K → bool) (key : A → K) (l : list A) :
  StronglySorted (key_le lt key) l → Py.list_sort lt key l = l.
Proof.
  induction 1 as [|x l Hl IH Hx]; [done|].
  simpl. fold (Py.list_sort lt key l). rewrite IH.
  destruct l as [|y l']; [done|]. simpl.
  apply Forall_cons in Hx as [Hxy _]. unfold key_le in Hxy. by rewrite Hxy.
Qed.

(** A strictly increasing list of integers of an interval is no longer
    than the interval. *)
(** ** The postings accumulator in closed form *)

Section Accumulator.
Implicit Types (postings : gmap string (list Posting)).
Implicit Types (token_stats : list (string * TokenStats)).

Lemma add_postings_lookup (d : Z) token_stats postings (t : string) :
  add_postings d token_stats postings !! t
  = match new_postings d token_stats t with
    | [] => postings !! t
    | new => Some (default [] (postings !! t) ++ new)
    end.
Proof.
  unfold new_postings.
  induction token_stats as [|[t0 stats0] items IH] using rev_ind; [done|].
  rewrite add_postings_snoc, filter_app, map_app.
  destruct (decide (t0 = t)) as [->|Hne].
  - rewrite lookup_insert_eq, IH.
    rewrite filter_cons_True by done. rewrite filter_nil. simpl.
    destruct (map _ (filter _ items)) as [|p new]; simpl; [done|].
    by rewrite <-app_assoc.
  - rewrite lookup_insert_ne, IH by done.
    rewrite filter_cons_False by done. rewrite filter_nil. simpl.
    by rewrite app_nil_r.
Qed.

Lemma new_postings_doc_id (d : Z) token_stats (t : string) (p : Posting) :
  p ∈ new_postings d token_stats t → doc_id p = d.
Proof. intros (item & -> & _)%list_elem_of_fmap. done. Qed.

Lemma new_postings_distinct (d : Z) token_stats (t : string) :
  NoDup token_stats.*1 → (length (new_postings d token_stats t) ≤ 1)%nat.
Proof.
  unfold new_postings. rewrite length_map.
  induction token_stats as [|[t0 stats0] items IH]; simpl; [lia|].
  intros [Hnotin Hnodup]%NoDup_cons. specialize (IH Hnodup).
  rewrite filter_cons. destruct (decide ((t0, stats0).1 = t)) as [Heq|Hne]; [|done].
  simpl in *. subst t0.
  destruct (filter (λ item, item.1 = t) items) as [|[t1 stats1] rest] eqn:Hfilter;
    [simpl; lia|].
  exfalso. apply Hnotin.
  assert ((t1, stats1) ∈ filter (λ item : string * TokenStats, item.1 = t) items) as Hin
    by (rewrite Hfilter; by left).
  apply list_elem_of_filter in Hin as [Heq Hin]. simpl in Heq. subst t1.
  apply list_elem_of_fmap. by exists (t, stats1).
Qed.

End Accumulator.

(** ** The order of the accumulated postings *)

Section PostingsOrder.
Context `{Collaborators}.
Import IndexBuilder.

Lemma postings_ascending_skip (st : loop) :
  postings_ascending (self st) (next_doc_id st) →
  postings_ascending (self (skip_file st)) (next_doc_id (skip_file st)).
Proof. done. Qed.

Lemma postings_ascending_index (st : loop) (u : string)
      (token_stats : list (string * TokenStats)) :
  (0 ≤ next_doc_id st)%Z →
  postings_ascending (self st) (next_doc_id st) →
  postings_ascending (self (index_document st u token_stats))
                     (next_doc_id (index_document st u token_stats)).
Proof.
  intros Hnext Hasc t ps. simpl. rewrite add_postings_lookup.
  pose proof (new_postings_doc_id (next_doc_id st) token_stats t) as Hnew.
  destruct (new_postings (next_doc_id st) token_stats t) as [|p new] eqn:Hnp.
  - intros Hps. destruct (Hasc t ps Hps) as (Hne & Hsorted & Hbound).
    split_and!; [done..|].
    eapply Forall_impl; [exact Hbound|]. simpl. intros q Hq. lia.
  - intros [= <-].
    assert (Forall (λ q, doc_id q = next_doc_id st) (p :: new)) as Hall.
    { apply Forall_forall. intros q Hq. by apply Hnew. }
    assert (StronglySorted (λ p q, doc_id p ≤ doc_id q)%Z (p :: new)) as Hsorted_new.
    { clear Hnp Hnew. induction Hall as [|q qs Hq Hqs IH]; constructor; [done|].
      eapply Forall_impl; [exact Hqs|]. simpl. intros r Hr. lia. }
    assert (Forall (λ q, 0 ≤ doc_id q < next_doc_id st + 1)%Z (p :: new)) as Hbound_new.
    { eapply Forall_impl; [exact Hall|]. simpl. intros q Hq. lia. }
    destruct (_postings (self st) !! t) as [ps0|] eqn:Hps0; simpl.
    + destruct (Hasc t ps0 Hps0) as (Hne & Hsorted & Hbound).
      split_and!.
      * by destruct ps0.
      * apply StronglySorted_app_2; [|done..].
        intros q r Hq Hr. rewrite Forall_forall in Hbound, Hall.
        specialize (Hbound q Hq). specialize (Hall r Hr). lia.
      * apply Forall_app. split; [|done].
        eapply Forall_impl; [exact Hbound|]. simpl. intros q Hq. lia.
    + by split_and!.
Qed.

Lemma postings_increasing_index (st : loop) (u : string)
      (token_stats : list (string * TokenStats)) :
  NoDup token_stats.*1 →
  (0 ≤ next_doc_id st)%Z →
  postings_increasing (self st) (next_doc_id st) →
  postings_increasing (self (index_document st u token_stats))
                      (next_doc_id (index_document st u token_stats)).
Proof.
  intros Hkeys Hnext Hinc t ps. simpl. rewrite add_postings_lookup.
  pose proof (new_postings_doc_id (next_doc_id st) token_stats t) as Hnew.
  pose proof (new_postings_distinct (next_doc_id st) token_stats t Hkeys) as Hone.
  destruct (new_postings (next_doc_id st) token_stats t) as [|p [|p' new]];
    [| |simpl in Hone; lia].
  - intros Hps. destruct (Hinc t ps Hps) as (Hsorted & Hbound).
    split; [done|].
    eapply Forall_impl; [exact Hbound|]. simpl. intros q Hq. lia.
  - intros [= <-]. assert (doc_id p = next_doc_id st) as Hp by (apply Hnew; by left).
    destruct (_postings (self st) !! t) as [ps0|] eqn:Hps0; simpl.
    + destruct (Hinc t ps0 Hps0) as (Hsorted & Hbound). split.
      * apply StronglySorted_app_2; [|done|repeat constructor].
        intros q r Hq ->%list_elem_of_singleton. rewrite Forall_forall in Hbound.
        specialize (Hbound q Hq). lia.
      * apply Forall_app. split; [|apply Forall_singleton; lia].
        eapply Forall_impl; [exact Hbound|]. simpl. intros q Hq. lia.
    + split; [repeat constructor|apply Forall_singleton; lia].
Qed.

(** The counters of the loop of [build]. *)
Lemma build_loop_counters (files : list Node) (st : loop) :
  build_loop files = Some st →
  files_processed st = Z.of_nat (length files) ∧
  files_processed st = (files_skipped st + next_doc_id st)%Z ∧
  (0 ≤ next_doc_id st)%Z ∧ (0 ≤ files_skipped st)%Z.
Proof.
  revert st. induction files as [|file files IH] using rev_ind; intros st Hrun.
  - unfold build_loop in Hrun. simpl in Hrun. by simplify_eq.
  - rewrite build_loop_snoc in Hrun.
    destruct (build_loop files) as [st0|]; [|done]. simpl in Hrun.
    destruct (IH st0 eq_refl) as (Hlen & Hsum & Hnext & Hskipped).
    rewrite length_app. simpl.
    apply build_step_inv in Hrun
      as [[_ ->]|[(payload & u & _ & _ & _ & ->)
                 |(payload & u & _ & _ & _ & _ & ->)]]; simpl; lia.
Qed.

Lemma build_loop_ascending (files : list Node) (st : loop) :
  build_loop files = Some st → postings_ascending (self st) (next_doc_id st).
Proof.
  revert st. induction files as [|file files IH] using rev_ind; intros st Hrun.
  - unfold build_loop in Hrun. simpl in Hrun. simplify_eq.
    intros t ps. simpl. by rewrite lookup_empty.
  - rewrite build_loop_snoc in Hrun.
    destruct (build_loop files) as [st0|] eqn:Hrun0; [|done]. simpl in Hrun.
    specialize (IH st0 eq_refl).
    destruct (build_loop_counters files st0 Hrun0) as (_ & _ & Hnext & _).
    apply build_step_inv in Hrun
      as [[_ ->]|[(payload & u & _ & _ & _ & ->)
                 |(payload & u & _ & _ & _ & _ & ->)]]; [done..|].
    by apply postings_ascending_index.
Qed.

Lemma build_loop_increasing (files : list Node) (st : loop) :
  parse_keys_distinct →
  build_loop files = Some st → postings_increasing (self st) (next_doc_id st).
Proof.
  intros Hkeys.
  revert st. induction files as [|file files IH] using rev_ind; intros st Hrun.
  - unfold build_loop in Hrun. simpl in Hrun. simplify_eq.
    intros t ps. simpl. by rewrite lookup_empty.
  - rewrite build_loop_snoc in Hrun.
    destruct (build_loop files) as [st0|] eqn:Hrun0; [|done]. simpl in Hrun.
    specialize (IH st0 eq_refl).
    destruct (build_loop_counters files st0 Hrun0) as (_ & _ & Hnext & _).
    apply build_step_inv in Hrun
      as [[_ ->]|[(payload & u & _ & _ & _ & ->)
                 |(payload & u & _ & _ & _ & _ & ->)]]; [done..|].
    by apply postings_increasing_index.
Qed.

(** What the written index records for a term of the accumulator. *)
Lemma written_doc_freq (b : t) (t0 : string) :
  IndexReader.get_doc_freq (write b) t0
  = Z.of_nat (length (default [] (_postings b !! t0))).
Proof.
  unfold IndexReader.get_doc_freq.
  pose proof (written_lexicon b t0) as Hlex.
  destruct (IndexReader._load_lexicon (write b) !! t0) as [e|].
  - destruct Hlex as (_ & Hterm & _ & Hdf & _).
    rewrite Hdf, Hterm. unfold sorted_postings.
    by rewrite (Permutation_length (list_sort_Permutation _ _ _)).
  - by rewrite Hlex.
Qed.

End PostingsOrder.

(** A list in strictly increasing order of an integer key, with keys in
    an interval, is no longer than the interval. *)
Lemma increasing_keys_length {A : Type} (key : A → Z) (l : list A) (lo hi : Z) :
  StronglySorted (λ x y, key x < key y)%Z l → Forall (λ x, lo ≤ key x < hi)%Z l →
  (Z.of_nat (length l) ≤ Z.max 0 (hi - lo))%Z.
Proof.
  intros Hsorted. revert lo.
  induction Hsorted as [|x l Hl IH Hx]; intros lo Hall; simpl; [lia|].
  apply Forall_cons in Hall as [Hx0 Hall].
  specialize (IH (key x + 1)%Z). rewrite Nat2Z.inj_succ.
  assert (Z.of_nat (length l) ≤ Z.max 0 (hi - (key x + 1)))%Z; [|lia].
  apply IH. rewrite Forall_forall in Hx, Hall. apply Forall_forall.
  intros y Hy. specialize (Hx y Hy). specialize (Hall y Hy). lia.
Qed.

Lemma ln_nonneg (x : R) : (1 <= x)%R → (0 <= ln x)%R.
Proof.
  intros [Hlt| <-]; [|rewrite ln_1; lra].
  left. rewrite <-ln_1. apply ln_increasing; lra.
Qed.

(** The keys of the dict of the plain-text parser are distinct. *)
Lemma plain_parse_keys : @parse_keys_distinct Plain.collaborators.
Proof.
  intros html. simpl. unfold Plain.parse_text, Plain.process_text.
  assert (∀ tokens (st : list (string * TokenStats) * Z),
            NoDup st.1.*1 →
            NoDup (foldl (λ '(stats, position) token,
                            let position := (position + 1)%Z in
                            (Plain.record_token token 1 position stats, position))
                         st tokens).1.*1) as Hloop.
  { induction tokens as [|token tokens IH]; intros [stats position] Hst; [done|].
    simpl. apply IH. simpl. rewrite record_token_keys.
    destruct (decide (token ∈ stats.*1)); [done|].
    apply NoDup_app. split_and!; [done| |apply NoDup_singleton].
    by intros k Hk ->%list_elem_of_singleton. }
  apply Hloop. apply NoDup_nil_2.
Qed.

(** The keys of the dict that [DocumentParser.parse] returns are
    distinct. *)
Lemma parser_keys_distinct (C : Collaborators)
      (BeautifulSoup : string → DocumentParser.Soup) :
  @parse_keys_distinct (with_parser C BeautifulSoup).
Proof.
  intros html. simpl. apply (@pi_keys _ (@parse_invariant C (BeautifulSoup html))).
Qed.

Lemma first_with_url_unique (files : list Node) (p1 p2 : Payload) :
  first_with_url files p1 → first_with_url files p2 →
  payload_url p1 = payload_url p2 → p1 = p2.
Proof.
  intros (b1 & f1 & a1 & Hfiles & Hload1 & Hbefore1)
         (b2 & f2 & a2 & Hfiles' & Hload2 & Hbefore2) Heq.
  rewrite Hfiles in Hfiles'.
  assert (length b1 = length b2) as Hlen.
  { destruct (Nat.lt_trichotomy (length b1) (length b2)) as [Hlt|[?|Hlt]]; [|done|].
    - exfalso. apply (Hbefore2 f1 p1); [|done..].
      apply list_elem_of_lookup. exists (length b1).
      apply (f_equal (λ l, l !! length b1)) in Hfiles'.
      rewrite list_lookup_middle in Hfiles' by done.
      by rewrite lookup_app_l in Hfiles' by done.
    - exfalso. apply (Hbefore1 f2 p2); [|done..].
      apply list_elem_of_lookup. exists (length b2).
      apply (f_equal (λ l, l !! length b2)) in Hfiles'.
      rewrite (list_lookup_middle b2) in Hfiles' by done.
      by rewrite lookup_app_l in Hfiles' by done. }
  apply app_inj_1 in Hfiles' as [_ Hrest]; [|done]. simplify_eq. congruence.
Qed.

Section Layout.
Context `{Collaborators}.
Import IndexBuilder IndexReader.

Lemma write_terms_tiled (b : t) (terms : list string)
      (lexicon_file : list LexiconEntry) (postings_file : list ascii) :
  ∃ lexicon_more postings_more,
    foldl (write_term b) (lexicon_file, postings_file) terms
    = (lexicon_file ++ lexicon_more, postings_file ++ postings_more) ∧
    tiled (Z.of_nat (length postings_file)) lexicon_more ∧
    Z.of_nat (length postings_more) = blocks_length lexicon_more.
Proof.
  revert lexicon_file postings_file.
  induction terms as [|t0 terms IH]; intros lexicon_file postings_file.
  - exists [], []. by rewrite !app_nil_r.
  - cbn [foldl]. rewrite write_term_eq.
    destruct (IH (lexicon_file
                    ++ [{| term := t0;
                           doc_freq := Z.of_nat (length (sorted_postings b t0));
                           offset := Z.of_nat (length postings_file);
                           length_ := Z.of_nat (length (block_of b t0)) |}])
                 (postings_file ++ block_of b t0))
      as (lex & post & -> & Htiled & Hlen).
    eexists (_ :: lex), (block_of b t0 ++ post).
    rewrite <-!app_assoc. split_and!; [done| |].
    + simpl. split_and!; [done| |].
      * unfold block_of. rewrite length_app. simpl. lia.
      * by rewrite length_app, Nat2Z.inj_add in Htiled.
    + unfold blocks_length in *. rewrite length_app. simpl. lia.
Qed.

Lemma sorted_terms_increasing (b : t) :
  StronglySorted (λ t1 t2, String.ltb t1 t2 = true) (sorted_terms b).
Proof.
  pose proof (NoDup_sorted_terms b) as Hnodup.
  assert (StronglySorted (key_le String.ltb (λ term : string, term)) (sorted_terms b))
    as Hsorted.
  { unfold sorted_terms.
    apply list_sort_StronglySorted; [apply string_ltb_asym|apply string_ltb_ge_trans]. }
  induction Hsorted as [|t1 terms Hterms IH Ht1]; [constructor|].
  apply NoDup_cons in Hnodup as [Hnotin Hnodup].
  constructor; [by apply IH|].
  apply Forall_forall. intros t2 Ht2. rewrite Forall_forall in Ht1.
  specialize (Ht1 t2 Ht2). unfold key_le in Ht1.
  destruct (String.ltb t1 t2) eqn:Hlt; [done|].
  exfalso. apply Hnotin. by rewrite (string_ltb_eq t1 t2).
Qed.

End Layout.

(** * Further properties of the query engine *)

Section SearchFacts.
Context `{Collaborators}.
Import IndexReader SearchEngine.

Lemma ranking_doc_ids (index_dir : IndexDir) (query_terms : list string)
      (candidate_docs : gset Z) (top_k : Z) :
  NoDup (map res_doc_id (ranking index_dir query_terms candidate_docs top_k)).
Proof.
  unfold ranking.
  destruct (slice_to_take
              (Py.list_sort_reverse Py.Rltb score
                 (map (result_of index_dir query_terms)
                      (filter (has_url index_dir) (elements candidate_docs))))
              top_k) as [n ->].
  change (map res_doc_id (take n ?l)) with (res_doc_id <$> take n l).
  rewrite fmap_take.
  eapply sublist_NoDup; [|apply sublist_take].
  change (res_doc_id <$> ?l) with (map res_doc_id l).
  rewrite list_sort_reverse_Permutation.
  rewrite map_map. simpl. rewrite map_id.
  apply NoDup_filter, NoDup_elements.
Qed.

End SearchFacts.

Section EndToEnd.
Context `{Collaborators}.
Import IndexBuilder IndexReader SearchEngine.

(** What the reader returns for a term of a written index: the sorted
    postings of the accumulator, none for a term that is not there. *)
Lemma get_postings_written (b : t) (t0 : string) :
  (is_Some (_postings b !! t0) → block_readable b t0) →
  get_postings (write b) t0 = Some (sorted_postings b t0).
Proof.
  intros Hreadable. unfold get_postings.
  pose proof (written_lexicon b t0) as Hlex.
  destruct (_load_lexicon (write b) !! t0) as [e|].
  - destruct Hlex as (Hsome & Hterm & Hoff & _ & _ & rest & Hdrop).
    destruct (Hreadable Hsome) as [Hline Hloads].
    unfold Py.seek. rewrite (proj2 (Z.ltb_ge _ _)) by done. simpl.
    rewrite Hdrop, Hterm. unfold block_of. rewrite <-app_assoc. simpl.
    by rewrite readline_block, rstrip_block.
  - unfold sorted_postings. by rewrite Hlex.
Qed.

Lemma elem_of_sorted_postings (b : t) (t0 : string) (p : Posting) :
  p ∈ sorted_postings b t0 ↔ ∃ ps, _postings b !! t0 = Some ps ∧ p ∈ ps.
Proof.
  unfold sorted_postings. rewrite list_sort_Permutation.
  destruct (_postings b !! t0) as [ps|]; simpl.
  - split; [by exists ps|]. by intros (ps' & [= <-] & Hp).
  - split; [by intros Hp; inv Hp|]. by intros (ps' & [=] & _).
Qed.

(** The idf is defined on every term of an index that [build] wrote. *)
Lemma built_idf_defined (files : list Node) (st : loop) (t0 : string) :
  build_loop files = Some st → is_Some (compute_idf (write (self st)) t0).
Proof.
  intros Hrun.
  destruct (decide (get_doc_freq (write (self st)) t0 = 0%Z)) as [Hzero|Hne].
  - rewrite compute_idf_unseen by done. by eexists.
  - assert (0 ≤ get_doc_freq (write (self st)) t0)%Z
      by (rewrite written_doc_freq; lia).
    rewrite compute_idf_seen; [by eexists|lia|].
    eapply built_index_has_documents; [done|]. instantiate (1 := t0). lia.
Qed.

(** The documents that have a posting for a term are those whose first
    payload has the term. *)
Lemma posting_documents (files : list Node) (st : loop) (t0 : string) (d : Z) :
  build_loop files = Some st →
  d ∈ map doc_id (sorted_postings (self st) t0) ↔
  ∃ u payload,
    doc_lookup (self st) !! d = Some u ∧ first_with_url files payload ∧
    payload_url payload = Some u ∧ t0 ∈ (parse (html_of payload)).*1.
Proof.
  intros Hrun. pose proof (build_loop_invariant files st Hrun) as Hinv. split.
  - intros (p & -> & Hp)%list_elem_of_fmap.
    apply elem_of_sorted_postings in Hp as (ps & Hps & Hp).
    destruct (inv_postings _ _ Hinv t0 ps p Hps Hp)
      as (u & payload & stats & Hd & Hfirst & Hurl & Hin & _).
    exists u, payload. split_and!; [done..|].
    apply list_elem_of_fmap. by exists (t0, stats).
  - intros (u & payload & Hd & Hfirst & Hurl & Hin).
    apply list_elem_of_fmap in Hin as ([t1 stats] & -> & Hin). simpl.
    destruct (inv_docs _ _ Hinv d u Hd) as (payload' & Hfirst' & Hurl' & _ & _ & Hps).
    assert (payload' = payload) as ->
      by (eapply first_with_url_unique; [done..|congruence]).
    destruct (Hps t1 stats Hin) as (ps & Hps' & Hp).
    apply list_elem_of_fmap. exists (posting_of d stats). split; [done|].
    apply elem_of_sorted_postings. by exists ps.
Qed.

(** The first payload with a URL is indexed under one [doc_id]. *)
Lemma first_payload_indexed (files : list Node) (st : loop) (payload : Payload)
      (u : string) :
  build_loop files = Some st →
  first_with_url files payload → payload_url payload = Some u →
  ∃ d, doc_lookup (self st) !! d = Some u.
Proof.
  intros Hrun (before & file & after & -> & Hload & _) Hurl.
  pose proof (build_loop_invariant _ st Hrun) as Hinv.
  assert (u ∈ dom (doc_seen_urls (self st))) as [d Hd]%elem_of_dom.
  { rewrite (inv_seen_dom _ _ Hinv). apply elem_of_list_to_set.
    apply list_elem_of_omap. exists file. split.
    - apply elem_of_app. right. by left.
    - by rewrite Hload. }
  exists d. by apply (inv_seen _ _ Hinv).
Qed.

End EndToEnd.

Section CachedReaderFacts.
Import CachedReader.

Lemma coherent_init (disk : IndexDir) : coherent disk init.
Proof. by split_and!. Qed.

(** X: the caches are transparent *)
End CachedReaderFacts.

Section SearchCliExtras.
Import SearchCli.
Context `{Collaborators} (strip lower : string → string).

Lemma interactive_mode_goes_on (index_dir : IndexDir) (top_k : Z)
      (before rest : list Input) (printed : list Output) (fuel : nat) :
  Forall (goes_on strip lower) before →
  interactive_mode strip lower (length before + fuel) index_dir top_k
                   (before ++ rest) printed
  = interactive_mode strip lower fuel index_dir top_k rest
                     (printed ++ reports strip index_dir top_k before).
Proof.
  intros Hbefore. revert printed.
  induction Hbefore as [|input before Hinput Hbefore IH]; intros printed.
  - simpl. by rewrite app_nil_r.
  - destruct input as [text|]; [|done]. simpl in Hinput.
    cbn [length Nat.add app interactive_mode reports flat_map].
    fold (reports strip index_dir top_k before).
    destruct (decide (strip text = ""%string)) as [Hblank|Hquery].
    + by rewrite IH.
    + destruct Hinput as [?|Hgo]; [done|].
      rewrite decide_False by done. by rewrite IH, <-app_assoc.
Qed.

End SearchCliExtras.


(** The block of "cat" in the index of the example corpus is one line
    that [json.loads] decodes back. *)
Lemma corpus_cat_readable :
  @block_readable Plain.collaborators (IndexBuilder.self Corpus.final) "cat".
Proof.
  unfold block_readable, sorted_postings.
  rewrite corpus_cat_postings. cbn [default].
  split.
  - intros c Hc.
    change (json_dumps _) with (list_ascii_of_string "[0111]") in Hc.
    simpl in Hc.
    repeat (apply elem_of_cons in Hc as [->|Hc]; [reflexivity|]). inv Hc.
  - change (json_dumps _) with (list_ascii_of_string "[0111]").
    change (json_loads _)
      with (Some [ {| doc_id := 0; weighted_tf := 1; raw_tf := 1; avg_position := 1 |};
                   {| doc_id := 1; weighted_tf := 1; raw_tf := 1; avg_position := 1 |} ]).
    change (Py.list_sort Z.ltb doc_id _)
      with [ {| doc_id := 0; weighted_tf := 0 + 1; raw_tf := 1;
                avg_position := IndexBuilder._average [1%Z] |};
             {| doc_id := 1; weighted_tf := 0 + 1; raw_tf := 1;
                avg_position := IndexBuilder._average [1%Z] |} ].
    assert (IndexBuilder._average [1%Z] = 1%R) as ->.
    { rewrite average_mean by done.
      change (mean [1%Z]) with (1 / 1)%R. lra. }
    by rewrite Rplus_0_l.
Qed.

(** * The parser *)

Section ParserProperties.
Import DocumentParser.

(** X1.  For every entry of the dict that [parse] returns: [raw_tf] is
    the number of recorded positions and is at least 1; the positions
    are in strictly increasing order and lie between 1 and the number of
    tokens that [parse] has counted; and [_average] of the positions is
    their arithmetic mean, which lies between the same bounds. *)
Theorem parse_positions `{Collaborators} (soup : Soup) (t : string) (s : TokenStats) :
  (t, s) ∈ parse soup →
  ts_raw_tf s = Z.of_nat (length (positions s)) ∧
  (1 ≤ ts_raw_tf s)%Z ∧
  StronglySorted Z.lt (positions s) ∧
  Forall (λ p, 1 ≤ p ≤ token_count soup)%Z (positions s) ∧
  IndexBuilder._average (positions s) = mean (positions s) ∧
  (1 <= IndexBuilder._average (positions s) <= IZR (token_count soup))%R.
Proof.
  intros Hin. destruct (parse_invariant soup) as [_ _ Hentry _ _].
  destruct (Hentry t s Hin) as (Hraw & Hne & Hsorted & Hbound & _).
  split_and!; [done| |done|done|by apply average_mean|..].
  - rewrite Hraw. destruct (positions s); [done|simpl; lia].
  - rewrite average_mean by done. by apply (mean_between _ 1 _ Hne Hbound).
  - rewrite average_mean by done. by apply (mean_between _ 1 _ Hne Hbound).
Qed.

(** X2.  For every entry of the dict that [parse] returns, the weighted
    count is between the raw count and four times the raw count (the
    weights are between [BASE_WEIGHT] and the weight of a title), so it
    is at least 1 and [math.log(1 + weighted_tf)], which [build]
    computes for the posting, is defined and positive. *)
Theorem parse_weights `{Collaborators} (soup : Soup) (t : string) (s : TokenStats) :
  (t, s) ∈ parse soup →
  (IZR (ts_raw_tf s) <= ts_weighted_tf s <= 4 * IZR (ts_raw_tf s))%R ∧
  (1 <= ts_weighted_tf s)%R ∧
  ∃ l, Py.math_log (1 + ts_weighted_tf s) = Some l ∧ (0 < l)%R.
Proof.
  intros Hin. destruct (parse_invariant soup) as [_ _ Hentry _ _].
  destruct (Hentry t s Hin) as (Hraw & Hne & _ & _ & Hweight).
  assert (1 <= IZR (ts_raw_tf s))%R as Hone.
  { apply IZR_le. rewrite Hraw. destruct (positions s); [done|simpl; lia]. }
  split_and!; [lra..|].
  exists (ln (1 + ts_weighted_tf s)). split.
  - apply math_log_Some. split; [lra|done].
  - rewrite <-ln_1. apply ln_increasing; lra.
Qed.

(** X3.  The dict that [parse] returns has distinct keys; its raw counts
    add up to the number of tokens counted; and every position from 1
    to that number is recorded for exactly one term. *)
Theorem parse_positions_partition `{Collaborators} (soup : Soup) :
  NoDup (parse soup).*1 ∧
  total_raw_tf (parse soup) = token_count soup ∧
  ∀ p, (1 ≤ p ≤ token_count soup)%Z →
       ∃ t s, (t, s) ∈ parse soup ∧ p ∈ positions s ∧
              ∀ t' s', (t', s') ∈ parse soup → p ∈ positions s' → t' = t.
Proof.
  destruct (parse_invariant soup) as [Hkeys _ _ Hcover Hunique].
  split_and!; [done|apply parse_count|].
  intros p Hp. destruct (Hcover p Hp) as (t & s & Hin & Hps).
  exists t, s. split_and!; [done..|].
  intros t' s' Hin' Hps'. by eapply Hunique.
Qed.

Existing Instance Plain.collaborators.

(** X1 at the page with a title: "cat" is at the positions 1, 2 and 4. *)
Lemma parse_positions_witness :
  IndexBuilder._average [1%Z; 2%Z; 4%Z] = mean [1%Z; 2%Z; 4%Z] ∧
  (1 <= IndexBuilder._average [1%Z; 2%Z; 4%Z] <= 4)%R.
Proof.
  destruct (parse_positions Page.soup "cat" Page.cat_stats)
    as (_ & _ & _ & _ & Havg & Hbound).
  - left.
  - split; [exact Havg|exact Hbound].
Defined.

(** X2 at the same entry. *)
Lemma parse_weights_witness :
  (3 <= 0 + 1 + 1 + 4 <= 4 * 3)%R ∧
  ∃ l, Py.math_log (1 + (0 + 1 + 1 + 4)) = Some l ∧ (0 < l)%R.
Proof.
  destruct (parse_weights Page.soup "cat" Page.cat_stats) as (Hbounds & _ & Hlog).
  - left.
  - split; [exact Hbounds|exact Hlog].
Defined.

(** X3 at the same page: four tokens are counted, and position 3 belongs
    to one term. *)
Lemma parse_positions_partition_witness :
  total_raw_tf (parse Page.soup) = 4%Z ∧
  ∃ t s, (t, s) ∈ parse Page.soup ∧ 3%Z ∈ positions s ∧
         ∀ t' s', (t', s') ∈ parse Page.soup → 3%Z ∈ positions s' → t' = t.
Proof.
  destruct (parse_positions_partition Page.soup) as (_ & Hcount & Hcover).
  split; [exact Hcount|]. apply Hcover. vm_compute. split; discriminate.
Defined.

End ParserProperties.

(** * The builder *)

Section BuilderProperties.
Import IndexBuilder IndexReader Plain Corpus.


(** X5.  A corpus file that loads without the key ["url"] makes [build]
    raise, wherever the file is in the corpus: no index is written. *)
Theorem build_missing_url `{Collaborators} (corpus_root file : Node)
        (payload : Payload) :
  file ∈ _iter_corpus_files corpus_root →
  _load_document file = Some payload →
  payload_url payload = None →
  build corpus_root = None.
Proof.
  intros Hin Hload Hurl. unfold build.
  destruct (build_loop (_iter_corpus_files corpus_root)) as [st|] eqn:Hrun; [|done].
  apply build_loop_invariant in Hrun.
  destruct (inv_has_url _ _ Hrun file payload Hin Hload) as [u Hu]. congruence.
Qed.

(** X6.  When the loop of [build] completes, [files_processed] is the
    number of corpus files, every file was either indexed or skipped
    ([files_processed = next_doc_id + files_skipped]), and the
    [num_documents] written to [stats.json] is [next_doc_id]. *)
Theorem build_counters `{Collaborators} (files : list Node) (st : loop) :
  build_loop files = Some st →
  files_processed st = Z.of_nat (length files) ∧
  files_processed st = (next_doc_id st + files_skipped st)%Z ∧
  next_doc_id st = num_documents (stats_json (write (self st))) ∧
  (0 ≤ files_skipped st)%Z.
Proof.
  intros Hrun.
  destruct (build_loop_counters files st Hrun) as (Hlen & Hsum & Hnext & Hskipped).
  pose proof (build_loop_invariant files st Hrun) as Hinv.
  rewrite write_num_documents, <-(inv_next _ _ Hinv).
  split_and!; [done|lia|done..].
Qed.

(** X7.  When the loop of [build] completes, the postings accumulated
    for a term are not empty and already in ascending order of
    [doc_id]: the sort of [_write_index] leaves them as they are. *)
Theorem postings_already_sorted `{Collaborators} (files : list Node) (st : loop)
        (t0 : string) (ps : list Posting) :
  build_loop files = Some st →
  _postings (self st) !! t0 = Some ps →
  Py.list_sort Z.ltb doc_id ps = ps ∧ ps ≠ [].
Proof.
  intros Hrun Hps.
  destruct (build_loop_ascending files st Hrun t0 ps Hps) as (Hne & Hsorted & _).
  split; [|done]. apply list_sort_sorted.
  eapply StronglySorted_impl; [|exact Hsorted].
  simpl. intros p q Hpq. unfold key_le. apply Z.ltb_ge. lia.
Qed.

(** X8.  When the keys of the dict of the parser are distinct (as those
    of a dict are), the postings accumulated for a term have strictly
    increasing [doc_id]s: a document has at most one posting for a
    term, and every [doc_id] is below the [num_documents] written to
    [stats.json]. *)
Theorem postings_one_per_document `{Collaborators} (files : list Node) (st : loop)
        (t0 : string) (ps : list Posting) :
  parse_keys_distinct →
  build_loop files = Some st →
  _postings (self st) !! t0 = Some ps →
  StronglySorted (λ p q, doc_id p < doc_id q)%Z ps ∧
  NoDup (map doc_id ps) ∧
  Forall (λ p, 0 ≤ doc_id p < num_documents (stats_json (write (self st))))%Z ps.
Proof.
  intros Hkeys Hrun Hps.
  destruct (build_loop_increasing files st Hkeys Hrun t0 ps Hps) as (Hsorted & Hbound).
  pose proof (build_loop_invariant files st Hrun) as Hinv.
  rewrite write_num_documents, <-(inv_next _ _ Hinv).
  split_and!; [done| |done].
  clear Hbound Hps. induction Hsorted as [|p ps Hps IH Hp]; simpl; [constructor|].
  apply NoDup_cons. split; [|done].
  intros (q & Heq & Hq)%list_elem_of_fmap.
  rewrite Forall_forall in Hp. specialize (Hp q Hq). lia.
Qed.

(** X9.  On the index written after a completed [build] (with distinct
    keys in the dict of the parser), the document frequency of every
    term is between 0 and the number of documents, and [compute_idf]
    returns a value that is not negative. *)
Theorem idf_nonnegative `{Collaborators} (files : list Node) (st : loop)
        (t0 : string) :
  parse_keys_distinct →
  build_loop files = Some st →
  (0 ≤ get_doc_freq (write (self st)) t0
     ≤ get_num_documents (write (self st)))%Z ∧
  ∃ idf, compute_idf (write (self st)) t0 = Some idf ∧ (0 <= idf)%R.
Proof.
  intros Hkeys Hrun.
  pose proof (build_loop_invariant files st Hrun) as Hinv.
  assert (0 ≤ get_doc_freq (write (self st)) t0
            ≤ get_num_documents (write (self st)))%Z as Hdf.
  { rewrite written_doc_freq. unfold get_num_documents.
    rewrite write_num_documents, <-(inv_next _ _ Hinv).
    destruct (build_loop_counters files st Hrun) as (_ & _ & Hnext & _).
    destruct (_postings (self st) !! t0) as [ps|] eqn:Hps; simpl; [|lia].
    destruct (build_loop_increasing files st Hkeys Hrun t0 ps Hps)
      as (Hsorted & Hbound).
    pose proof (increasing_keys_length doc_id ps 0 (next_doc_id st) Hsorted Hbound).
    lia. }
  split; [done|].
  destruct (decide (get_doc_freq (write (self st)) t0 = 0%Z)) as [Hzero|Hpos].
  - exists 0%R. split; [by apply compute_idf_unseen|lra].
  - eexists. split; [apply compute_idf_seen; lia|].
    apply ln_nonneg.
    assert (0 < IZR (get_doc_freq (write (self st)) t0))%R as Hdf0
      by (apply IZR_lt; lia).
    apply (Rmult_le_reg_r (IZR (get_doc_freq (write (self st)) t0))); [done|].
    unfold Rdiv. rewrite Rmult_assoc, Rinv_l by lra.
    rewrite Rmult_1_l, Rmult_1_r. apply IZR_le. lia.
Qed.

(** X10.  Every posting accumulated by a completed [build] refers to an
    indexed document: the reader of the written index finds a URL for
    its [doc_id], a stored length, which is positive and is what
    [get_doc_length] returns (not the default 1.0), and the [doc_id] is
    below the number of documents. *)
Theorem postings_refer_to_documents `{Collaborators} (files : list Node) (st : loop)
        (t0 : string) (ps : list Posting) (p : Posting) :
  build_loop files = Some st →
  _postings (self st) !! t0 = Some ps → p ∈ ps →
  is_Some (get_url (write (self st)) (doc_id p)) ∧
  (∃ len, doc_lengths_json (write (self st)) !! doc_id p = Some len ∧
          get_doc_length (write (self st)) (doc_id p) = len ∧ (0 < len)%R) ∧
  (0 ≤ doc_id p < get_num_documents (write (self st)))%Z.
Proof.
  intros Hrun Hps Hp.
  pose proof (build_loop_invariant files st Hrun) as Hinv.
  destruct (inv_postings _ _ Hinv t0 ps p Hps Hp) as (u & _ & _ & Hd & _).
  destruct (inv_docs _ _ Hinv (doc_id p) u Hd) as (payload & _ & _ & _ & Hlen & _).
  assert (0 ≤ doc_id p < next_doc_id st)%Z as Hrange
    by (apply (inv_dense _ _ Hinv); by eexists).
  rewrite (inv_next _ _ Hinv) in Hrange.
  unfold get_url, get_doc_length, get_num_documents.
  rewrite write_doc_lookup, write_doc_lengths, write_num_documents, Hd, Hlen.
  split_and!; [by eexists| |lia..].
  eexists. split_and!; [done..|].
  pose proof (max_ge_r (sum_list (map (λ item, squared_weight item.2)
                                      (parse (html_of payload)))) 1e-9).
  unfold doc_length_of. lra.
Qed.

(** X11.  The terms of the written lexicon are in strictly increasing
    order, they are the terms of the accumulator, and the
    [num_unique_terms] of [stats.json] (the number of lines of the
    lexicon) is the number of terms of the accumulator. *)
Theorem lexicon_in_term_order `{Collaborators} (b : t) :
  StronglySorted (λ t1 t2, String.ltb t1 t2 = true)
                 (map term (lexicon_jsonl (write b))) ∧
  (∀ t0, t0 ∈ map term (lexicon_jsonl (write b)) ↔ is_Some (_postings b !! t0)) ∧
  num_unique_terms (stats_json (write b)) = Z.of_nat (size (_postings b)).
Proof.
  destruct (write_terms_spec b (sorted_terms b)) as (lex & post & Hrun & Hterms & _).
  unfold write, _write_index. rewrite Hrun. simpl. rewrite Hterms.
  split_and!.
  - apply sorted_terms_increasing.
  - apply elem_of_sorted_terms.
  - rewrite <-(length_map term lex), Hterms. unfold sorted_terms.
    rewrite (Permutation_length (list_sort_Permutation _ _ _)).
    by rewrite length_fmap, length_map_to_list.
Qed.

(** X12.  The blocks that the written lexicon records tile the postings
    file: the first block is at offset 0, every block starts where the
    block before it ends, no block is empty, and the length of the file
    is the sum of the recorded lengths. *)
Theorem postings_file_tiled `{Collaborators} (b : t) :
  tiled 0 (lexicon_jsonl (write b)) ∧
  Z.of_nat (length (postings_jsonl (write b)))
  = blocks_length (lexicon_jsonl (write b)).
Proof.
  destruct (write_terms_tiled b (sorted_terms b) [] [])
    as (lex & post & Hrun & Htiled & Hlen).
  unfold write, _write_index. rewrite Hrun. by simpl.
Qed.

Existing Instance Plain.collaborators.


(** X5 at a folder with a file without URL after a good one. *)
Lemma build_missing_url_witness : build Variants.bad_root = None.
Proof.
  apply (build_missing_url Variants.bad_root Variants.file_bad
           Variants.page_without_url).
  - right. left.
  - reflexivity.
  - reflexivity.
Defined.

(** X6 at the example corpus: four files, two documents, two skipped. *)
Lemma build_counters_witness :
  files_processed final = 4%Z ∧
  files_processed final = (next_doc_id final + files_skipped final)%Z ∧
  next_doc_id final = num_documents (stats_json (write (self final))).
Proof.
  destruct (build_counters files final corpus_build) as (Hlen & Hsum & Hnext & _).
  split_and!; [exact Hlen|exact Hsum|exact Hnext].
Defined.

(** X7 at the postings of "dog" in the example corpus. *)
Lemma postings_already_sorted_witness :
  Py.list_sort Z.ltb doc_id [posting_of 0 dog_twice; posting_of 1 dog_second]
  = [posting_of 0 dog_twice; posting_of 1 dog_second].
Proof.
  apply (postings_already_sorted files final "dog" _ corpus_build corpus_dog_postings).
Defined.

(** X8 at the postings of "dog" in the example corpus, built with the
    parser of [parser.py]. *)
Lemma postings_one_per_document_witness :
  NoDup (map doc_id [posting_of 0 dog_twice; posting_of 1 dog_second]).
Proof.
  apply (@postings_one_per_document Page.collaborators files final "dog" _
           (parser_keys_distinct Plain.collaborators Page.text_soup)
           corpus_build_parsed corpus_dog_postings).
Defined.

(** X9 at the term "cat" of the example corpus. *)
Lemma idf_nonnegative_witness :
  ∃ idf, compute_idf (write (self final)) "cat" = Some idf ∧ (0 <= idf)%R.
Proof.
  apply (idf_nonnegative files final "cat" plain_parse_keys corpus_build).
Defined.

(** X10 at the posting of "dog" in document 1 of the example corpus. *)
Lemma postings_refer_to_documents_witness :
  is_Some (get_url (write (self final)) 1) ∧
  (0 ≤ 1 < get_num_documents (write (self final)))%Z.
Proof.
  destruct (postings_refer_to_documents files final "dog" _ (posting_of 1 dog_second)
              corpus_build corpus_dog_postings) as (Hurl & _ & Hrange).
  - right. left.
  - split; [exact Hurl|exact Hrange].
Defined.

End BuilderProperties.

(** * The corpus walk *)

Section WalkProperties.
Import IndexBuilder Corpus.

(** X13.  [_iter_corpus_files] yields exactly the files with the suffix
    [.json] (in any case) that are directly inside a directory that is
    directly inside the corpus root: files of the root itself and of
    deeper folders are not visited. *)
Theorem corpus_files_two_levels (corpus_root f : Node) :
  f ∈ _iter_corpus_files corpus_root ↔
  ∃ folder, folder ∈ iterdir corpus_root ∧ is_dir folder = true ∧
            f ∈ iterdir folder ∧ is_file f = true ∧
            Py.lower (Py.suffix (node_name f)) = list_ascii_of_string ".json".
Proof.
  unfold _iter_corpus_files. rewrite list_elem_of_In, in_flat_map. split.
  - intros (folder & Hfolder%list_elem_of_In & Hf%list_elem_of_In).
    rewrite list_sort_Permutation in Hfolder.
    apply list_elem_of_filter in Hfolder as [Hdir Hfolder].
    apply list_elem_of_filter in Hf as [Hjson Hf].
    unfold is_json_file in Hjson. apply andb_true_iff in Hjson as [Hfile Hsuffix].
    apply bool_decide_eq_true in Hsuffix.
    exists folder. by split_and!.
  - intros (folder & Hfolder & Hdir & Hf & Hfile & Hsuffix).
    exists folder. split; apply list_elem_of_In.
    + rewrite list_sort_Permutation. by apply list_elem_of_filter.
    + apply list_elem_of_filter. split; [|done].
      unfold is_json_file. rewrite Hfile. simpl. by apply bool_decide_eq_true.
Qed.

(** X14.  The order in which the operating system lists the corpus root
    does not change what [build] does, when the domain folders have
    distinct names: the folders are sorted by name. *)
Theorem build_root_listing_order `{Collaborators} (name : string)
        (listing1 listing2 : list Node) :
  listing1 ≡ₚ listing2 →
  NoDup (map node_name (filter (λ item, is_dir item = true) listing1)) →
  _iter_corpus_files (Directory name listing1)
  = _iter_corpus_files (Directory name listing2) ∧
  build (Directory name listing1) = build (Directory name listing2).
Proof.
  intros Hperm Hnodup. unfold build.
  by rewrite (iter_corpus_files_root_order name listing1 listing2).
Qed.

Existing Instance Plain.collaborators.

(** X14 at the example corpus and its root listed in the reverse
    order. *)
Lemma build_root_listing_order_witness :
  build corpus_root = build Variants.relisted_root.
Proof.
  apply (build_root_listing_order "DEV" (iterdir corpus_root)
           (rev (iterdir corpus_root))).
  - apply Permutation_rev.
  - apply (bool_decide_unpack _). by vm_compute.
Defined.

End WalkProperties.

(** * The reader *)

Section ReaderProperties.
Import IndexReader.

(** X15.  When the lexicon has several records for a term, the reader
    keeps the last one: a later line overwrites the entry of an earlier
    one. *)
Theorem load_lexicon_last_wins (index_dir : IndexDir) (t0 : string) :
  _load_lexicon index_dir !! t0
  = last (filter (λ e, term e = t0) (lexicon_jsonl index_dir)).
Proof.
  unfold _load_lexicon.
  induction (lexicon_jsonl index_dir) as [|e lexicon IH] using rev_ind; [done|].
  rewrite foldl_app, filter_app. simpl.
  destruct (decide (term e = t0)) as [<-|Hne].
  - rewrite lookup_insert_eq. rewrite filter_cons_True by done.
    rewrite filter_nil. by rewrite last_snoc.
  - rewrite lookup_insert_ne by done. rewrite filter_cons_False by done.
    rewrite filter_nil. by rewrite app_nil_r.
Qed.

End ReaderProperties.

Section CachedReaderProperties.
Import CachedReader.

(** X16.  The caches of the reader are transparent while the index
    directory does not change: on a reader whose filled caches hold
    what the directory holds, every method returns what it returns
    without caches, and leaves such a reader. *)
Theorem cached_reader_agrees `{Collaborators} (disk : IndexDir) (self : t)
        (term : string) (d : Z) :
  coherent disk self →
  (get_postings disk self term).1 = IndexReader.get_postings disk term ∧
  (get_doc_freq disk self term).1 = IndexReader.get_doc_freq disk term ∧
  (get_url disk self d).1 = IndexReader.get_url disk d ∧
  (get_doc_length disk self d).1 = IndexReader.get_doc_length disk d ∧
  (get_num_documents disk self).1 = IndexReader.get_num_documents disk ∧
  (compute_idf disk self term).1 = IndexReader.compute_idf disk term ∧
  coherent disk (get_postings disk self term).2 ∧
  coherent disk (get_doc_freq disk self term).2 ∧
  coherent disk (get_url disk self d).2 ∧
  coherent disk (get_doc_length disk self d).2 ∧
  coherent disk (get_num_documents disk self).2 ∧
  coherent disk (compute_idf disk self term).2.
Proof.
  intros (Hlex & Hlookup & Hlengths & Hnum).
  destruct self as [lexicon_cache doc_lookup doc_lengths n]. simpl in *.
  assert (lexicon_cache = None ∨ lexicon_cache = Some (IndexReader._load_lexicon disk))
    as Hlex'.
  { destruct lexicon_cache as [lexicon|]; [right|by left].
    by rewrite (Hlex lexicon eq_refl). }
  assert (doc_lookup = None ∨ doc_lookup = Some (doc_lookup_json disk)) as Hlookup'.
  { destruct doc_lookup as [lookup|]; [right|by left].
    by rewrite (Hlookup lookup eq_refl). }
  assert (doc_lengths = None ∨ doc_lengths = Some (doc_lengths_json disk))
    as Hlengths'.
  { destruct doc_lengths as [lengths|]; [right|by left].
    by rewrite (Hlengths lengths eq_refl). }
  assert (n = None ∨ n = Some (num_documents (stats_json disk))) as Hnum'.
  { destruct n as [n|]; [right|by left]. by rewrite (Hnum n eq_refl). }
  clear Hlex Hlookup Hlengths Hnum.
  unfold compute_idf, get_postings, get_doc_freq, get_url, get_doc_length,
    get_num_documents, _load_lexicon, _load_doc_lookup, _load_doc_lengths,
    IndexReader.get_postings, IndexReader.compute_idf, IndexReader.get_doc_freq,
    IndexReader.get_url, IndexReader.get_doc_length,
    IndexReader.get_num_documents, coherent.
  destruct Hlex' as [-> | ->], Hlookup' as [-> | ->], Hlengths' as [-> | ->],
    Hnum' as [-> | ->]; simpl;
    destruct (IndexReader._load_lexicon disk !! term) as [entry|]; simpl;
    try destruct (doc_freq entry =? 0)%Z; simpl;
    split_and!; try done; by intros ? [= <-].
Qed.

(** X17.  A reader keeps the lexicon that it has loaded: after a first
    call on the directory [disk1], the document frequencies that it
    returns on a changed directory [disk2] are those of [disk1], and
    [get_postings] reads the postings file of [disk2] at the offsets of
    the lexicon of [disk1]. *)
Theorem cached_reader_keeps_lexicon `{Collaborators} (disk1 disk2 : IndexDir)
        (self : t) (term term' : string) :
  _lexicon_cache self = None →
  let self1 := (get_doc_freq disk1 self term).2 in
  (get_doc_freq disk2 self1 term').1 = IndexReader.get_doc_freq disk1 term' ∧
  (get_postings disk2 self1 term').1
  = match IndexReader._load_lexicon disk1 !! term' with
    | None => Some []
    | Some entry =>
        f ← Py.seek (postings_jsonl disk2) (offset entry);
        json_loads (Py.rstrip (Py.readline f))
    end.
Proof.
  intros Hcache. unfold get_doc_freq, get_postings, _load_lexicon. rewrite Hcache.
  destruct (IndexReader._load_lexicon disk1 !! term); simpl;
    unfold IndexReader.get_doc_freq;
    by destruct (IndexReader._load_lexicon disk1 !! term').
Qed.

Existing Instance Plain.collaborators.

(** X16 at a new reader of the example index. *)
Lemma cached_reader_agrees_witness :
  (get_doc_freq Plain.example_index init "dog").1
  = IndexReader.get_doc_freq Plain.example_index "dog" ∧
  coherent Plain.example_index (compute_idf Plain.example_index init "dog").2.
Proof.
  destruct (cached_reader_agrees Plain.example_index init "dog" 0
              (coherent_init Plain.example_index))
    as (_ & Hfreq & _ & _ & _ & _ & _ & _ & _ & _ & _ & Hidf).
  split; [exact Hfreq|exact Hidf].
Defined.

(** X17 at a new reader: it has loaded the lexicon of the example index
    and is asked again when the directory is empty. *)
Lemma cached_reader_keeps_lexicon_witness :
  (get_doc_freq Variants.empty_index
     (get_doc_freq Plain.example_index init "cat").2 "dog").1
  = IndexReader.get_doc_freq Plain.example_index "dog".
Proof.
  apply (cached_reader_keeps_lexicon Plain.example_index Variants.empty_index
           init "cat" "dog" eq_refl).
Defined.

End CachedReaderProperties.

(** * The search *)

Section SearchProperties.
Import IndexBuilder IndexReader SearchEngine Plain Corpus.

(** X18.  No document is returned twice by [search], and there are no
    more results than any term of the query has postings. *)
Theorem search_results_distinct `{Collaborators} (index_dir : IndexDir)
        (query : string) (top_k : Z) (results : list SearchResult) :
  search index_dir query top_k = Some results →
  NoDup (map res_doc_id results) ∧
  ∀ t0 ps, t0 ∈ _parse_query query → get_postings index_dir t0 = Some ps →
           (length results ≤ length ps)%nat.
Proof.
  intros Hres. pose proof (search_run index_dir query top_k) as Hrun.
  rewrite Hres in Hrun. simpl in Hrun.
  destruct Hrun as [[_ ->]|[[_ ->]|(_ & _ & X & HX & _ & ->)]].
  - split; [constructor|]. intros. simpl. lia.
  - split; [constructor|]. intros. simpl. lia.
  - split; [apply ranking_doc_ids|].
    intros t0 ps Ht0 Hps.
    rewrite <-(length_map res_doc_id), <-(length_map doc_id ps).
    apply submseteq_length, NoDup_submseteq; [apply ranking_doc_ids|].
    intros d (r & -> & Hr)%list_elem_of_fmap.
    apply elem_of_ranking in Hr as (Hcand & _ & _).
    apply HX in Hcand. destruct (Hcand t0 Ht0) as (ps' & Hps' & Hd).
    by simplify_eq.
Qed.

(** X19.  The results for a smaller [top_k] are a prefix of the results
    for a larger one: for [0 ≤ k ≤ k'], [search] with [top_k = k]
    returns the first [k] results of [search] with [top_k = k'], and
    raises when that one raises. *)
Theorem search_top_k_prefix `{Collaborators} (index_dir : IndexDir)
        (query : string) (k k' : Z) :
  (0 ≤ k ≤ k')%Z →
  search index_dir query k = take (Z.to_nat k) <$> search index_dir query k'.
Proof.
  intros Hk. unfold search.
  destruct (_parse_query query) as [|t0 terms]; [simpl; by rewrite take_nil|].
  destruct (fetch_postings index_dir (t0 :: terms) []) as [[tp|]|]; simpl;
    [|by rewrite take_nil|done].
  destruct (decide (_boolean_and tp = ∅)); [simpl; by rewrite take_nil|].
  destruct (_score_documents index_dir (_boolean_and tp) tp (t0 :: terms))
    as [scored|]; simpl; [|done].
  f_equal. unfold Py.slice_to.
  rewrite !(proj2 (Z.leb_le 0 _)) by lia.
  rewrite take_take. f_equal. lia.
Qed.

(** X20.  Build, then search.  On the index written after a completed
    [build], when the blocks of the query terms are lines that
    [json.loads] decodes back, [search] returns; every result has the
    non-empty URL of an indexed document whose first payload has every
    term of the query; and when [top_k] is at least the number of
    documents, the URL of every such document is among the results. *)
Theorem build_then_search `{Collaborators} (files : list Node) (st : loop)
        (query : string) (top_k : Z) :
  build_loop files = Some st →
  (∀ t0, t0 ∈ _parse_query query → is_Some (_postings (self st) !! t0) →
         block_readable (self st) t0) →
  ∃ results,
    search (write (self st)) query top_k = Some results ∧
    (∀ r, r ∈ results →
          url r ≠ ""%string ∧
          doc_lookup (self st) !! res_doc_id r = Some (url r) ∧
          ∃ payload,
            first_with_url files payload ∧ payload_url payload = Some (url r) ∧
            contains_all payload (_parse_query query)) ∧
    (_parse_query query ≠ [] →
     (num_documents (stats_json (write (self st))) ≤ top_k)%Z →
     ∀ payload u,
       first_with_url files payload → payload_url payload = Some u →
       u ≠ ""%string → contains_all payload (_parse_query query) →
       u ∈ map url results).
Proof.
  intros Hrun Hreadable.
  pose proof (build_loop_invariant files st Hrun) as Hinv.
  set (index_dir := write (self st)).
  assert (∀ t0, t0 ∈ _parse_query query →
            get_postings index_dir t0 = Some (sorted_postings (self st) t0)) as Hget.
  { intros t0 Ht0. apply get_postings_written. by apply Hreadable. }
  destruct (search_returns index_dir query top_k) as [results Hres].
  { intros t0 Ht0. rewrite Hget by done. by eexists. }
  { intros t0 _. by eapply built_idf_defined. }
  exists results. split; [done|].
  pose proof (search_run index_dir query top_k) as Hsearch.
  rewrite Hres in Hsearch. simpl in Hsearch.
  assert (∀ d, in_all_postings index_dir (_parse_query query) d ↔
               ∀ t0, t0 ∈ _parse_query query →
                     d ∈ map doc_id (sorted_postings (self st) t0)) as Hall.
  { intros d. unfold in_all_postings. split.
    - intros Hd t0 Ht0. destruct (Hd t0 Ht0) as (ps & Hps & Hin).
      rewrite Hget in Hps by done. by simplify_eq.
    - intros Hd t0 Ht0. eexists. split; [by apply Hget|by apply Hd]. }
  split.
  - intros r Hr.
    destruct Hsearch as [[_ ->]|[[_ ->]|(Hne & _ & X & HX & _ & ->)]];
      [inv Hr..|].
    apply elem_of_ranking in Hr as (Hcand & (u & Hu & Hnonempty) & Hresult).
    assert (url r = u) as Hurl_r.
    { rewrite Hresult. simpl. by rewrite Hu. }
    rewrite Hurl_r.
    assert (doc_lookup (self st) !! res_doc_id r = Some u) as Hd.
    { unfold get_url, index_dir in Hu. by rewrite write_doc_lookup in Hu. }
    split_and!; [done..|].
    destruct (inv_docs _ _ Hinv _ u Hd) as (payload & Hfirst & Hurl & _).
    exists payload. split_and!; [done..|].
    intros t0 Ht0. apply HX in Hcand.
    pose proof (proj1 (Hall _) Hcand t0 Ht0) as Hcand'. clear Hcand.
    rename Hcand' into Hcand.
    apply (posting_documents files st t0 _ Hrun) in Hcand
      as (u' & payload' & Hd' & Hfirst' & Hurl' & Hin).
    assert (payload' = payload) as <-; [|done].
    eapply first_with_url_unique; [done..|congruence].
  - intros Hne Hk payload u Hfirst Hurl Hnonempty Hcontains.
    destruct (first_payload_indexed files st payload u Hrun Hfirst Hurl) as [d Hd].
    assert (in_all_postings index_dir (_parse_query query) d) as Hin.
    { apply Hall. intros t0 Ht0. apply (posting_documents files st t0 d Hrun).
      exists u, payload. split_and!; [done..|]. by apply Hcontains. }
    assert (has_url index_dir d) as Hhas.
    { exists u. split; [|done]. unfold get_url, index_dir.
      by rewrite write_doc_lookup. }
    destruct Hsearch as [[Hnil _]|[[(t0 & Ht0 & Hempty) _]|(_ & _ & X & HX & _ & ->)]].
    + done.
    + exfalso. rewrite Hget in Hempty by done.
      pose proof (proj1 (Hall _) Hin t0 Ht0) as Hin'.
      injection Hempty as Hempty. rewrite Hempty in Hin'. inv Hin'.
    + apply list_elem_of_fmap.
      exists (result_of index_dir (_parse_query query) d). split.
      { simpl. unfold get_url, index_dir. by rewrite write_doc_lookup, Hd. }
      apply ranking_complete; [|by apply HX|done].
      etrans; [|exact Hk]. unfold index_dir. rewrite write_num_documents.
      apply inj_le. rewrite <-(size_dom (D:=gset Z)).
      apply subseteq_size. intros d' Hd'%HX.
      destruct (_parse_query query) as [|t0 terms] eqn:Hterms; [done|].
      pose proof (proj1 (Hall _) Hd' t0 (list_elem_of_here _ _)) as Hd''.
      apply (posting_documents files st t0 d' Hrun) in Hd'' as (u' & _ & Hd'' & _).
      apply elem_of_dom. by eexists.
Qed.

Existing Instance Plain.collaborators.

(** X18 at the query "dog" on the example index. *)
Lemma search_results_distinct_witness :
  NoDup (map res_doc_id
             (Py.slice_to [result_of example_index ["dog"%string] 0;
                           result_of example_index ["dog"%string] 1] 5)).
Proof.
  apply (search_results_distinct example_index "dog" 5 _ (example_search_dog 5)).
Defined.

(** X19 at the query "dog" on the example index, with 1 and 5. *)
Lemma search_top_k_prefix_witness :
  search example_index "dog" 1
  = take (Z.to_nat 1) <$> search example_index "dog" 5.
Proof. apply (search_top_k_prefix example_index "dog" 1 5). lia. Defined.

(** X20 at the example corpus and the query "cat": the page at
    [http://a] has the word and is returned. *)
Lemma build_then_search_witness :
  ∃ results,
    search (write (self final)) "cat" 5 = Some results ∧
    "http://a"%string ∈ map url results.
Proof.
  destruct (build_then_search files final "cat" 5 corpus_build)
    as (results & Hres & _ & Hall).
  - intros t0 Ht0 _.
    change (_parse_query "cat") with ["cat"%string] in Ht0.
    apply list_elem_of_singleton in Ht0 as ->. apply corpus_cat_readable.
  - exists results. split; [exact Hres|].
    apply (Hall ltac:(discriminate) ltac:(vm_compute; discriminate) page_a).
    + exists [], file_1, [file_2; file_3; file_x].
      split_and!; [reflexivity|reflexivity|]. intros file' payload' Hin. inv Hin.
    + reflexivity.
    + discriminate.
    + intros t0 Ht0.
      change (_parse_query "cat") with ["cat"%string] in Ht0.
      apply list_elem_of_singleton in Ht0 as ->.
      change ((parse (html_of page_a)).*1) with ["cat"; "dog"]%string. left.
Defined.

End SearchProperties.

(** * The interactive loop *)

Section SearchCliProperties.
Import SearchCli.

(** X21.  The interactive loop ends at the first input that is Ctrl-C
    or, after [strip], one of the words that quit: it has printed the
    reports of the queries before it (nothing for a blank line) and
    then the goodbye; the inputs after it are not read. *)
Theorem interactive_mode_quits `{Collaborators} (strip lower : string → string)
        (index_dir : IndexDir) (top_k : Z)
        (before after : list Input) (last : Input) (fuel : nat) :
  Forall (goes_on strip lower) before →
  ends strip lower last →
  (length before < fuel)%nat →
  interactive_mode strip lower fuel index_dir top_k (before ++ last :: after) []
  = Some (reports strip index_dir top_k before ++ [Goodbye]).
Proof.
  intros Hbefore Hlast Hfuel.
  replace fuel with (length before + S (fuel - S (length before)))%nat by lia.
  rewrite interactive_mode_goes_on by done.
  destruct last as [text|]; simpl; [|done].
  destruct Hlast as [Hquery Hquit].
  by rewrite decide_False, decide_True by done.
Qed.

(** X22.  When the input ends without Ctrl-C and without a word that
    quits, the loop does not end: [input()] raises [EOFError], which
    [except Exception] catches, and the loop goes round again, for any
    number of passes. *)
Theorem interactive_mode_runs_on `{Collaborators} (strip lower : string → string)
        (index_dir : IndexDir) (top_k : Z) (stdin : list Input) (fuel : nat) :
  Forall (goes_on strip lower) stdin →
  interactive_mode strip lower fuel index_dir top_k stdin [] = None.
Proof.
  intros Hstdin.
  assert (∀ fuel printed,
            interactive_mode strip lower fuel index_dir top_k [] printed = None)
    as Heof.
  { clear. induction fuel as [|fuel IH]; intros printed; [done|]. simpl. apply IH. }
  destruct (decide (fuel ≤ length stdin)%nat) as [Hle|Hgt].
  - generalize (@nil Output). revert fuel Hle.
    induction Hstdin as [|input stdin Hinput Hstdin IH]; intros fuel Hle printed.
    + simpl in Hle. by replace fuel with 0%nat by lia.
    + destruct fuel as [|fuel]; [done|]. simpl in Hle.
      destruct input as [text|]; [|done]. simpl in *.
      destruct (decide (strip text = ""%string)); [apply IH; lia|].
      destruct Hinput as [?|Hgo]; [done|].
      rewrite decide_False by done. apply IH. lia.
  - replace fuel with (length stdin + (fuel - length stdin))%nat by lia.
    pose proof (interactive_mode_goes_on strip lower index_dir top_k stdin [] []
                  (fuel - length stdin) Hstdin) as Hrun.
    rewrite app_nil_r in Hrun. rewrite Hrun. apply Heof.
Qed.

Existing Instance Plain.collaborators.

(** X21 at the inputs "dog" and "quit" on the example index. *)
Lemma interactive_mode_quits_witness :
  interactive_mode (λ text, text) (λ text, text) 5 Plain.example_index 5
                   [Line "dog"; Line "quit"; Line "cat"] []
  = Some (reports (λ text, text) Plain.example_index 5 [Line "dog"] ++ [Goodbye]).
Proof.
  apply (interactive_mode_quits (λ text, text) (λ text, text) Plain.example_index 5
           [Line "dog"] [Line "cat"] (Line "quit") 5).
  - apply Forall_singleton. right. unfold quits. simpl.
    intros Hin. repeat (apply elem_of_cons in Hin as [Hin|Hin]; [discriminate|]).
    inv Hin.
  - split; [discriminate|]. unfold quits. left.
  - simpl. lia.
Defined.

(** X22 at the single input "dog" and seven passes. *)
Lemma interactive_mode_runs_on_witness :
  interactive_mode (λ text, text) (λ text, text) 7 Plain.example_index 5 [Line "dog"] [] = None.
Proof.
  apply (interactive_mode_runs_on (λ text, text) (λ text, text) Plain.example_index 5 [Line "dog"] 7).
  apply Forall_singleton. right. unfold quits. simpl.
  intros Hin. repeat (apply elem_of_cons in Hin as [Hin|Hin]; [discriminate|]).
  inv Hin.
Defined.

End SearchCliProperties.
